(** * dichfoto_server_file: the album / asset data model

    A shallow embedding of [app/models/models.py] and [app/models/album.py]:

    - the Python values that reach [Asset.set_variants], the attribute
      dictionary of a mapped instance and [set_variants] itself, in a small
      state-and-exception monad (Module [Py]);
    - the declarative schema (columns, foreign keys, relationships) as data,
      and a relational engine that gives those declarations their SQL
      meaning (Modules [Schema], [Models], [Engine]).  *)

From stdpp Require Import gmap strings list fin_maps sorting pretty.
From Stdlib Require Import ZArith Lia Ascii.

#[local] Set Warnings "-register-all,-clear-no-such-hyp".
#[local] Open Scope string_scope.
#[local] Open Scope Z_scope.

(* ===================================================================== *)
(** ** Python values and the instance attribute dictionary                *)
(* ===================================================================== *)

Module Py.

(** Dictionary keys that occur in the program: [str] and [int]. *)
Inductive pykey :=
| KInt (z : Z)
| KStr (s : string).

#[global] Instance pykey_eq_dec : EqDecision pykey.
Proof. solve_decision. Defined.

#[global] Instance pykey_countable : Countable pykey.
Proof.
  refine (inj_countable'
            (λ k, match k with KInt z => inl z | KStr s => inr s end)
            (λ x, match x with inl z => KInt z | inr s => KStr s end) _).
  by intros [].
Defined.

(** The values a caller can put into the [variants] dict. *)
Inductive pyval :=
| PyNone
| PyBool (b : bool)
| PyInt (z : Z)
| PyStr (s : string)
| PyDict (d : gmap pykey pyval).

Inductive pyexn :=
| AttributeError (attr : string).

(** [bool(v)]: the truth value Python's [or] tests. *)
Definition truthy (v : pyval) : bool :=
  match v with
  | PyNone => false
  | PyBool b => b
  | PyInt z => negb (z =? 0)
  | PyStr s => negb (String.eqb s "")
  | PyDict d => negb (Nat.eqb (size d) 0)
  end.

(** [a or b] *)
Definition py_or (a b : pyval) : pyval := if truthy a then a else b.

(** [d.get(k)] on a dict: the value, or [None] when the key is missing. *)
Definition dict_get (d : gmap pykey pyval) (k : pykey) : pyval :=
  default PyNone (d !! k).

(** [v.get(k)] on an arbitrary value: only a dict has the method. *)
Definition py_get (v : pyval) (k : pykey) : pyexn + pyval :=
  match v with
  | PyDict d => inr (dict_get d k)
  | _ => inl (AttributeError "get")
  end.

(** A mapped instance is its attribute dictionary; a column attribute that
    was never assigned reads as [None]. *)
Abbreviation instance := (gmap string pyval).

Definition getattr (self : instance) (name : string) : pyval :=
  default PyNone (self !! name).

(** *** State and exception monad over the instance being mutated *)

Definition M (A : Type) : Type := instance → instance * (pyexn + A).

Definition ret {A} (x : A) : M A := λ self, (self, inr x).

Definition bind {A B} (m : M A) (k : A → M B) : M B :=
  λ self,
    match m self with
    | (self', inr x) => k x self'
    | (self', inl e) => (self', inl e)
    end.

Definition lift {A} (r : pyexn + A) : M A := λ self, (self, r).

(** [setattr(self, name, v)] *)
Definition setattr (name : string) (v : pyval) : M unit :=
  λ self, (<[name := v]> self, inr tt).

#[global] Instance M_ret : MRet M := @ret.
#[global] Instance M_bind : MBind M := λ A B k m, bind m k.

(** [for x in l: body(x)] *)
Fixpoint for_each {A} (l : list A) (body : A → M unit) : M unit :=
  match l with
  | [] => ret tt
  | x :: l' => body x ;; for_each l' body
  end.

(** The body of the loop over the encodings, models.py lines 112-116.
    [d.get] is evaluated before the assignment it feeds, so a [d] without
    that method raises before any attribute of this encoding is written. *)
Definition set_variants_body (variants : gmap pykey pyval) (ext : string)
  : M unit :=
  let d := py_or (dict_get variants (KStr ext)) (PyDict ∅) in
  v480 ← lift (py_get d (KInt 480));
  setattr (ext +:+ "_480") v480 ;;
  v960 ← lift (py_get d (KInt 960));
  setattr (ext +:+ "_960") v960 ;;
  v1280 ← lift (py_get d (KInt 1280));
  setattr (ext +:+ "_1280") v1280 ;;
  v1920 ← lift (py_get d (KInt 1920));
  setattr (ext +:+ "_1920") v1920.

(** [Asset.set_variants], models.py lines 108-116. *)
Definition set_variants (variants : gmap pykey pyval) : M unit :=
  setattr "width" (dict_get variants (KStr "width")) ;;
  setattr "height" (dict_get variants (KStr "height")) ;;
  for_each ["jpg"; "webp"; "avif"] (set_variants_body variants).

(** The instance after the call, and how the call ended. *)
Definition after (variants : gmap pykey pyval) (self : instance) : instance :=
  fst (set_variants variants self).

Definition outcome (variants : gmap pykey pyval) (self : instance)
  : pyexn + unit :=
  snd (set_variants variants self).

(** *** The input shape of the specification *)

Definition encodings : list string := ["jpg"; "webp"; "avif"].
Definition breakpoints : list Z := [480; 960; 1280; 1920].

Definition breakpoint_suffix (bp : Z) : string :=
  if bp =? 480 then "_480"
  else if bp =? 960 then "_960"
  else if bp =? 1280 then "_1280"
  else "_1920".

Definition variant_field (ext : string) (bp : Z) : string :=
  ext +:+ breakpoint_suffix bp.

(** An encoding entry is usable when it is missing, falsy, or a dict. *)
Definition encoding_ok (variants : gmap pykey pyval) (ext : string) : bool :=
  match variants !! KStr ext with
  | None => true
  | Some (PyDict _) => true
  | Some v => negb (truthy v)
  end.

Definition variants_ok (variants : gmap pykey pyval) : bool :=
  forallb (encoding_ok variants) encodings.

(** What the input supplies for one variant field. *)
Definition supplied (variants : gmap pykey pyval) (ext : string) (bp : Z)
  : pyval :=
  match variants !! KStr ext with
  | Some (PyDict d) => dict_get d (KInt bp)
  | _ => PyNone
  end.

(** A computation that only writes: it assigns some attributes [w], all
    of them among [names], and ends in [r], whatever the instance held. *)
Definition write_only (names : list string) {A} (m : M A) : Prop :=
  ∃ (w : instance) (r : pyexn + A),
    (∀ n, is_Some (w !! n) → n ∈ names) ∧ ∀ self, m self = (w ∪ self, r).

(** The (encoding, breakpoint) pairs, in the order the loop visits them. *)
Definition variant_slots : list (string * Z) :=
  ext ← encodings; bp ← breakpoints; [(ext, bp)].

(** The instance a call on a well-shaped input leaves behind. *)
Definition overwritten (variants : gmap pykey pyval) (self : instance)
  : instance :=
  foldl (λ acc s, <[variant_field s.1 s.2 := supplied variants s.1 s.2]> acc)
        (<["height" := dict_get variants (KStr "height")]>
           (<["width" := dict_get variants (KStr "width")]> self))
        variant_slots.

(** The attributes [set_variants] assigns. *)
Definition variant_attrs : list string :=
  ["width"; "height";
   "jpg_480"; "jpg_960"; "jpg_1280"; "jpg_1920";
   "webp_480"; "webp_960"; "webp_1280"; "webp_1920";
   "avif_480"; "avif_960"; "avif_1280"; "avif_1920"].

End Py.

(* ===================================================================== *)
(** ** The declarative schema                                             *)
(* ===================================================================== *)

Module Schema.

Inductive coltype :=
| Integer
| String_ (length : option nat)
| Text
| Boolean
| DateTime.

(** [ondelete=...] of a [ForeignKey]; without the argument the constraint
    has no ON DELETE clause, which is SQL's NO ACTION. *)
Inductive ondelete :=
| NoAction
| Cascade
| SetNull.

Record foreign_key := ForeignKey {
  fk_table : string;
  fk_column : string;
  fk_ondelete : ondelete
}.

Inductive coldefault :=
| NoDefault
| DefaultBool (b : bool)
| DefaultUtcNow.

Record column := MkColumn {
  c_name : string;
  c_type : coltype;
  c_primary_key : bool;
  c_nullable : bool;
  c_unique : bool;
  c_index : bool;
  c_foreign_key : option foreign_key;
  c_default : coldefault
}.

(** [Column(type)] with every keyword argument at its default: not a
    primary key, nullable, not unique, no index, no foreign key. *)
Definition Column (name : string) (ty : coltype) : column :=
  MkColumn name ty false true false false None NoDefault.

(** [mapped_column(type)] under a [Mapped[T]] annotation with a
    non-optional [T]: the column is NOT NULL. *)
Definition mapped_column (name : string) (ty : coltype) : column :=
  MkColumn name ty false false false false None NoDefault.

(** The keyword arguments, as record updates. A primary key column is
    never nullable. *)
Definition primary_key (c : column) : column :=
  MkColumn (c_name c) (c_type c) true false (c_unique c) (c_index c)
           (c_foreign_key c) (c_default c).
Definition nullable (b : bool) (c : column) : column :=
  MkColumn (c_name c) (c_type c) (c_primary_key c) b (c_unique c) (c_index c)
           (c_foreign_key c) (c_default c).
Definition unique (c : column) : column :=
  MkColumn (c_name c) (c_type c) (c_primary_key c) (c_nullable c) true
           (c_index c) (c_foreign_key c) (c_default c).
Definition index (c : column) : column :=
  MkColumn (c_name c) (c_type c) (c_primary_key c) (c_nullable c)
           (c_unique c) true (c_foreign_key c) (c_default c).
Definition references (fk : foreign_key) (c : column) : column :=
  MkColumn (c_name c) (c_type c) (c_primary_key c) (c_nullable c)
           (c_unique c) (c_index c) (Some fk) (c_default c).
Definition with_default (d : coldefault) (c : column) : column :=
  MkColumn (c_name c) (c_type c) (c_primary_key c) (c_nullable c)
           (c_unique c) (c_index c) (c_foreign_key c) d.

(** [relationship(...)]. A dotted string such as ["Asset.album_id"] is kept
    as the pair of its class and attribute. *)
Record relationship := MkRelationship {
  r_name : string;
  r_target : string;
  r_back_populates : option string;
  r_cascade : list string;
  r_passive_deletes : bool;
  r_foreign_keys : option (string * string);
  r_order_by : option (string * string);
  r_uselist : bool;
  r_post_update : bool
}.

Record model := MkModel {
  m_class : string;
  m_tablename : string;
  m_columns : list column;
  m_relationships : list relationship
}.

Definition column_names (m : model) : list string := c_name <$> m_columns m.
Definition relationship_names (m : model) : list string :=
  r_name <$> m_relationships m.

Definition find_table (sch : list model) (t : string) : option model :=
  List.find (λ m, String.eqb (m_tablename m) t) sch.

Definition find_class (sch : list model) (cls : string) : option model :=
  List.find (λ m, String.eqb (m_class m) cls) sch.

Definition find_column (m : model) (c : string) : option column :=
  List.find (λ col, String.eqb (c_name col) c) (m_columns m).

Definition find_relationship (m : model) (r : string) : option relationship :=
  List.find (λ rel, String.eqb (r_name rel) r) (m_relationships m).

End Schema.

(* ===================================================================== *)
(** ** The mapped classes of the repository                               *)
(* ===================================================================== *)

Module Models.
Import Schema.

(** app/models/models.py, class Album (lines 6-43). *)
Definition Album : model :=
  MkModel "Album" "albums"
    [ index (primary_key (Column "id" Integer));
      nullable false (Column "title" (String_ None));
      nullable true (Column "photographer" (String_ None));
      nullable true (Column "photographer_url" (String_ (Some 255%nat)));
      nullable true (Column "event_date" DateTime);
      with_default DefaultUtcNow (Column "created_at" DateTime);
      index (nullable true
        (references (ForeignKey "assets" "id" SetNull)
           (Column "cover_asset_id" Integer))) ]
    [ MkRelationship "cover_asset" "Asset" None [] false
        (Some ("Album", "cover_asset_id")) None false true;
      MkRelationship "assets" "Asset" (Some "album")
        ["all"; "delete-orphan"] true
        (Some ("Asset", "album_id")) (Some ("Asset", "sort_order")) true false;
      MkRelationship "shares" "ShareLink" (Some "album")
        ["all"; "delete-orphan"] true None None true false ].

(** app/models/models.py, class ShareLink (lines 45-56). *)
Definition ShareLink : model :=
  MkModel "ShareLink" "share_links"
    [ index (primary_key (Column "id" Integer));
      index (references (ForeignKey "albums" "id" Cascade)
               (Column "album_id" Integer));
      index (unique (Column "slug" (String_ None)));
      nullable true (Column "expires_at" DateTime);
      nullable true (Column "password_hash" (String_ None));
      with_default (DefaultBool true) (Column "allow_zip" Boolean);
      with_default DefaultUtcNow (Column "created_at" DateTime) ]
    [ MkRelationship "album" "Album" (Some "shares") [] false None None
        false false ].

(** app/models/models.py, class Asset (lines 58-106). *)
Definition Asset : model :=
  MkModel "Asset" "assets"
    [ index (primary_key (Column "id" Integer));
      index (references (ForeignKey "albums" "id" Cascade)
               (Column "album_id" Integer));
      nullable true (Column "sort_order" Integer);
      nullable false (Column "filename" (String_ (Some 255%nat)));
      nullable false (Column "original_name" (String_ (Some 255%nat)));
      nullable true (Column "mime_type" (String_ (Some 128%nat)));
      nullable true (Column "size" Integer);
      nullable true (Column "width" Integer);
      nullable true (Column "height" Integer);
      nullable true (Column "lqip" Text);
      nullable true (Column "jpg_480" (String_ (Some 255%nat)));
      nullable true (Column "jpg_960" (String_ (Some 255%nat)));
      nullable true (Column "jpg_1280" (String_ (Some 255%nat)));
      nullable true (Column "jpg_1920" (String_ (Some 255%nat)));
      nullable true (Column "webp_480" (String_ (Some 255%nat)));
      nullable true (Column "webp_960" (String_ (Some 255%nat)));
      nullable true (Column "webp_1280" (String_ (Some 255%nat)));
      nullable true (Column "webp_1920" (String_ (Some 255%nat)));
      nullable true (Column "avif_480" (String_ (Some 255%nat)));
      nullable true (Column "avif_960" (String_ (Some 255%nat)));
      nullable true (Column "avif_1280" (String_ (Some 255%nat)));
      nullable true (Column "avif_1920" (String_ (Some 255%nat)));
      nullable true (Column "gdrive_file_id" (String_ (Some 255%nat)));
      nullable true (Column "gdrive_thumb_id" (String_ (Some 255%nat)));
      with_default (DefaultBool false) (Column "is_hidden" Boolean);
      index (with_default DefaultUtcNow (Column "created_at" DateTime)) ]
    [ MkRelationship "album" "Album" (Some "assets") [] false
        (Some ("Asset", "album_id")) None false false ].

(** app/models/models.py, class Like (lines 119-125). *)
Definition Like : model :=
  MkModel "Like" "likes"
    [ index (primary_key (Column "id" Integer));
      index (Column "url" (String_ None));
      nullable true (Column "user_id" Integer);
      with_default (DefaultBool true) (Column "liked" Boolean);
      with_default DefaultUtcNow (Column "created_at" DateTime) ]
    [].

(** The metadata of models.py: its four tables. *)
Definition metadata : list model := [Album; ShareLink; Asset; Like].

(** app/models/album.py, class Album (lines 5-8). *)
Definition AlbumMinimal : model :=
  MkModel "Album" "albums"
    [ index (primary_key (mapped_column "id" Integer));
      index (mapped_column "title" (String_ (Some 200%nat))) ]
    [].

End Models.
(* ===================================================================== *)
(** ** A relational engine for the declared schema                        *)
(* ===================================================================== *)

(** The store the mapped classes are persisted in. models.py imports its
    [Base] from a [database] module that is not in the snapshot; the one
    engine the snapshot configures is that of the app/db/engine.py
    template (bootstrap_scaffold.py lines 52-62): SQLite unless
    [DATABASE_URL] says otherwise, created with [check_same_thread] and
    [pool_pre_ping] only. The declarations are given the meaning they
    have on SQLite. NOT NULL, PRIMARY KEY and UNIQUE (which never
    constrains NULL) are always checked. FOREIGN KEY is checked, and the
    ON DELETE action of a foreign key performed, only on a connection
    that ran [PRAGMA foreign_keys = ON]: that is the parameter [fk] of the
    engine, false for the engine of the template, which never runs it.
    The place of NULL in an ascending order is a parameter too. *)

Module Engine.
Import Schema.

Inductive sqlval :=
| Null
| VInt (z : Z)
| VText (s : string)
| VBool (b : bool)
| VTime (t : Z).

#[global] Instance sqlval_eq_dec : EqDecision sqlval.
Proof. solve_decision. Defined.

(** A row maps column names to cells; a table maps the integer primary
    key to its row, which holds the key in its primary key column too; a
    database maps table names to tables. *)
Abbreviation row := (gmap string sqlval).
Abbreviation table := (gmap Z row).
Abbreviation database := (gmap string table).

Definition cell (r : row) (c : string) : sqlval := default Null (r !! c).
Definition rows (db : database) (t : string) : table := default ∅ (db !! t).

Inductive constraint :=
| NotNull
| Unique
| ForeignKeyConstraint.

Inductive dberror :=
| IntegrityError (k : constraint) (t c : string)
| NoSuchTable (t : string).

(** *** INSERT *)

(** A column left unset takes its declared default. *)
Definition default_value (now : Z) (d : coldefault) : option sqlval :=
  match d with
  | NoDefault => None
  | DefaultBool b => Some (VBool b)
  | DefaultUtcNow => Some (VTime now)
  end.

Definition apply_default (now : Z) (c : column) (r : row) : row :=
  match default_value now (c_default c) with
  | Some v =>
      if bool_decide (cell r (c_name c) = Null) then <[c_name c := v]> r
      else r
  | None => r
  end.

Definition with_defaults (now : Z) (m : model) (r : row) : row :=
  foldr (apply_default now) r (m_columns m).

Definition check_not_null (t : string) (r : row) (c : column)
  : option dberror :=
  if negb (c_nullable c) && negb (c_primary_key c)
     && bool_decide (cell r (c_name c) = Null)
  then Some (IntegrityError NotNull t (c_name c))
  else None.

(** The name of the primary key column. *)
Definition primary_key_name (m : model) : string :=
  default "id" (c_name <$> List.find c_primary_key (m_columns m)).

(** The PRIMARY KEY check: a key given with the row must be free. A
    duplicate is reported as the UNIQUE violation of the key column. *)
Definition check_key (t pk : string) (tb : table) (key : option Z)
  : option dberror :=
  match key with
  | Some k =>
      if bool_decide (is_Some (tb !! k))
      then Some (IntegrityError Unique t pk)
      else None
  | None => None
  end.

(** Some stored row already holds the value [v] in column [c]. *)
Definition holds (tb : table) (c : string) (v : sqlval) : bool :=
  bool_decide (map_Exists (λ _ r', cell r' c = v) tb).

Definition check_unique (t : string) (tb : table) (r : row) (c : column)
  : option dberror :=
  if c_unique c && negb (bool_decide (cell r (c_name c) = Null))
     && holds tb (c_name c) (cell r (c_name c))
  then Some (IntegrityError Unique t (c_name c))
  else None.

(** The FOREIGN KEY check, made only when foreign keys are enforced. *)
Definition check_foreign_key (fk : bool) (t : string) (db : database)
    (r : row) (c : column) : option dberror :=
  if fk then
    match c_foreign_key c with
    | None => None
    | Some f =>
        match cell r (c_name c) with
        | Null => None
        | VInt i =>
            if bool_decide (is_Some (rows db (fk_table f) !! i)) then None
            else Some (IntegrityError ForeignKeyConstraint t (c_name c))
        | _ => Some (IntegrityError ForeignKeyConstraint t (c_name c))
        end
    end
  else None.

Definition first_error (checks : list (option dberror)) : option dberror :=
  foldr (λ c rest, match c with Some e => Some e | None => rest end)
        None checks.

(** The checks of an insert in the order SQLite makes them: NOT NULL
    column by column, the key, the UNIQUE indexes, and the foreign keys
    at the end of the statement. *)
Definition check_row (fk : bool) (m : model) (db : database)
    (key : option Z) (r : row) : option dberror :=
  let t := m_tablename m in
  first_error
    ((check_not_null t r <$> m_columns m)
     ++ [check_key t (primary_key_name m) (rows db t) key]
     ++ (check_unique t (rows db t) r <$> m_columns m)
     ++ (check_foreign_key fk t db r <$> m_columns m)).

(** The key the engine assigns: 1 in an empty table, and else one more
    than the largest key in use. *)
Definition fresh_id (tb : table) : Z :=
  match elements (dom tb) with
  | [] => 1
  | k :: l => 1 + foldr Z.max k l
  end.

(** [INSERT INTO t]. [key] is the [id] of the instance, an integer or
    [None] when it was not set; [r0] holds its other columns, and an
    entry of [r0] under the key column is not read. *)
Definition insert_row (fk : bool) (sch : list model) (now : Z) (t : string)
    (key : option Z) (r0 : row) (db : database) : dberror + (Z * database) :=
  match find_table sch t with
  | None => inl (NoSuchTable t)
  | Some m =>
      let r := with_defaults now m r0 in
      match check_row fk m db key r with
      | Some e => inl e
      | None =>
          let id := default (fresh_id (rows db t)) key in
          inr (id, <[t := <[id := <[primary_key_name m := VInt id]> r]>
                            (rows db t)]> db)
      end
  end.

(** *** DELETE *)

(** Every foreign key of the schema that targets table [t]: the
    referencing table, the referencing column and its ON DELETE action. *)
Definition referencing (sch : list model) (t : string)
  : list (string * string * ondelete) :=
  m ← sch;
  c ← m_columns m;
  match c_foreign_key c with
  | Some f =>
      if String.eqb (fk_table f) t
      then [(m_tablename m, c_name c, fk_ondelete f)]
      else []
  | None => []
  end.

(** Row [r] references one of the keys [ids] through column [c]. *)
Definition refers (ids : gset Z) (c : string) (r : row) : bool :=
  match cell r c with
  | VInt i => bool_decide (i ∈ ids)
  | _ => false
  end.

Definition remove_rows (ids : gset Z) (tb : table) : table :=
  filter (λ kv, kv.1 ∉ ids) tb.

Definition referrers (ids : gset Z) (c : string) (tb : table) : gset Z :=
  dom (filter (λ kv, refers ids c kv.2 = true) tb).

Definition null_out (ids : gset Z) (c : string) (tb : table) : table :=
  (λ r, if refers ids c r then <[c := Null]> r else r) <$> tb.

(** The ON DELETE action of one referencing foreign key [(ct, cc, act)],
    applied after the rows [ids] of the referenced table are gone.
    [recur] deletes the referencing rows of a cascade. *)
Definition on_delete
    (recur : string → gset Z → database → option (dberror + database))
    (ids : gset Z) (acc : option (dberror + database))
    (f : string * string * ondelete) : option (dberror + database) :=
  let '(ct, cc, act) := f in
  match acc with
  | Some (inr db) =>
      match act with
      | Cascade => recur ct (referrers ids cc (rows db ct)) db
      | SetNull => Some (inr (<[ct := null_out ids cc (rows db ct)]> db))
      | NoAction =>
          if bool_decide (referrers ids cc (rows db ct) = ∅) then acc
          else Some (inl (IntegrityError ForeignKeyConstraint ct cc))
      end
  | _ => acc
  end.

(** [DELETE FROM t WHERE id IN ids]. The rows deleted are those of [ids]
    that are stored; when foreign keys are enforced the referential
    actions of the schema follow for them, and otherwise nothing else
    happens. [None] means the fuel did not cover the depth of the
    cascade; [Some (inl _)] that a NO ACTION reference blocked the
    delete. *)
Fixpoint delete_rows (fuel : nat) (fk : bool) (sch : list model)
    (t : string) (ids : gset Z) (db : database)
  : option (dberror + database) :=
  match fuel with
  | O => None
  | S fuel' =>
      let gone := ids ∩ dom (rows db t) in
      let db1 := <[t := remove_rows gone (rows db t)]> db in
      if fk
      then foldl (on_delete (delete_rows fuel' fk sch) gone)
                 (Some (inr db1)) (referencing sch t)
      else Some (inr db1)
  end.

(** *** Loading a one-to-many relationship *)

Definition int_key (v : sqlval) : option Z :=
  match v with
  | VInt z => Some z
  | _ => None
  end.

(** Ascending order on the cells of an Integer column. Where NULL sorts
    is the storage engine's choice. *)
Definition key_le (nulls_first : bool) (x y : option Z) : Prop :=
  match x, y with
  | None, None => True
  | None, Some _ => nulls_first = true
  | Some _, None => nulls_first = false
  | Some a, Some b => a ≤ b
  end.

#[global] Instance key_le_dec nf x y : Decision (key_le nf x y).
Proof. destruct x, y; simpl; apply _. Defined.

Definition order_le (nulls_first : bool) (c : string)
  : relation (Z * row) :=
  λ x y, key_le nulls_first (int_key (cell x.2 c)) (int_key (cell y.2 c)).

#[global] Instance order_le_dec nf c x y : Decision (order_le nf c x y).
Proof. unfold order_le. apply _. Defined.

(** [SELECT * FROM t WHERE c = v] *)
Definition select_where (db : database) (t c : string) (v : Z)
  : list (Z * row) :=
  filter (λ kv, cell kv.2 c = VInt v) (map_to_list (rows db t)).

(** The column of the target table that holds the reference to the
    parent: the one named by [foreign_keys], or else the target's foreign
    key to the parent's table. *)
Definition relationship_fk (parent target : model) (r : relationship)
  : option string :=
  match r_foreign_keys r with
  | Some (cls, c) =>
      if String.eqb cls (m_class target) then Some c else None
  | None =>
      c_name <$>
        List.find (λ c, match c_foreign_key c with
                        | Some f => String.eqb (fk_table f)
                                               (m_tablename parent)
                        | None => false
                        end) (m_columns target)
  end.

Definition load_collection (nulls_first : bool) (sch : list model)
    (db : database) (parent : model) (rel : string) (parent_id : Z)
  : option (list (Z * row)) :=
  r ← find_relationship parent rel;
  target ← find_class sch (r_target r);
  c ← relationship_fk parent target r;
  let l := select_where db (m_tablename target) c parent_id in
  Some (match r_order_by r with
        | Some (_, c') => merge_sort (order_le nulls_first c') l
        | None => l
        end).

(** *** Deleting an instance through the session *)

(** [cascade] holds [delete], alone or as part of [all]. *)
Definition cascades_delete (r : relationship) : bool :=
  existsb (λ s, String.eqb s "all" || String.eqb s "delete") (r_cascade r).

(** The rows the unit of work deletes itself when the instance of
    [parent] with key [id] is deleted: the members of each collection
    with delete cascade. With [passive_deletes=True] a collection that is
    not loaded in the session is not loaded for the delete either, and
    its rows are left to the database; [loaded] tells which collections
    of the instance are loaded. *)
Definition orm_cascade (sch : list model) (parent : model)
    (loaded : string → bool) (id : Z) (db : database)
  : list (string * gset Z) :=
  r ← m_relationships parent;
  if cascades_delete r && (loaded (r_name r) || negb (r_passive_deletes r))
  then
    match find_class sch (r_target r) with
    | Some target =>
        match relationship_fk parent target r with
        | Some c =>
            [(m_tablename target,
              referrers {[id]} c (rows db (m_tablename target)))]
        | None => []
        end
    | None => []
    end
  else [].

Definition delete_step (fuel : nat) (fk : bool) (sch : list model)
    (acc : option (dberror + database)) (ch : string * gset Z)
  : option (dberror + database) :=
  match acc with
  | Some (inr db) => delete_rows fuel fk sch ch.1 ch.2 db
  | _ => acc
  end.

(** [session.delete(obj); session.commit()] for the instance of table [t]
    with key [id]: the DELETE statements of the rows the unit of work
    cascades to, then that of the row itself; nothing is deleted for a
    key that is not stored. A chain of referential actions visits each
    table at most once when the cascading references are acyclic, so one
    unit of fuel per table, and one for the delete itself, covers it. The
    targets of the delete cascades of models.py, [Asset] and [ShareLink],
    have no delete cascade of their own. *)
Definition delete_row (fk : bool) (sch : list model)
    (loaded : string → bool) (t : string) (id : Z) (db : database)
  : option (dberror + database) :=
  match find_table sch t with
  | None => Some (inl (NoSuchTable t))
  | Some m =>
      if bool_decide (is_Some (rows db t !! id))
      then foldl (delete_step (S (length sch)) fk sch) (Some (inr db))
                 (orm_cascade sch m loaded id db ++ [(t, {[id]})])
      else Some (inr db)
  end.

End Engine.

(* ===================================================================== *)
(** ** The store of models.py                                             *)
(* ===================================================================== *)

Module Store.
Import Schema Engine.

(** The engine of the app/db/engine.py template: no connect event runs
    [PRAGMA foreign_keys = ON], so foreign keys are not enforced. *)
Definition engine_foreign_keys : bool := false.

(** An instance none of whose collections is loaded, and one with all of
    them loaded. *)
Definition not_loaded : string → bool := λ _, false.
Definition all_loaded : string → bool := λ _, true.

Definition insert (fk : bool) (now : Z) (t : string) (key : option Z)
    (r : row) (db : database) : dberror + (Z * database) :=
  insert_row fk Models.metadata now t key r db.

Definition delete (fk : bool) (loaded : string → bool) (t : string)
    (id : Z) (db : database) : option (dberror + database) :=
  delete_row fk Models.metadata loaded t id db.

(** [album.assets] and [album.shares] for the album with key [id]. *)
Definition Album_assets (nulls_first : bool) (db : database) (id : Z)
  : option (list (Z * row)) :=
  load_collection nulls_first Models.metadata db Models.Album "assets" id.


(** Column [c] of row [r] names no stored row of table [target]. *)
Definition dangling (db : database) (target : string) (r : row)
    (c : string) : Prop :=
  cell r c ≠ Null
  ∧ ∀ i, cell r c = VInt i → rows db target !! i = None.

#[global] Instance dangling_dec db target r c :
  Decision (dangling db target r c).
Proof.
  unfold dangling. destruct (cell r c) as [| i | s | b | z].
  - right. by intros [? _].
  - destruct (rows db target !! i) as [r' |] eqn:E.
    + right. intros [_ H]. specialize (H i eq_refl). congruence.
    + left. split; [done |]. by intros ? [= <-].
  - left. split; [done |]. by intros ? [=].
  - left. split; [done |]. by intros ? [=].
  - left. split; [done |]. by intros ? [=].
Defined.

(** The FOREIGN KEY check of column [c], which references [target]. *)
Definition check_reference (fk : bool) (t c target : string)
    (db : database) (r : row) : option dberror :=
  if fk && bool_decide (dangling db target r c)
  then Some (IntegrityError ForeignKeyConstraint t c)
  else None.

(** The cell of column [c] in the row of table [t] with key [i]. *)
Definition cell_at (db : database) (t : string) (i : Z) (c : string)
  : option sqlval :=
  (λ r, cell r c) <$> rows db t !! i.

(** Several inserts in a row, each with a key the engine assigns,
    stopping at the first one rejected. *)
Definition insert_all (fk : bool) (now : Z) (l : list (string * row))
    (db : database) : dberror + database :=
  foldl (λ acc tr,
           match acc with
           | inr db0 =>
               match insert fk now tr.1 None tr.2 db0 with
               | inr (_, db1) => inr db1
               | inl e => inl e
               end
           | inl e => inl e
           end) (inr db) l.

Definition sort_orders (l : list (Z * row)) : list sqlval :=
  (λ kv, cell kv.2 "sort_order") <$> l.

(** The keys of a listing, each with its sort order. *)
Definition keyed_sort_orders (l : list (Z * row)) : list (Z * sqlval) :=
  (λ kv, (kv.1, cell kv.2 "sort_order")) <$> l.

(** The integer sort keys of a listing, rows without one left out. *)
Definition int_keys (c : string) (l : list (Z * row)) : list Z :=
  omap (λ kv, int_key (cell kv.2 c)) l.

(** Any two distinct share links have different slugs. *)
Definition slugs_distinct (db : database) : Prop :=
  ∀ i j ri rj,
    rows db "share_links" !! i = Some ri →
    rows db "share_links" !! j = Some rj →
    i ≠ j → cell ri "slug" ≠ cell rj "slug".

(** Any two distinct share links that have a slug have different slugs. *)
Definition slugs_unique (db : database) : Prop :=
  ∀ i j ri rj,
    rows db "share_links" !! i = Some ri →
    rows db "share_links" !! j = Some rj →
    i ≠ j → cell ri "slug" ≠ Null → cell ri "slug" ≠ cell rj "slug".

(** Creating an asset without an album is a NOT NULL violation. *)
Definition album_id_required (fk : bool) : Prop :=
  ∀ now key (r : row) db,
    cell r "album_id" = Null →
    insert fk now "assets" key r db
    = inl (IntegrityError NotNull "assets" "album_id").



(** Asset [r] belongs to album [a]: it references it, and it is stored. *)
Definition belongs_to (db : database) (r : row) (a : Z) : Prop :=
  cell r "album_id" = VInt a ∧ is_Some (rows db "albums" !! a).

(** Every stored asset has no album or an album that is stored. *)
Definition asset_refs_ok (db : database) : Prop :=
  ∀ i r,
    rows db "assets" !! i = Some r →
    cell r "album_id" = Null
    ∨ ∃ a, cell r "album_id" = VInt a ∧ is_Some (rows db "albums" !! a).

(** The stores that inserts and deletes build from the empty one. *)
Inductive reachable (fk : bool) : database → Prop :=
| reach_empty : reachable fk ∅
| reach_insert now t key r db id db' :
    reachable fk db → insert fk now t key r db = inr (id, db') →
    reachable fk db'
| reach_delete loaded t id db db' :
    reachable fk db → delete fk loaded t id db = Some (inr db') →
    reachable fk db'.

End Store.

(* ===================================================================== *)
(** ** Sample instances and stores                                        *)
(* ===================================================================== *)

Module Samples.
Import Py Engine Store.

(** An asset that already went through the pipeline once. *)
Definition stale_asset : instance :=
  {[ "id" := PyInt 7; "album_id" := PyInt 1; "filename" := PyStr "p.jpg";
     "width" := PyInt 10; "height" := PyInt 20;
     "jpg_480" := PyStr "old-480.jpg"; "jpg_960" := PyStr "old-960.jpg";
     "avif_1920" := PyStr "old-1920.avif" ]}.

(** [{width: 800, height: 600, jpg: {480: "x.jpg"}}] *)
Definition trip_variants : gmap pykey pyval :=
  {[ KStr "width" := PyInt 800; KStr "height" := PyInt 600;
     KStr "jpg" := PyDict {[ KInt 480 := PyStr "x.jpg" ]} ]}.

(** [{jpg: {480: "a"}}] and [{webp: {960: "b"}}] *)
Definition jpg_a : gmap pykey pyval :=
  {[ KStr "jpg" := PyDict {[ KInt 480 := PyStr "a" ]} ]}.
Definition webp_b : gmap pykey pyval :=
  {[ KStr "webp" := PyDict {[ KInt 960 := PyStr "b" ]} ]}.

(** [{jpg: {480: "a"}, webp: None}] *)
Definition jpg_a_webp_none : gmap pykey pyval :=
  <[ KStr "webp" := PyNone ]> jpg_a.

Definition asset_row (album sort_order : Z) : row :=
  {[ "album_id" := VInt album; "sort_order" := VInt sort_order;
     "filename" := VText "p.jpg"; "original_name" := VText "p.jpg" ]}.

(** An asset created without an album. *)
Definition orphan_asset : row :=
  {[ "filename" := VText "p.jpg"; "original_name" := VText "p.jpg" ]}.

Definition accepted (r : dberror + database) : bool :=
  match r with
  | inr _ => true
  | inl _ => false
  end.

Definition stored (r : dberror + database) : database :=
  match r with
  | inr db => db
  | inl _ => ∅
  end.

(** Album "Trip" with three assets inserted in the order 3, 1, 2. *)
Definition trip_rows : list (string * row) :=
  [ ("albums", {[ "title" := VText "Trip" ]});
    ("assets", asset_row 1 3);
    ("assets", asset_row 1 1);
    ("assets", asset_row 1 2) ].

Definition trip : database :=
  stored (insert_all engine_foreign_keys 0 trip_rows ∅).

(** Albums "Trip" and "Home" with their assets inserted in turn, those of
    "Trip" in the order 3, 1, 2, and an asset of no album. *)
Definition two_albums_rows : list (string * row) :=
  [ ("albums", {[ "title" := VText "Trip" ]});
    ("albums", {[ "title" := VText "Home" ]});
    ("assets", asset_row 1 3);
    ("assets", asset_row 2 5);
    ("assets", asset_row 1 1);
    ("assets", asset_row 2 0);
    ("assets", asset_row 1 2);
    ("assets", <[ "sort_order" := VInt 4 ]> orphan_asset) ].

Definition two_albums : database :=
  stored (insert_all engine_foreign_keys 0 two_albums_rows ∅).

(** Two share links created without a slug. *)
Definition unnamed_links : database :=
  stored (insert_all engine_foreign_keys 0
            [("share_links", ∅); ("share_links", ∅)] ∅).

(** Album "Trip" with one share link ["s3cr3t"] and an asset. *)
Definition shared_rows : list (string * row) :=
  [ ("albums", {[ "title" := VText "Trip" ]});
    ("share_links", {[ "album_id" := VInt 1; "slug" := VText "s3cr3t" ]});
    ("assets", asset_row 1 1) ].

Definition shared : database :=
  stored (insert_all engine_foreign_keys 0 shared_rows ∅).

(** The same rows stored by an engine that enforces foreign keys. *)
Definition shared_enforced : database :=
  stored (insert_all true 0 shared_rows ∅).




End Samples.

Module MoreSamples.
Import Py Engine Store Samples.

(** [{width: 5, jpg: {480: "a"}, webp: "oops"}]: the webp entry is not a
    dict. *)
Definition webp_oops : gmap pykey pyval :=
  {[ KStr "width" := PyInt 5;
     KStr "jpg" := PyDict {[ KInt 480 := PyStr "a" ]};
     KStr "webp" := PyStr "oops" ]}.

End MoreSamples.

(* ===================================================================== *)
(** ** More invariants of the store                                       *)
(* ===================================================================== *)

Module StoreMore.
Import Schema Engine Store.

(** Every stored share link has no album or an album that is stored. *)
Definition share_refs_ok (db : database) : Prop :=
  ∀ i r,
    rows db "share_links" !! i = Some r →
    cell r "album_id" = Null
    ∨ ∃ a, cell r "album_id" = VInt a ∧ is_Some (rows db "albums" !! a).

(** Every stored album has no cover or a cover that is a stored asset. *)
Definition cover_refs_ok (db : database) : Prop :=
  ∀ i r,
    rows db "albums" !! i = Some r →
    cell r "cover_asset_id" = Null
    ∨ ∃ x, cell r "cover_asset_id" = VInt x
           ∧ is_Some (rows db "assets" !! x).

(** Referential integrity: no reference of the schema dangles. *)
Definition refs_ok (db : database) : Prop :=
  share_refs_ok db ∧ asset_refs_ok db ∧ cover_refs_ok db.


(** The tables of models.py. *)
Definition table_names : list string := m_tablename <$> Models.metadata.

End StoreMore.


(* ===================================================================== *)
(** ** Settings profiles (the scaffold's app/core/config)                 *)
(* ===================================================================== *)

(** bootstrap_scaffold.py carries the configuration package as file
    templates (lines 16-45); server.py loads it through [_load_settings]. *)

Module Config.

(** [class Settings(BaseModel)], base.py. *)
Record Settings := MkSettings {
  PROJECT_NAME : string;
  DEBUG : bool;
  API_PREFIX : string;
  SECRET_KEY : string;
  ALLOWED_ORIGINS : list string;
  TRUSTED_HOSTS : list string;
  SESSION_COOKIE_NAME : string;
  ENABLE_SESSIONS : bool;
  STATIC_DIR : string;
  TEMPLATES_DIR : string
}.

(** [os.environ] and [os.getenv(key, default)]. *)
Abbreviation environ := (gmap string string).

Definition getenv (env : environ) (key default_ : string) : string :=
  default default_ (env !! key).

(** [str.lower] on the ASCII letters. The result is only compared with
    the ASCII profile names below; a character outside ASCII never lowers
    to a letter of those names, so it keeps such a comparison false either
    way. *)
Definition lower_ascii (c : ascii) : ascii :=
  let n := nat_of_ascii c in
  if (65 <=? n)%nat && (n <=? 90)%nat then ascii_of_nat (n + 32) else c.

Fixpoint lower (s : string) : string :=
  match s with
  | EmptyString => EmptyString
  | String c s' => String (lower_ascii c) (lower s')
  end.

(** [Settings()] of base.py: every field at its default; the default of
    [SECRET_KEY] is read from the environment. *)
Definition base_settings (env : environ) : Settings :=
  MkSettings "Dich Foto" false "/api" (getenv env "SECRET_KEY" "change-me")
             ["*"] ["*"] "sessionid" true "app/web/static"
             "app/web/templates".

(** [Settings()] of local.py: [DEBUG = True] over the base. *)
Definition local_settings (env : environ) : Settings :=
  let b := base_settings env in
  MkSettings (PROJECT_NAME b) true (API_PREFIX b) (SECRET_KEY b)
             (ALLOWED_ORIGINS b) (TRUSTED_HOSTS b) (SESSION_COOKIE_NAME b)
             (ENABLE_SESSIONS b) (STATIC_DIR b) (TEMPLATES_DIR b).

(** [Settings()] of server.py (the profile): explicit origins and hosts. *)
Definition server_settings (env : environ) : Settings :=
  let b := base_settings env in
  MkSettings (PROJECT_NAME b) false (API_PREFIX b) (SECRET_KEY b)
             ["https://dichfoto.com"; "https://upload.dichfoto.com"]
             ["dichfoto.com"; "upload.dichfoto.com"; "localhost"]
             (SESSION_COOKIE_NAME b) (ENABLE_SESSIONS b) (STATIC_DIR b)
             (TEMPLATES_DIR b).

Definition server_names : list string := ["server"; "prod"; "production"].
Definition local_names : list string := ["local"; "dev"; "development"].

(** [get_settings()], base.py. *)
Definition get_settings (env : environ) : Settings :=
  let e := lower (getenv env "ENV" "local") in
  if bool_decide (e ∈ server_names) then server_settings env
  else if bool_decide (e ∈ local_names) then local_settings env
  else base_settings env.

End Config.

(* ===================================================================== *)
(** ** The application factory (app/server.py)                            *)
(* ===================================================================== *)

Module Server.
Import Config.

Inductive middleware :=
| CORSMiddleware (allow_origins : list string) (allow_credentials : bool)
    (allow_methods allow_headers : list string)
| GZipMiddleware (minimum_size : Z)
| SessionMiddleware (secret_key session_cookie : string)
| TrustedHostMiddleware (allowed_hosts : list string).

(** What [create_app] hands to the framework: the constructor arguments,
    and the arguments of its [add_middleware], [mount], [include_router]
    and route decorator calls, each in the order of the calls. *)
Record App := MkApp {
  title : string;
  debug : bool;
  docs_url : option string;
  redoc_url : option string;
  openapi_url : string;
  add_middleware_calls : list middleware;
  mounts : list (string * string * string);
  templates_directory : string;
  routers : list (string * string * list string);
  routes : list (string * string)
}.

(** [create_app()], server.py lines 29-89. A [Settings] object has every
    field, so the defaults of the [getattr] calls are never used. *)
Definition create_app (settings : Settings) : App :=
  let trusted := TRUSTED_HOSTS settings in
  let api_prefix := API_PREFIX settings in
  MkApp
    (PROJECT_NAME settings)
    (DEBUG settings)
    (if DEBUG settings then Some "/docs" else None)
    (if DEBUG settings then Some "/redoc" else None)
    (API_PREFIX settings +:+ "/openapi.json")
    ([ CORSMiddleware (ALLOWED_ORIGINS settings) true ["*"] ["*"];
       GZipMiddleware 1024 ]
     ++ (if ENABLE_SESSIONS settings
         then [SessionMiddleware (SECRET_KEY settings)
                 (SESSION_COOKIE_NAME settings)]
         else [])
     ++ (if negb (bool_decide (trusted = []))
            && negb (bool_decide (trusted = ["*"]))
         then [TrustedHostMiddleware trusted]
         else []))%list
    [("/static", STATIC_DIR settings, "static")]
    (TEMPLATES_DIR settings)
    [("public", api_prefix, ["public"]);
     ("likes", api_prefix, ["likes"]);
     ("admin", api_prefix, ["admin"])]
    [("GET", "/healthz"); ("HEAD", "/healthz"); ("GET", "/")].

(** [app = create_app()] with [settings = _load_settings()]. *)
Definition app (env : environ) : App := create_app (get_settings env).

Inductive response :=
| JSONResponse (content : list (string * string)) (status_code : Z)
| HTMLResponse (content : string) (status_code : Z).

Definition is_json (r : response) : bool :=
  match r with
  | JSONResponse _ _ => true
  | HTMLResponse _ _ => false
  end.

Definition status_of (r : response) : Z :=
  match r with
  | JSONResponse _ s => s
  | HTMLResponse _ s => s
  end.

(** [http_exception_handler], server.py lines 83-87: [path] is
    [str(request.url.path)], [detail] and [status_code] are the
    exception's. The JSON body is given as its key-value pairs, the status
    code in decimal. *)
Definition http_exception_handler (api_prefix path detail : string)
    (status_code : Z) : response :=
  if String.prefix api_prefix path
  then JSONResponse [("detail", detail); ("status_code", pretty status_code)]
                    status_code
  else HTMLResponse ("<h3>" +:+ pretty status_code +:+ "</h3><p>" +:+ detail
                     +:+ "</p>") status_code.

End Server.

(* ===================================================================== *)
(** ** The scaffold script (bootstrap_scaffold.py)                        *)
(* ===================================================================== *)

(** [main] works on the directory tree below [ROOT = Path.cwd()]. The
    tree is a map from paths, as lists of components below [ROOT], to
    nodes; a file holds the text its bytes decode to as UTF-8, or none
    when they do not decode. Every node is taken to be readable and
    writable by the process. The messages [main] prints at the end are
    left out: they do not touch the tree. *)

Module Scaffold.

Abbreviation path := (list string).

(** A Python [str]: its code points. *)
Abbreviation text := (list N).

Inductive node :=
| Dir (mode : N)
| File (mode : N) (data : option text).

Abbreviation fs := (gmap path node).

Inductive oserror :=
| FileExistsError (p : path)
| NotADirectoryError (p : path)
| IsADirectoryError (p : path)
| FileNotFoundError (p : path)
| UnicodeDecodeError (p : path).

(** *** Text *)

(** The code points [str.strip()] removes: those [str.isspace] holds of. *)
Definition isspace (c : N) : bool :=
  ((9 <=? c) && (c <=? 13) || (28 <=? c) && (c <=? 32)
   || (c =? 133) || (c =? 160) || (c =? 5760)
   || (8192 <=? c) && (c <=? 8202)
   || (c =? 8232) || (c =? 8233) || (c =? 8239) || (c =? 8287)
   || (c =? 12288))%N.

Fixpoint lstrip (t : text) : text :=
  match t with
  | [] => []
  | c :: t' => if isspace c then lstrip t' else t
  end.

Definition rstrip (t : text) : text := reverse (lstrip (reverse t)).

(** [t.strip()] *)
Definition strip (t : text) : text := rstrip (lstrip t).

(** [bool(t)] *)
Definition nonempty (t : text) : bool :=
  match t with
  | [] => false
  | _ :: _ => true
  end.

(** *** Paths *)

Fixpoint split_on (sep : ascii) (s acc : string) : list string :=
  match s with
  | EmptyString => [acc]
  | String c s' =>
      if Ascii.eqb c sep then acc :: split_on sep s' EmptyString
      else split_on sep s' (acc +:+ String c EmptyString)
  end.

(** [ROOT / rel] for a relative [rel]: its components, empty ones and
    ["."] dropped. *)
Definition to_path (rel : string) : path :=
  filter (λ c, c ≠ "" ∧ c ≠ ".") (split_on "/" rel "").

(** [p.parent] *)
Definition parent (p : path) : path := take (length p - 1) p.

(** *** The tree *)

(** [ROOT] itself is a directory and is not stored. *)
Definition is_dir (s : fs) (p : path) : bool :=
  match p with
  | [] => true
  | _ =>
      match s !! p with
      | Some (Dir _) => true
      | _ => false
      end
  end.

(** [p.exists()] *)
Definition exists_ (s : fs) (p : path) : bool :=
  match p with
  | [] => true
  | _ => bool_decide (is_Some (s !! p))
  end.

(** A tree: nothing is stored at [ROOT], and whatever is stored lies in
    a directory. *)
Definition wf (s : fs) : Prop :=
  s !! [] = None
  ∧ ∀ (q : path) c n, s !! (q ++ [c])%list = Some n → is_dir s q = true.

(** *** State and exception monad over the tree *)

Definition FS (A : Type) : Type := fs → fs * (oserror + A).

Definition fs_ret {A} (x : A) : FS A := λ s, (s, inr x).

Definition fs_bind {A B} (m : FS A) (k : A → FS B) : FS B :=
  λ s,
    match m s with
    | (s', inr x) => k x s'
    | (s', inl e) => (s', inl e)
    end.

#[global] Instance FS_ret : MRet FS := @fs_ret.
#[global] Instance FS_bind : MBind FS := λ A B k m, fs_bind m k.

Definition fs_raise {A} (e : oserror) : FS A := λ s, (s, inl e).
Definition fs_get : FS fs := λ s, (s, inr s).

Fixpoint fs_for_each {A} (l : list A) (body : A → FS unit) : FS unit :=
  match l with
  | [] => mret tt
  | x :: l' => body x ;; fs_for_each l' body
  end.

Section Os.

(** The modes new directories and new files get (from the umask). *)
Variable new_dir_mode : N.
Variable new_file_mode : N.

(** [target.mkdir(parents=True, exist_ok=True)], walking [rest] below
    [base]: a missing component is created, a directory is entered, and a
    file in the way is an error, [FileExistsError] at the target itself
    and [NotADirectoryError] above it. *)
Fixpoint mkdir_from (target base rest : path) : FS unit :=
  match rest with
  | [] => mret tt
  | c :: rest' =>
      let q := (base ++ [c])%list in
      s ← fs_get;
      match s !! q with
      | Some (Dir _) => mkdir_from target q rest'
      | Some (File _ _) =>
          fs_raise (match rest' with
                    | [] => FileExistsError target
                    | _ => NotADirectoryError target
                    end)
      | None => (λ s, (<[q := Dir new_dir_mode]> s, inr tt)) ;;
                mkdir_from target q rest'
      end
  end.

Definition mkdir_p (p : path) : FS unit := mkdir_from p [] p.

(** [p.read_text(encoding="utf-8")] *)
Definition read_text (s : fs) (p : path) : oserror + text :=
  match p with
  | [] => inl (IsADirectoryError p)
  | _ =>
      match s !! p with
      | None => inl (FileNotFoundError p)
      | Some (Dir _) => inl (IsADirectoryError p)
      | Some (File _ None) => inl (UnicodeDecodeError p)
      | Some (File _ (Some t)) => inr t
      end
  end.

(** [p.write_text(content, encoding="utf-8")]: an existing file is
    truncated and keeps its mode, a missing one is created in its
    directory. *)
Definition write_text (p : path) (content : text) : FS unit :=
  λ s,
    match p with
    | [] => (s, inl (IsADirectoryError p))
    | _ =>
        match s !! p with
        | Some (Dir _) => (s, inl (IsADirectoryError p))
        | Some (File m _) => (<[p := File m (Some content)]> s, inr tt)
        | None =>
            if is_dir s (parent p)
            then (<[p := File new_file_mode (Some content)]> s, inr tt)
            else (s, inl (FileNotFoundError p))
        end
    end.

(** [stat.S_IEXEC] *)
Definition S_IEXEC : N := 64.

(** [p.chmod(p.stat().st_mode | stat.S_IEXEC)] on a stored node. *)
Definition make_executable (p : path) : FS unit :=
  λ s,
    match s !! p with
    | Some (Dir m) => (<[p := Dir (N.lor m S_IEXEC)]> s, inr tt)
    | Some (File m d) => (<[p := File (N.lor m S_IEXEC) d]> s, inr tt)
    | None => (s, inr tt)
    end.

(** The first loop of [main] (lines 206-208). *)
Definition make_dirs (keys : list string) : FS unit :=
  fs_for_each keys (λ rel, mkdir_p (parent (to_path rel))).

(** The body of the second loop (lines 211-220): a file that exists and
    reads as text with something but white space in it is kept; any
    other, also one that cannot be read, is written. *)
Definition write_file (item : string * text) : FS unit :=
  let p := to_path item.1 in
  s ← fs_get;
  if exists_ s p then
    match read_text s p with
    | inr t => if nonempty (strip t) then mret tt
               else write_text p item.2
    | inl _ => write_text p item.2
    end
  else write_text p item.2.

Definition write_files (items : list (string * text)) : FS unit :=
  fs_for_each items write_file.

(** [main] for a given [FILES] (lines 204-225). *)
Definition run (FILES : list (string * text)) : FS unit :=
  make_dirs (FILES.*1) ;;
  write_files FILES ;;
  let script := to_path "scripts/create_admin.py" in
  s ← fs_get;
  if exists_ s script then make_executable script else mret tt.

End Os.

(** The keys of [FILES] (lines 13-202), in order. *)
Definition FILES_keys : list string :=
  [ "app/core/__init__.py";
    "app/core/config/__init__.py";
    "app/core/config/base.py";
    "app/core/config/local.py";
    "app/core/config/server.py";
    "app/core/security.py";
    "app/core/logging.py";
    "app/db/__init__.py";
    "app/db/base.py";
    "app/db/engine.py";
    "app/db/session.py";
    "app/models/__init__.py";
    "app/models/album.py";
    "app/models/asset.py";
    "app/models/share.py";
    "app/models/like.py";
    "app/api/__init__.py";
    "app/api/deps.py";
    "app/api/routers/__init__.py";
    "app/api/routers/public.py";
    "app/api/routers/admin.py";
    "app/api/routers/likes.py";
    "app/services/__init__.py";
    "app/services/gdrive.py";
    "app/services/variants.py";
    "app/services/thumbs.py";
    "app/services/zips.py";
    "app/selectors/__init__.py";
    "app/selectors/albums.py";
    "app/viewmodels/__init__.py";
    "app/viewmodels/albums.py";
    "app/web/templates/index.html";
    "app/web/static/.gitkeep";
    "app/server.py";
    "scripts/create_admin.py" ].

(** [FILES], for the template text [content k] of each key [k]. *)
Definition FILES (content : string → text) : list (string * text) :=
  (λ k, (k, content k)) <$> FILES_keys.

(** [main()] *)
Definition main (new_dir_mode new_file_mode : N) (content : string → text)
  : FS unit :=
  run new_dir_mode new_file_mode (FILES content).

(** What the second loop leaves at a key whose template is [c], given
    what was there: nothing for a directory, which stops the script. *)
Definition placed (new_file_mode : N) (c : text) (old : option node)
  : option node :=
  match old with
  | None => Some (File new_file_mode (Some c))
  | Some (File m (Some t)) =>
      if nonempty (strip t) then Some (File m (Some t))
      else Some (File m (Some c))
  | Some (File m None) => Some (File m (Some c))
  | Some (Dir _) => None
  end.

(** The directories the first loop needs: every non-empty prefix of the
    parent of a key. *)
Definition needed_dir (keys : list string) (q : path) : Prop :=
  q ≠ [] ∧ ∃ k, k ∈ keys ∧ q `prefix_of` parent (to_path k).

(** A file with something but white space in it. *)
Definition has_content (n : node) : bool :=
  match n with
  | File _ (Some t) => nonempty (strip t)
  | _ => false
  end.

Definition is_file (n : option node) : bool :=
  match n with
  | Some (File _ _) => true
  | _ => false
  end.

Definition is_dir_node (n : option node) : bool :=
  match n with
  | Some (Dir _) => true
  | _ => false
  end.

(** A node with the owner's execute bit set. *)
Definition with_exec (n : node) : node :=
  match n with
  | Dir m => Dir (N.lor m S_IEXEC)
  | File m d => File (N.lor m S_IEXEC) d
  end.

Definition script_key : string := "scripts/create_admin.py".

(** The node [main] leaves at key [k]: what the second loop placed, made
    executable when [k] is the script. *)
Definition finished (k : string) (n : option node) : option node :=
  if bool_decide (k = script_key) then with_exec <$> n else n.

(** What the proofs use of the keys of [FILES]: they name distinct paths
    below [ROOT], none of them is a directory another one lies in, and the
    script is one of them. *)
Definition keys_ok (keys : list string) : Prop :=
  NoDup (to_path <$> keys)
  ∧ Forall (λ k, to_path k ≠ []) keys
  ∧ Forall (λ k, Forall (λ k', ¬ to_path k `prefix_of` parent (to_path k'))
                        keys) keys
  ∧ script_key ∈ keys.

(** The non-empty prefixes of a path, shortest first. *)
Definition prefixes (p : path) : list path :=
  (λ n, take (S n) p) <$> seq 0 (length p).

(** The directories the first loop needs, as a list. *)
Definition needed_dirs (keys : list string) : list path :=
  remove_dups (keys ≫= λ k, prefixes (parent (to_path k))).

(** The directories the keys of [FILES] lie in. *)
Definition FILES_dirs : list path :=
  [ ["app"];
    ["app"; "core"];
    ["app"; "core"; "config"];
    ["app"; "db"];
    ["app"; "models"];
    ["app"; "api"];
    ["app"; "api"; "routers"];
    ["app"; "services"];
    ["app"; "selectors"];
    ["app"; "viewmodels"];
    ["app"; "web"];
    ["app"; "web"; "templates"];
    ["app"; "web"; "static"];
    ["scripts"] ].

End Scaffold.

(** Sample trees for the scaffold script. *)
Module ScaffoldSamples.
Import Scaffold.

(** Modes [0o755] and [0o644], as a umask of [0o022] gives them. *)
Definition dir_mode : N := 493.
Definition file_mode : N := 420.

(** A template text for every key: [#]. *)
Definition sample_content (k : string) : text := [35%N].

(** A project in which [app/server.py] was edited by hand and the script
    [scripts/create_admin.py] was left blank. *)
Definition user_tree : fs :=
  <[ ["scripts"; "create_admin.py"] := File file_mode (Some [32%N; 10%N]) ]>
    (<[ ["scripts"] := Dir dir_mode ]>
       (<[ ["app"; "server.py"] := File file_mode (Some [120%N; 10%N]) ]>
          (<[ ["app"] := Dir dir_mode ]> ∅))).

(** A project in which [app/server.py] holds bytes that are not UTF-8. *)
Definition binary_tree : fs :=
  <[ ["app"; "server.py"] := File file_mode None ]>
    (<[ ["app"] := Dir dir_mode ]> ∅).

(** A tree in which a file named [app] is in the way. *)
Definition blocked_tree : fs :=
  <[ ["app"] := File file_mode (Some []) ]> ∅.

End ScaffoldSamples.

(* ===================================================================== *)
(** ** Start-up and the index page (app/server.py)                        *)
(* ===================================================================== *)

(** [lifespan] and [root] work on the directory tree below the working
    directory of the server, which is taken to be the directory the
    scaffold script was run in. *)

Module Startup.
Import Config Server Scaffold.

(** [lifespan], server.py lines 23-27, up to its [yield]. *)
Definition lifespan (new_dir_mode : N) (settings : Settings) : FS unit :=
  mkdir_p new_dir_mode (to_path (STATIC_DIR settings)) ;;
  mkdir_p new_dir_mode (to_path (TEMPLATES_DIR settings)).

Inductive page :=
| TemplateResponse (name : string)
| Plain (r : response).

(** [root], server.py lines 76-81. *)
Definition root (settings : Settings) (s : fs) : page :=
  let index_html := (to_path (TEMPLATES_DIR settings) ++ ["index.html"])%list in
  if exists_ s index_html then TemplateResponse "index.html"
  else Plain (HTMLResponse "<h1>Server running</h1>" 200).

(** The directories [lifespan] walks in every profile. *)
Definition lifespan_dirs : list path :=
  [ ["app"];
    ["app"; "web"];
    ["app"; "web"; "static"];
    ["app"; "web"; "templates"] ].

End Startup.

(* ===================================================================== *)
(** ** The scaffolded routers (app/api/routers)                           *)
(* ===================================================================== *)

(** bootstrap_scaffold.py carries the routers as file templates (lines
    76-77). Their session is bound to the metadata of the scaffolded
    application, whose [app/models/__init__.py] imports the [Album] of
    app/models/album.py only. *)

Module Routers.
Import Schema Engine.

Definition metadata : list model := [Models.AlbumMinimal].





End Routers.


(* ===================================================================== *)
(** ** Facts about [set_variants]                                         *)
(* ===================================================================== *)

Module PyFacts.
Import Py.

(** *** Computations that only write *)

(** [set_variants] never reads the instance it mutates, and the lemmas
    below carry [write_only] through the monad. *)
Section WriteOnly.
Variable names : list string.
#[local] Abbreviation write_only := (write_only names).

Lemma write_only_ret {A} (x : A) : write_only (mret x).
Proof.
  exists ∅, (inr x). split.
  - intros n [? Hn]. by rewrite lookup_empty in Hn.
  - intros self. by rewrite (left_id_L ∅ (∪)).
Qed.

Lemma write_only_lift {A} (r : pyexn + A) : write_only (lift r).
Proof.
  exists ∅, r. split.
  - intros n [? Hn]. by rewrite lookup_empty in Hn.
  - intros self. unfold lift. by rewrite (left_id_L ∅ (∪)).
Qed.

Lemma write_only_setattr name v : name ∈ names → write_only (setattr name v).
Proof.
  intros Hin. exists {[name := v]}, (inr tt). split.
  - intros n [x Hn]. apply lookup_singleton_Some in Hn as [<- _]. done.
  - intros self. unfold setattr. by rewrite insert_union_singleton_l.
Qed.

Lemma write_only_bind {A B} (m : M A) (k : A → M B) :
  write_only m → (∀ x, write_only (k x)) → write_only (m ≫= k).
Proof.
  intros (w & r & Hw & Hm) Hk. destruct r as [e | x].
  - exists w, (inl e). split; [done |].
    intros self. unfold mbind, M_bind, bind. by rewrite Hm.
  - destruct (Hk x) as (w' & r' & Hw' & Hkx).
    exists (w' ∪ w), r'. split.
    + intros n Hn. apply lookup_union_is_Some in Hn as [?|?]; auto.
    + intros self. unfold mbind, M_bind, bind.
      by rewrite Hm, Hkx, (assoc_L (∪)).
Qed.

Lemma write_only_for_each {A} (l : list A) (body : A → M unit) :
  (∀ x, x ∈ l → write_only (body x)) → write_only (for_each l body).
Proof.
  induction l as [| x l IH]; intros Hbody; simpl.
  - apply write_only_ret.
  - apply write_only_bind.
    + apply Hbody. left.
    + intros _. apply IH. intros y Hy. apply Hbody. by right.
Qed.

(** Running a write-only computation a second time changes nothing. *)
Lemma write_only_idempotent {A} (m : M A) self :
  write_only m → m (m self).1 = m self.
Proof.
  intros (w & r & _ & Hm). rewrite !Hm. simpl.
  by rewrite (assoc_L (∪)), (idemp_L (∪)).
Qed.

(** It leaves every attribute outside [names] alone. *)
Lemma write_only_frame {A} (m : M A) self n :
  write_only m → n ∉ names → (m self).1 !! n = self !! n.
Proof.
  intros (w & r & Hw & Hm) Hn. rewrite Hm. simpl.
  apply lookup_union_r. destruct (w !! n) eqn:E; [|done].
  destruct Hn. apply Hw. by rewrite E.
Qed.
End WriteOnly.

Lemma encodings_cases ext :
  ext ∈ encodings → ext = "jpg" ∨ ext = "webp" ∨ ext = "avif".
Proof. unfold encodings. rewrite !elem_of_cons, elem_of_nil. tauto. Qed.

Lemma set_variants_body_write_only variants ext :
  ext ∈ encodings → write_only variant_attrs (set_variants_body variants ext).
Proof.
  intros [-> | [-> | ->]]%encodings_cases; unfold set_variants_body;
    repeat (first [ apply write_only_bind; [| intros ?]
                  | apply write_only_lift
                  | apply write_only_setattr; unfold variant_attrs; simpl;
                    set_solver ]).
Qed.

Lemma set_variants_write_only variants :
  write_only variant_attrs (set_variants variants).
Proof.
  unfold set_variants.
  apply write_only_bind; [apply write_only_setattr; set_solver | intros _].
  apply write_only_bind; [apply write_only_setattr; set_solver | intros _].
  apply write_only_for_each. intros ext Hext.
  by apply set_variants_body_write_only.
Qed.

(** *** The values assigned from a well-shaped input *)

Lemma encoding_ok_dict variants ext :
  encoding_ok variants ext = true →
  ∃ d, py_or (dict_get variants (KStr ext)) (PyDict ∅) = PyDict d
       ∧ ∀ bp, dict_get d (KInt bp) = supplied variants ext bp.
Proof.
  unfold encoding_ok, supplied, py_or, dict_get.
  destruct (variants !! KStr ext) as [[| b | z | s | d]|] eqn:E; simpl;
    intros H; try (apply negb_true_iff in H as ->); try (by exists ∅).
  destruct (Nat.eqb (size d) 0) eqn:Hs; simpl.
  - apply Nat.eqb_eq, map_size_empty_inv in Hs as ->. by exists ∅.
  - by exists d.
Qed.

Lemma set_variants_body_dict variants ext d self :
  py_or (dict_get variants (KStr ext)) (PyDict ∅) = PyDict d →
  set_variants_body variants ext self =
    (<[ext +:+ "_1920" := dict_get d (KInt 1920)]>
       (<[ext +:+ "_1280" := dict_get d (KInt 1280)]>
          (<[ext +:+ "_960" := dict_get d (KInt 960)]>
             (<[ext +:+ "_480" := dict_get d (KInt 480)]> self))),
     inr tt).
Proof. intros H. unfold set_variants_body. by rewrite H. Qed.

Lemma set_variants_ok variants self :
  variants_ok variants = true →
  set_variants variants self = (overwritten variants self, inr tt).
Proof.
  unfold variants_ok. simpl. rewrite !andb_true_iff.
  intros (H1 & H2 & H3 & _).
  apply encoding_ok_dict in H1 as (d1 & E1 & S1).
  apply encoding_ok_dict in H2 as (d2 & E2 & S2).
  apply encoding_ok_dict in H3 as (d3 & E3 & S3).
  unfold set_variants, for_each, mbind, M_bind, bind, setattr at 1 2.
  rewrite (set_variants_body_dict _ _ _ _ E1).
  rewrite (set_variants_body_dict _ _ _ _ E2).
  rewrite (set_variants_body_dict _ _ _ _ E3).
  rewrite !S1, !S2, !S3. reflexivity.
Qed.

Lemma overwritten_width variants self :
  getattr (overwritten variants self) "width" = dict_get variants (KStr "width").
Proof.
  unfold getattr, overwritten. simpl.
  rewrite !lookup_insert_ne by done. by rewrite lookup_insert_eq.
Qed.

Lemma overwritten_height variants self :
  getattr (overwritten variants self) "height"
  = dict_get variants (KStr "height").
Proof.
  unfold getattr, overwritten. simpl.
  rewrite !lookup_insert_ne by done. by rewrite lookup_insert_eq.
Qed.

Lemma overwritten_slots variants self :
  Forall (λ s, getattr (overwritten variants self) (variant_field s.1 s.2)
               = supplied variants s.1 s.2) variant_slots.
Proof.
  unfold getattr, overwritten. simpl.
  repeat (apply Forall_cons; split;
          [ simpl; rewrite ?lookup_insert_ne by (vm_compute; discriminate);
            rewrite lookup_insert_eq; reflexivity |]).
  apply Forall_nil_2.
Qed.

End PyFacts.

(* ===================================================================== *)
(** ** Facts about the relational engine                                  *)
(* ===================================================================== *)

Module EngineFacts.
Import Schema Engine Store.

(** *** Tables of an updated database *)

Lemma rows_insert_eq (db : database) t tb : rows (<[t := tb]> db) t = tb.
Proof. unfold rows. by rewrite lookup_insert_eq. Qed.

Lemma rows_insert_ne (db : database) t t' tb :
  t ≠ t' → rows (<[t := tb]> db) t' = rows db t'.
Proof. intros. unfold rows. by rewrite lookup_insert_ne. Qed.

Lemma rows_empty t : rows ∅ t = ∅.
Proof. unfold rows. by rewrite lookup_empty. Qed.



Ltac rows_simpl :=
  repeat (rewrite rows_insert_eq || rewrite rows_insert_ne by done).

(** *** Rows removed, referenced and nulled *)

Lemma remove_rows_lookup ids (tb : table) i :
  remove_rows ids tb !! i = if decide (i ∈ ids) then None else tb !! i.
Proof.
  unfold remove_rows. case_decide as Hi.
  - apply map_lookup_filter_None. right. intros r _. simpl. auto.
  - destruct (tb !! i) as [r|] eqn:E.
    + apply map_lookup_filter_Some. done.
    + apply map_lookup_filter_None. by left.
Qed.

Lemma remove_rows_inter ids (tb : table) :
  remove_rows (ids ∩ dom tb) tb = remove_rows ids tb.
Proof.
  apply map_eq. intros i. rewrite !remove_rows_lookup.
  destruct (tb !! i) as [r |] eqn:E.
  - repeat case_decide; try done.
    + exfalso. set_solver.
    + exfalso. apply elem_of_dom_2 in E. set_solver.
  - by repeat case_decide.
Qed.


Lemma remove_rows_empty (tb : table) : remove_rows ∅ tb = tb.
Proof.
  unfold remove_rows. apply map_filter_id. intros i r _. simpl.
  apply not_elem_of_empty.
Qed.


Lemma remove_rows_subseteq ids (tb : table) : remove_rows ids tb ⊆ tb.
Proof. apply map_filter_subseteq. Qed.

Lemma remove_rows_dom ids (tb : table) : dom (remove_rows ids tb) ⊆ dom tb.
Proof. apply subseteq_dom, remove_rows_subseteq. Qed.

Lemma refers_singleton a c r : refers {[a]} c r = true ↔ cell r c = VInt a.
Proof.
  unfold refers. destruct (cell r c); try (split; [done | congruence]).
  rewrite bool_decide_eq_true, elem_of_singleton. split; congruence.
Qed.

Lemma refers_empty c r : refers ∅ c r = false.
Proof.
  unfold refers. destruct (cell r c); try done;
    apply bool_decide_eq_false_2, not_elem_of_empty.
Qed.

Lemma elem_of_referrers ids c (tb : table) i :
  i ∈ referrers ids c tb ↔ ∃ r, tb !! i = Some r ∧ refers ids c r = true.
Proof.
  unfold referrers. rewrite elem_of_dom. unfold is_Some.
  setoid_rewrite map_lookup_filter_Some. done.
Qed.

Lemma referrers_inter_dom ids c (tb : table) :
  referrers ids c tb ∩ dom tb = referrers ids c tb.
Proof.
  apply set_eq. intros i. rewrite elem_of_intersection, elem_of_referrers.
  split; [by intros [? _] |]. intros (r & Hi & Hr). split; [eauto |].
  by apply elem_of_dom_2 in Hi.
Qed.

Lemma referrers_none a c (tb : table) :
  (∀ i r, tb !! i = Some r → cell r c ≠ VInt a) →
  referrers {[a]} c tb = ∅.
Proof.
  intros Hno. apply set_eq. intros i. rewrite elem_of_referrers.
  split; [| by intros ?%not_elem_of_empty].
  intros (r & Hi & Hr). apply refers_singleton in Hr. by destruct (Hno i r).
Qed.


(** Once the rows that reference [a] are removed, none references it. *)
Lemma referrers_removed a c (tb : table) :
  referrers {[a]} c (remove_rows (referrers {[a]} c tb) tb) = ∅.
Proof.
  apply referrers_none. intros i r. rewrite remove_rows_lookup.
  case_decide as Hi; [done |]. intros Hr Hc. apply Hi.
  apply elem_of_referrers. exists r. by rewrite refers_singleton.
Qed.

Lemma null_out_lookup ids c (tb : table) i :
  null_out ids c tb !! i
  = (λ r, if refers ids c r then <[c := Null]> r else r) <$> tb !! i.
Proof. unfold null_out. by rewrite lookup_fmap. Qed.

Lemma null_out_is_Some ids c (tb : table) i :
  is_Some (null_out ids c tb !! i) ↔ is_Some (tb !! i).
Proof. rewrite null_out_lookup. apply fmap_is_Some. Qed.

Lemma null_out_dom ids c (tb : table) : dom (null_out ids c tb) = dom tb.
Proof. unfold null_out. apply dom_fmap_L. Qed.

Lemma null_out_none ids c (tb : table) :
  (∀ i r, tb !! i = Some r → refers ids c r = false) →
  null_out ids c tb = tb.
Proof.
  intros Hno. unfold null_out. rewrite <- (map_fmap_id tb) at 2.
  apply map_fmap_ext. intros i r Hi. by rewrite (Hno i r Hi).
Qed.

Lemma null_out_empty c (tb : table) : null_out ∅ c tb = tb.
Proof. apply null_out_none. intros i r _. apply refers_empty. Qed.

Lemma null_out_remove_rows ids ids' c (tb : table) :
  remove_rows ids (null_out ids' c tb) = null_out ids' c (remove_rows ids tb).
Proof.
  apply map_eq. intros i.
  rewrite remove_rows_lookup, !null_out_lookup, remove_rows_lookup.
  by case_decide.
Qed.

(** *** The foreign keys that reference each table *)

Lemma referencing_albums :
  referencing Models.metadata "albums"
  = [("share_links", "album_id", Cascade); ("assets", "album_id", Cascade)].
Proof. reflexivity. Qed.

Lemma referencing_assets :
  referencing Models.metadata "assets" = [("albums", "cover_asset_id", SetNull)].
Proof. reflexivity. Qed.

Lemma referencing_share_links :
  referencing Models.metadata "share_links" = [].
Proof. reflexivity. Qed.

Lemma referencing_likes : referencing Models.metadata "likes" = [].
Proof. reflexivity. Qed.

(** *** What a DELETE statement does, table by table *)

Lemma delete_rows_S fuel fk sch t ids db :
  delete_rows (S fuel) fk sch t ids db
  = if fk
    then foldl (on_delete (delete_rows fuel fk sch) (ids ∩ dom (rows db t)))
               (Some (inr (<[t := remove_rows ids (rows db t)]> db)))
               (referencing sch t)
    else Some (inr (<[t := remove_rows ids (rows db t)]> db)).
Proof. cbn [delete_rows]. by rewrite remove_rows_inter. Qed.

Lemma delete_rows_share_links n fk ids db :
  delete_rows (S n) fk Models.metadata "share_links" ids db
  = Some (inr (<["share_links" := remove_rows ids (rows db "share_links")]> db)).
Proof. rewrite delete_rows_S, referencing_share_links. by destruct fk. Qed.

Lemma delete_rows_likes n fk ids db :
  delete_rows (S n) fk Models.metadata "likes" ids db
  = Some (inr (<["likes" := remove_rows ids (rows db "likes")]> db)).
Proof. rewrite delete_rows_S, referencing_likes. by destruct fk. Qed.

Lemma delete_rows_assets n fk ids db :
  delete_rows (S n) fk Models.metadata "assets" ids db
  = Some (inr
      (if fk
       then <["albums" := null_out (ids ∩ dom (rows db "assets"))
                            "cover_asset_id" (rows db "albums")]>
              (<["assets" := remove_rows ids (rows db "assets")]> db)
       else <["assets" := remove_rows ids (rows db "assets")]> db)).
Proof.
  rewrite delete_rows_S, referencing_assets. destruct fk; [| done].
  cbn [foldl on_delete]. by rewrite rows_insert_ne.
Qed.

Lemma delete_rows_albums n fk ids db :
  delete_rows (S (S n)) fk Models.metadata "albums" ids db
  = Some (inr
      (if fk
       then <["albums" :=
                null_out (referrers (ids ∩ dom (rows db "albums")) "album_id"
                            (rows db "assets"))
                  "cover_asset_id" (remove_rows ids (rows db "albums"))]>
              (<["assets" :=
                   remove_rows
                     (referrers (ids ∩ dom (rows db "albums")) "album_id"
                        (rows db "assets")) (rows db "assets")]>
                 (<["share_links" :=
                      remove_rows
                        (referrers (ids ∩ dom (rows db "albums")) "album_id"
                           (rows db "share_links"))
                        (rows db "share_links")]>
                    (<["albums" := remove_rows ids (rows db "albums")]> db)))
       else <["albums" := remove_rows ids (rows db "albums")]> db)).
Proof.
  rewrite delete_rows_S, referencing_albums.
  destruct fk; [| done].
  cbn [foldl on_delete].
  rewrite rows_insert_ne by done.
  rewrite delete_rows_share_links, delete_rows_assets.
  rows_simpl. by rewrite referrers_inter_dom.
Qed.

(** *** What deleting an instance does *)

Lemma table_cases t :
  t = "albums" ∨ t = "share_links" ∨ t = "assets" ∨ t = "likes"
  ∨ find_table Models.metadata t = None.
Proof.
  unfold find_table, Models.metadata. cbn -[String.eqb].
  destruct (String.eqb_spec "albums" t); [auto |].
  destruct (String.eqb_spec "share_links" t); [auto |].
  destruct (String.eqb_spec "assets" t); [auto |].
  destruct (String.eqb_spec "likes" t); auto 10.
Qed.

Lemma find_table_elem_of sch t m :
  find_table sch t = Some m → m ∈ sch ∧ m_tablename m = t.
Proof.
  unfold find_table. intros H. apply List.find_some in H as [Hin Heq].
  split; [by apply list_elem_of_In |]. by apply String.eqb_eq.
Qed.

Lemma orm_cascade_albums loaded a db :
  orm_cascade Models.metadata Models.Album loaded a db
  = ((if loaded "assets"
      then [("assets", referrers {[a]} "album_id" (rows db "assets"))]
      else [])
     ++ (if loaded "shares"
         then [("share_links",
                referrers {[a]} "album_id" (rows db "share_links"))]
         else []))%list.
Proof.
  unfold orm_cascade. cbn -[referrers rows].
  by destruct (loaded "assets"), (loaded "shares").
Qed.

Lemma singleton_inter_dom (tb : table) a :
  is_Some (tb !! a) → ({[a]} : gset Z) ∩ dom tb = {[a]}.
Proof. intros H%elem_of_dom. set_solver. Qed.

Lemma delete_missing fk loaded t id db :
  is_Some (find_table Models.metadata t) → rows db t !! id = None →
  delete fk loaded t id db = Some (inr db).
Proof.
  intros [m Hm] Hno. unfold delete, delete_row. rewrite Hm.
  rewrite bool_decide_eq_false_2; [done |]. rewrite Hno. by intros [? ?].
Qed.

Lemma delete_unknown fk loaded t id db :
  find_table Models.metadata t = None →
  delete fk loaded t id db = Some (inl (NoSuchTable t)).
Proof. intros H. unfold delete, delete_row. by rewrite H. Qed.

Lemma delete_step_ok fuel fk sch db ch :
  delete_step fuel fk sch (Some (inr db)) ch
  = delete_rows fuel fk sch ch.1 ch.2 db.
Proof. reflexivity. Qed.

Lemma delete_share_links fk loaded id db :
  is_Some (rows db "share_links" !! id) →
  delete fk loaded "share_links" id db
  = Some (inr (<["share_links" :=
                   remove_rows {[id]} (rows db "share_links")]> db)).
Proof.
  intros Hin. unfold delete, delete_row.
  change (find_table Models.metadata "share_links")
    with (Some Models.ShareLink). cbv iota beta.
  rewrite bool_decide_eq_true_2 by done.
  change (orm_cascade Models.metadata Models.ShareLink loaded id db)
    with (@nil (string * gset Z)).
  cbn [foldl app]. rewrite delete_step_ok. apply delete_rows_share_links.
Qed.

Lemma delete_likes fk loaded id db :
  is_Some (rows db "likes" !! id) →
  delete fk loaded "likes" id db
  = Some (inr (<["likes" := remove_rows {[id]} (rows db "likes")]> db)).
Proof.
  intros Hin. unfold delete, delete_row.
  change (find_table Models.metadata "likes") with (Some Models.Like).
  cbv iota beta.
  rewrite bool_decide_eq_true_2 by done.
  change (orm_cascade Models.metadata Models.Like loaded id db)
    with (@nil (string * gset Z)).
  cbn [foldl app]. rewrite delete_step_ok. apply delete_rows_likes.
Qed.

Lemma delete_assets fk loaded x db :
  is_Some (rows db "assets" !! x) →
  delete fk loaded "assets" x db
  = Some (inr
      (if fk
       then <["albums" := null_out {[x]} "cover_asset_id" (rows db "albums")]>
              (<["assets" := remove_rows {[x]} (rows db "assets")]> db)
       else <["assets" := remove_rows {[x]} (rows db "assets")]> db)).
Proof.
  intros Hin. unfold delete, delete_row.
  change (find_table Models.metadata "assets") with (Some Models.Asset).
  cbv iota beta.
  rewrite bool_decide_eq_true_2 by done.
  change (orm_cascade Models.metadata Models.Asset loaded x db)
    with (@nil (string * gset Z)).
  cbn [foldl app]. rewrite delete_step_ok. cbn [fst snd].
  rewrite delete_rows_assets. by rewrite singleton_inter_dom.
Qed.

(** Deleting a stored album, table by table: the album goes; its assets
    and share links go when foreign keys are enforced or their collection
    is loaded; the covers that were assets of the album are nulled when
    foreign keys are enforced. *)
Lemma delete_albums fk loaded a db :
  is_Some (rows db "albums" !! a) →
  ∃ db',
    delete fk loaded "albums" a db = Some (inr db')
    ∧ rows db' "albums"
      = (if fk
         then null_out (referrers {[a]} "album_id" (rows db "assets"))
                "cover_asset_id" (remove_rows {[a]} (rows db "albums"))
         else remove_rows {[a]} (rows db "albums"))
    ∧ rows db' "assets"
      = (if fk || loaded "assets"
         then remove_rows (referrers {[a]} "album_id" (rows db "assets"))
                (rows db "assets")
         else rows db "assets")
    ∧ rows db' "share_links"
      = (if fk || loaded "shares"
         then remove_rows
                (referrers {[a]} "album_id" (rows db "share_links"))
                (rows db "share_links")
         else rows db "share_links")
    ∧ ∀ t, t ≠ "albums" → t ≠ "assets" → t ≠ "share_links" →
           rows db' t = rows db t.
Proof.
  intros Hin. unfold delete, delete_row.
  change (find_table Models.metadata "albums") with (Some Models.Album).
  cbv iota beta.
  rewrite bool_decide_eq_true_2 by done.
  rewrite orm_cascade_albums.
  change (S (length Models.metadata)) with 5%nat.
  assert (∀ ids c (tb : table),
            is_Some (null_out ids c tb !! a) ↔ is_Some (tb !! a)) as Hn
    by (intros; apply null_out_is_Some).
  destruct (loaded "assets"), (loaded "shares");
    cbn [foldl app];
    repeat (rewrite delete_step_ok; cbn [fst snd];
            first [ rewrite delete_rows_assets
                  | rewrite delete_rows_share_links
                  | rewrite delete_rows_albums ]);
    destruct fk; cbn [orb];
    rows_simpl;
    repeat (rewrite singleton_inter_dom
              by (try apply Hn; exact Hin));
    repeat rewrite referrers_inter_dom;
    repeat rewrite referrers_removed;
    repeat (rewrite remove_rows_empty || rewrite null_out_empty);
    repeat rewrite null_out_remove_rows;
    (eexists; split; [reflexivity |]);
    rows_simpl;
    (split; [reflexivity |]); (split; [reflexivity |]);
    (split; [reflexivity |]);
    intros t H1 H2 H3; by rows_simpl.
Qed.

(** *** Inserts *)

Lemma cell_insert_eq (r : row) c v : cell (<[c := v]> r) c = v.
Proof. unfold cell. by rewrite lookup_insert_eq. Qed.

Lemma cell_insert_ne (r : row) c c' v :
  c ≠ c' → cell (<[c := v]> r) c' = cell r c'.
Proof. intros. unfold cell. by rewrite lookup_insert_ne. Qed.

Lemma cell_singleton c v : cell {[c := v]} c = v.
Proof. unfold cell. by rewrite lookup_singleton_eq. Qed.

(** A default only fills its own column, and only when it is NULL. *)
Lemma cell_apply_default_ne now col r c :
  c_name col ≠ c → cell (apply_default now col r) c = cell r c.
Proof.
  intros Hne. unfold apply_default.
  destruct (default_value now (c_default col)); [| done].
  case_bool_decide; [| done]. by rewrite cell_insert_ne.
Qed.

Lemma cell_apply_default_set now col r c :
  cell r c ≠ Null → cell (apply_default now col r) c = cell r c.
Proof.
  intros Hc. unfold apply_default.
  destruct (default_value now (c_default col)); [| done].
  case_bool_decide as E; [| done].
  destruct (decide (c_name col = c)) as [Heq | Hne]; [congruence |].
  by rewrite cell_insert_ne.
Qed.

Lemma foldr_max_le (k : Z) (l : list Z) x :
  x ∈ k :: l → x ≤ foldr Z.max k l.
Proof.
  induction l as [| y l IH]; simpl.
  - intros ->%list_elem_of_singleton. lia.
  - rewrite elem_of_cons, elem_of_cons. intros [-> | [-> | Hx]].
    + assert (k ≤ foldr Z.max k l) by (apply IH; left). lia.
    + lia.
    + assert (x ≤ foldr Z.max k l) by (apply IH; by right). lia.
Qed.

(** The key the engine assigns is above every key in use. *)
Lemma fresh_id_above (tb : table) i : is_Some (tb !! i) → i < fresh_id tb.
Proof.
  intros Hin. apply elem_of_dom, elem_of_elements in Hin.
  unfold fresh_id. destruct (elements (dom tb)) as [| k l].
  - by apply elem_of_nil in Hin.
  - apply foldr_max_le in Hin. lia.
Qed.

Lemma fresh_id_fresh (tb : table) : tb !! fresh_id tb = None.
Proof.
  destruct (tb !! fresh_id tb) as [r |] eqn:E; [| done].
  assert (fresh_id tb < fresh_id tb); [| lia].
  apply fresh_id_above. eauto.
Qed.

Lemma first_error_app l1 l2 :
  first_error (l1 ++ l2)
  = match first_error l1 with Some e => Some e | None => first_error l2 end.
Proof.
  induction l1 as [| [e|] l1 IH]; simpl; [done | done | apply IH].
Qed.

Lemma first_error_None l : first_error l = None ↔ Forall (λ c, c = None) l.
Proof.
  induction l as [| [e|] l IH]; simpl.
  - split; [constructor | done].
  - split; [done | by inversion 1].
  - rewrite IH. split; [by constructor | by inversion 1].
Qed.

Lemma check_key_None t pk (tb : table) key :
  check_key t pk tb key = None ↔ ∀ k, key = Some k → tb !! k = None.
Proof.
  unfold check_key. destruct key as [k |]; [| by split].
  case_bool_decide as H.
  - split; [done |]. intros Hk. rewrite (Hk k eq_refl) in H.
    by destruct H.
  - split; [| done]. intros _ ? [= <-].
    destruct (tb !! k) eqn:E; [| done]. destruct H. eauto.
Qed.

Lemma check_key_Some t pk (tb : table) key e :
  check_key t pk tb key = Some e ↔
  e = IntegrityError Unique t pk ∧ ∃ k, key = Some k ∧ is_Some (tb !! k).
Proof.
  unfold check_key. destruct key as [k |].
  - case_bool_decide as H.
    + split; [intros [= <-]; eauto | by intros [-> _]].
    + split; [done |]. intros (_ & k' & [= <-] & ?). done.
  - split; [done |]. by intros (_ & k' & ? & _).
Qed.

(** The foreign key check of a column is the check of its reference. *)
Lemma check_foreign_key_reference fk t db r c f :
  c_foreign_key c = Some f →
  check_foreign_key fk t db r c
  = check_reference fk t (c_name c) (fk_table f) db r.
Proof.
  intros Hf. unfold check_foreign_key, check_reference. rewrite Hf.
  destruct fk; [| done]. cbn [andb].
  destruct (decide (dangling db (fk_table f) r (c_name c))) as [H | H].
  - rewrite (bool_decide_eq_true_2 _ H). destruct H as [Hnn H].
    destruct (cell r (c_name c)) as [| i | s | b | z]; try done.
    by rewrite bool_decide_eq_false_2 by (rewrite (H i eq_refl); by intros [? ?]).
  - rewrite (bool_decide_eq_false_2 _ H). unfold dangling in H.
    destruct (cell r (c_name c)) as [| i | s | b | z]; [done | | | |];
      try (destruct H; split; [done | by intros ? [=]]).
    case_bool_decide as Hs; [done |]. destruct H. split; [done |].
    intros ? [= <-]. destruct (rows db _ !! i) eqn:E'; [| done].
    destruct Hs. eauto.
Qed.

Lemma check_foreign_key_none fk t db r c :
  c_foreign_key c = None → check_foreign_key fk t db r c = None.
Proof. intros Hf. unfold check_foreign_key. rewrite Hf. by destruct fk. Qed.

Lemma check_reference_None fk t c target db r :
  check_reference fk t c target db r = None ↔
  fk = false ∨ cell r c = Null
  ∨ ∃ i, cell r c = VInt i ∧ is_Some (rows db target !! i).
Proof.
  unfold check_reference. destruct fk; cbn [andb]; [| split; auto].
  destruct (decide (dangling db target r c)) as [H | H].
  - rewrite (bool_decide_eq_true_2 _ H). split; [done |].
    destruct H as [Hnn H].
    intros [? | [Hc | (i & Hc & Hs)]]; [done | done |].
    rewrite (H i Hc) in Hs. by destruct Hs.
  - rewrite (bool_decide_eq_false_2 _ H). split; [| done]. intros _. right.
    unfold dangling in H.
    destruct (cell r c) as [| i | s | b | z]; [by left | | | |];
      try (destruct H; split; [done | by intros ? [=]]).
    right. exists i. split; [done |].
    destruct (rows db target !! i) eqn:E'; [eauto |].
    destruct H. split; [done |]. by intros ? [= <-].
Qed.

Lemma check_reference_Some fk t c target db r e :
  check_reference fk t c target db r = Some e ↔
  fk = true ∧ dangling db target r c
  ∧ e = IntegrityError ForeignKeyConstraint t c.
Proof.
  unfold check_reference. destruct fk; cbn [andb];
    [| split; [done | by intros [? _]]].
  destruct (decide (dangling db target r c)) as [H | H].
  - rewrite (bool_decide_eq_true_2 _ H). split.
    + by intros [= <-].
    + by intros (_ & _ & ->).
  - rewrite (bool_decide_eq_false_2 _ H). split; [done |].
    by intros (_ & ? & _).
Qed.

(** *** The checks of an insert, table by table *)

Ltac foreign_keys :=
  repeat match goal with
         | |- context [check_foreign_key ?fk ?t ?db ?r ?c] =>
             first [ rewrite (check_foreign_key_none fk t db r c eq_refl)
                   | rewrite (check_foreign_key_reference fk t db r c _
                                eq_refl) ]
         end;
  cbn -[check_reference check_key].

Lemma check_row_album fk db key r :
  check_row fk Models.Album db key r =
  if bool_decide (cell r "title" = Null)
  then Some (IntegrityError NotNull "albums" "title")
  else match check_key "albums" "id" (rows db "albums") key with
       | Some e => Some e
       | None => check_reference fk "albums" "cover_asset_id" "assets" db r
       end.
Proof.
  unfold check_row. cbn -[check_key check_foreign_key].
  unfold check_not_null. cbn -[check_key check_foreign_key].
  case_bool_decide; [done |].
  destruct (check_key _ _ _ _); [done |].
  foreign_keys. by destruct (check_reference _ _ _ _ _ _).
Qed.

Lemma check_row_asset fk db key r :
  check_row fk Models.Asset db key r =
  if bool_decide (cell r "filename" = Null)
  then Some (IntegrityError NotNull "assets" "filename")
  else if bool_decide (cell r "original_name" = Null)
  then Some (IntegrityError NotNull "assets" "original_name")
  else match check_key "assets" "id" (rows db "assets") key with
       | Some e => Some e
       | None => check_reference fk "assets" "album_id" "albums" db r
       end.
Proof.
  unfold check_row. cbn -[check_key check_foreign_key].
  unfold check_not_null. cbn -[check_key check_foreign_key].
  repeat case_bool_decide; try done.
  destruct (check_key _ _ _ _); [done |].
  foreign_keys. by destruct (check_reference _ _ _ _ _ _).
Qed.

Lemma check_row_share_link fk db key r :
  check_row fk Models.ShareLink db key r =
  match check_key "share_links" "id" (rows db "share_links") key with
  | Some e => Some e
  | None =>
      if negb (bool_decide (cell r "slug" = Null))
         && holds (rows db "share_links") "slug" (cell r "slug")
      then Some (IntegrityError Unique "share_links" "slug")
      else check_reference fk "share_links" "album_id" "albums" db r
  end.
Proof.
  unfold check_row. cbn -[check_key check_foreign_key].
  destruct (check_key _ _ _ _); [done |].
  unfold check_unique. cbn -[check_foreign_key].
  destruct (negb _ && _); [done |].
  foreign_keys. by destruct (check_reference _ _ _ _ _ _).
Qed.

Lemma check_row_like fk db key r :
  check_row fk Models.Like db key r
  = check_key "likes" "id" (rows db "likes") key.
Proof.
  unfold check_row. cbn -[check_key check_foreign_key].
  destruct (check_key _ _ _ _); [done |].
  by foreign_keys.
Qed.

Lemma primary_key_metadata m :
  m ∈ Models.metadata → primary_key_name m = "id".
Proof.
  unfold Models.metadata. rewrite !elem_of_cons, elem_of_nil.
  intros [-> | [-> | [-> | [-> | []]]]]; reflexivity.
Qed.

Lemma insert_eq fk now t m key r db :
  find_table Models.metadata t = Some m →
  insert fk now t key r db
  = match check_row fk m db key (with_defaults now m r) with
    | Some e => inl e
    | None =>
        inr (default (fresh_id (rows db t)) key,
             <[t := <[default (fresh_id (rows db t)) key
                      := <["id" := VInt (default (fresh_id (rows db t)) key)]>
                           (with_defaults now m r)]> (rows db t)]> db)
    end.
Proof.
  intros H. unfold insert, insert_row. rewrite H.
  apply find_table_elem_of in H as [Hin _].
  by rewrite (primary_key_metadata m Hin).
Qed.

(** A row passes [check_row] exactly when it passes every check. *)
Lemma check_row_None fk m db key r :
  check_row fk m db key r = None ↔
  check_key (m_tablename m) (primary_key_name m) (rows db (m_tablename m)) key
  = None
  ∧ Forall (λ c, check_not_null (m_tablename m) r c = None
                 ∧ check_unique (m_tablename m) (rows db (m_tablename m)) r c
                   = None
                 ∧ check_foreign_key fk (m_tablename m) db r c = None)
           (m_columns m).
Proof.
  unfold check_row.
  rewrite first_error_None, !Forall_app, Forall_singleton, !Forall_fmap.
  rewrite !Forall_forall. unfold compose. naive_solver.
Qed.

Lemma insert_inv fk now t key r db id db' :
  insert fk now t key r db = inr (id, db') →
  ∃ m, find_table Models.metadata t = Some m
       ∧ check_row fk m db key (with_defaults now m r) = None
       ∧ id = default (fresh_id (rows db t)) key
       ∧ rows db t !! id = None
       ∧ db' = <[t := <[id := <["id" := VInt id]> (with_defaults now m r)]>
                        (rows db t)]> db.
Proof.
  destruct (find_table Models.metadata t) as [m|] eqn:Hm;
    [| by unfold insert, insert_row; rewrite Hm].
  rewrite (insert_eq _ _ _ m) by done.
  destruct (check_row fk m db key (with_defaults now m r)) eqn:E; [done |].
  intros [= <- <-]. exists m. split; [done |]. split; [done |].
  split; [done |]. split; [| done].
  apply check_row_None in E as [Hk _].
  apply find_table_elem_of in Hm as [_ <-].
  destruct key as [k |]; simpl.
  - by apply (proj1 (check_key_None _ _ _ _) Hk).
  - apply fresh_id_fresh.
Qed.

Lemma holds_false (tb : table) c v :
  holds tb c v = false ↔ ∀ i r, tb !! i = Some r → cell r c ≠ v.
Proof.
  unfold holds. rewrite bool_decide_eq_false. unfold map_Exists.
  split.
  - intros Hno i r Hi Hc. apply Hno. eauto.
  - intros Hall (i & r & Hi & Hc). by apply (Hall i r).
Qed.

Lemma with_defaults_share_links now r :
  with_defaults now Models.ShareLink r
  = apply_default now
      (with_default (DefaultBool true) (Column "allow_zip" Boolean))
      (apply_default now
         (with_default DefaultUtcNow (Column "created_at" DateTime)) r).
Proof. reflexivity. Qed.

Lemma with_defaults_assets now r :
  with_defaults now Models.Asset r
  = apply_default now
      (with_default (DefaultBool false) (Column "is_hidden" Boolean))
      (apply_default now
         (index (with_default DefaultUtcNow (Column "created_at" DateTime)))
         r).
Proof. reflexivity. Qed.

Lemma cell_with_defaults_share_links now r c :
  c ≠ "allow_zip" → c ≠ "created_at" →
  cell (with_defaults now Models.ShareLink r) c = cell r c.
Proof.
  intros. rewrite with_defaults_share_links.
  by rewrite !cell_apply_default_ne.
Qed.

Lemma cell_with_defaults_assets now r c :
  c ≠ "is_hidden" → c ≠ "created_at" →
  cell (with_defaults now Models.Asset r) c = cell r c.
Proof.
  intros. rewrite with_defaults_assets.
  by rewrite !cell_apply_default_ne.
Qed.

Lemma cell_with_defaults_albums now r c :
  c ≠ "created_at" → cell (with_defaults now Models.Album r) c = cell r c.
Proof.
  intros.
  change (with_defaults now Models.Album r)
    with (apply_default now
            (with_default DefaultUtcNow (Column "created_at" DateTime)) r).
  by rewrite cell_apply_default_ne.
Qed.

(** The checks do not look at the defaults that were filled in. *)
Lemma dangling_with_defaults_albums now db r :
  dangling db "assets" (with_defaults now Models.Album r) "cover_asset_id"
  ↔ dangling db "assets" r "cover_asset_id".
Proof. unfold dangling. by rewrite cell_with_defaults_albums. Qed.

Lemma dangling_with_defaults_assets now db r :
  dangling db "albums" (with_defaults now Models.Asset r) "album_id"
  ↔ dangling db "albums" r "album_id".
Proof. unfold dangling. by rewrite cell_with_defaults_assets. Qed.

Lemma dangling_with_defaults_share_links now db r :
  dangling db "albums" (with_defaults now Models.ShareLink r) "album_id"
  ↔ dangling db "albums" r "album_id".
Proof. unfold dangling. by rewrite cell_with_defaults_share_links. Qed.

(** *** Every delete, case by case *)

Lemma delete_cases fk loaded t id db db' :
  delete fk loaded t id db = Some (inr db') →
  db' = db
  ∨ (t = "albums" ∧ is_Some (rows db "albums" !! id)
     ∧ rows db' "albums"
       = (if fk
          then null_out (referrers {[id]} "album_id" (rows db "assets"))
                 "cover_asset_id" (remove_rows {[id]} (rows db "albums"))
          else remove_rows {[id]} (rows db "albums"))
     ∧ rows db' "assets"
       = (if fk || loaded "assets"
          then remove_rows (referrers {[id]} "album_id" (rows db "assets"))
                 (rows db "assets")
          else rows db "assets")
     ∧ rows db' "share_links"
       = (if fk || loaded "shares"
          then remove_rows
                 (referrers {[id]} "album_id" (rows db "share_links"))
                 (rows db "share_links")
          else rows db "share_links")
     ∧ ∀ t', t' ≠ "albums" → t' ≠ "assets" → t' ≠ "share_links" →
             rows db' t' = rows db t')
  ∨ (t = "share_links" ∧ is_Some (rows db "share_links" !! id)
     ∧ db' = <["share_links" :=
                 remove_rows {[id]} (rows db "share_links")]> db)
  ∨ (t = "assets" ∧ is_Some (rows db "assets" !! id)
     ∧ db' = (if fk
              then <["albums" := null_out {[id]} "cover_asset_id"
                                   (rows db "albums")]>
                     (<["assets" := remove_rows {[id]} (rows db "assets")]>
                        db)
              else <["assets" := remove_rows {[id]} (rows db "assets")]> db))
  ∨ (t = "likes" ∧ is_Some (rows db "likes" !! id)
     ∧ db' = <["likes" := remove_rows {[id]} (rows db "likes")]> db).
Proof.
  intros Hdel.
  destruct (rows db t !! id) as [r0 |] eqn:Hrow; cycle 1.
  { left. destruct (find_table Models.metadata t) as [m |] eqn:Hm.
    - rewrite delete_missing in Hdel by eauto. by injection Hdel.
    - by rewrite delete_unknown in Hdel. }
  assert (is_Some (rows db t !! id)) as Hin by eauto.
  right. destruct (table_cases t) as [-> | [-> | [-> | [-> | Hno]]]].
  - left. destruct (delete_albums fk loaded id db Hin) as (db1 & Hd & H).
    rewrite Hd in Hdel. injection Hdel as <-. auto.
  - right. left. rewrite delete_share_links in Hdel by done.
    injection Hdel as <-. auto.
  - right. right. left. rewrite delete_assets in Hdel by done.
    injection Hdel as <-. auto.
  - right. right. right. rewrite delete_likes in Hdel by done.
    injection Hdel as <-. auto.
  - by rewrite delete_unknown in Hdel.
Qed.

(** *** Slugs stay unique *)

Lemma delete_share_links_subseteq fk loaded t id db db' :
  delete fk loaded t id db = Some (inr db') →
  rows db' "share_links" ⊆ rows db "share_links".
Proof.
  intros [-> | [(_ & _ & _ & _ & Hs & _) | [(_ & _ & ->) | [(_ & _ & ->)
             | (_ & _ & ->)]]]]%delete_cases.
  - done.
  - rewrite Hs. destruct (fk || loaded "shares"); [| done].
    apply remove_rows_subseteq.
  - rows_simpl. apply remove_rows_subseteq.
  - destruct fk; by rows_simpl.
  - by rows_simpl.
Qed.

Lemma slugs_unique_subseteq db db' :
  rows db' "share_links" ⊆ rows db "share_links" →
  slugs_unique db → slugs_unique db'.
Proof.
  intros Hsub Hu i j ri rj Hi Hj.
  apply (Hu i j); by eapply lookup_weaken.
Qed.

(** What the UNIQUE check on [slug] lets through. *)
Lemma check_row_share_link_slug fk db key r :
  check_row fk Models.ShareLink db key r = None →
  cell r "slug" = Null
  ∨ ∀ i ri, rows db "share_links" !! i = Some ri → cell ri "slug" ≠ cell r "slug".
Proof.
  rewrite check_row_share_link.
  destruct (check_key _ _ _ _); [done |].
  destruct (decide (cell r "slug" = Null)) as [? | Hnn]; [by left | right].
  rewrite bool_decide_eq_false_2 in H by done. cbn [negb andb] in H.
  apply holds_false. by destruct (holds _ _ _).
Qed.

Lemma insert_preserves_slugs_unique fk now t key r db id db' :
  insert fk now t key r db = inr (id, db') →
  slugs_unique db → slugs_unique db'.
Proof.
  intros (m & Hm & Hc & Hid & Hfresh & ->)%insert_inv Hu.
  destruct (decide (t = "share_links")) as [-> | Hne].
  - injection Hm as <-.
    apply check_row_share_link_slug in Hc.
    rewrite cell_with_defaults_share_links in Hc by done.
    assert (cell (<["id" := VInt id]>
                    (with_defaults now Models.ShareLink r)) "slug"
            = cell r "slug") as Hslug.
    { rewrite cell_insert_ne by done.
      by rewrite cell_with_defaults_share_links. }
    assert (∀ i ri, rows db "share_links" !! i = Some ri →
                    cell ri "slug" ≠ cell r "slug" ∨ cell r "slug" = Null)
      as Hc'.
    { intros i ri Hi. destruct Hc as [? | Hc]; [by right | left].
      by apply (Hc i ri). }
    intros i j ri rj. rows_simpl.
    rewrite !lookup_insert. repeat case_decide; subst.
    + done.
    + intros [= <-] Hj _ Hnn. rewrite Hslug in *.
      destruct (Hc' j rj Hj) as [Hd | ?]; [| done]. congruence.
    + intros Hi [= <-] _ Hnn. rewrite Hslug.
      destruct (Hc' i ri Hi) as [Hd | Hd]; [done | congruence].
    + apply Hu.
  - eapply slugs_unique_subseteq; [| done]. by rows_simpl.
Qed.

Lemma reachable_slugs_unique fk db : reachable fk db → slugs_unique db.
Proof.
  induction 1 as [| now t key r db id db' _ IH Hins
                    | loaded t id db db' _ IH Hdel].
  - intros i j ri rj Hi. by rewrite rows_empty, lookup_empty in Hi.
  - by eapply insert_preserves_slugs_unique.
  - eapply slugs_unique_subseteq; [| done].
    by eapply delete_share_links_subseteq.
Qed.

(** *** Ordered collections *)

#[global] Instance key_le_total nf : Total (key_le nf).
Proof.
  intros [a|] [b|]; simpl; try tauto.
  - lia.
  - destruct nf; auto.
  - destruct nf; auto.
Qed.

#[global] Instance key_le_trans nf : Transitive (key_le nf).
Proof.
  intros [a|] [b|] [c|]; simpl; try tauto; try congruence. lia.
Qed.

#[global] Instance order_le_total nf c : Total (order_le nf c).
Proof. intros x y. apply key_le_total. Qed.

#[global] Instance order_le_trans nf c : Transitive (order_le nf c).
Proof. intros x y z. apply key_le_trans. Qed.

Lemma Album_assets_eq nf db a :
  Album_assets nf db a
  = Some (merge_sort (order_le nf "sort_order")
            (select_where db "assets" "album_id" a)).
Proof. reflexivity. Qed.


Lemma int_keys_bounded nf c x z l :
  int_key (cell x.2 c) = Some z →
  Forall (order_le nf c x) l → Forall (Z.le z) (int_keys c l).
Proof.
  intros Hx. induction 1 as [| y l Hxy _ IH]; [constructor |].
  unfold int_keys. simpl. unfold order_le in Hxy. rewrite Hx in Hxy.
  destruct (int_key (cell y.2 c)) as [w|] eqn:Hy; simpl in *.
  - constructor; [done | apply IH].
  - apply IH.
Qed.

Lemma int_keys_sorted nf c l :
  StronglySorted (order_le nf c) l → StronglySorted Z.le (int_keys c l).
Proof.
  induction 1 as [| x l _ IH Hx]; [constructor |].
  unfold int_keys. simpl.
  destruct (int_key (cell x.2 c)) as [z|] eqn:E; [| apply IH].
  constructor; [apply IH |]. by eapply int_keys_bounded.
Qed.

(** *** Selections *)

Lemma elem_of_select_where (db : database) t c a i r :
  (i, r) ∈ select_where db t c a
  ↔ rows db t !! i = Some r ∧ cell r c = VInt a.
Proof.
  unfold select_where. rewrite list_elem_of_filter, elem_of_map_to_list.
  simpl. tauto.
Qed.

Lemma select_where_NoDup (db : database) t c a :
  NoDup (select_where db t c a).*1.
Proof.
  unfold select_where.
  apply (NoDup_fmap_fst _); [| apply NoDup_filter, NoDup_map_to_list].
  intros i r1 r2 [_ H1]%list_elem_of_filter [_ H2]%list_elem_of_filter.
  apply elem_of_map_to_list in H1, H2. congruence.
Qed.




Lemma cell_at_Some db t i c v :
  cell_at db t i c = Some v → ∃ r, rows db t !! i = Some r ∧ cell r c = v.
Proof.
  unfold cell_at. intros (r & Hr & ->)%fmap_Some. by exists r.
Qed.

(** *** Sample stores *)

Lemma insert_all_reachable fk now l db db' :
  reachable fk db → insert_all fk now l db = inr db' → reachable fk db'.
Proof.
  unfold insert_all. revert db.
  induction l as [| [t r] l IH]; simpl; intros db Hr.
  - by intros [= <-].
  - destruct (insert fk now t None r db) as [e | [id db1]] eqn:E.
    + intros Hf. exfalso. revert Hf. clear.
      induction l as [| x l IH]; simpl; [done | apply IH].
    + apply IH. by eapply reach_insert.
Qed.

Lemma accepted_stored r : Samples.accepted r = true → r = inr (Samples.stored r).
Proof. by destruct r. Qed.

Lemma insert_all_stored_reachable fk now l :
  Samples.accepted (insert_all fk now l ∅) = true →
  reachable fk (Samples.stored (insert_all fk now l ∅)).
Proof.
  intros H. apply (insert_all_reachable fk now l ∅ _ (reach_empty fk)).
  by apply accepted_stored.
Qed.

Lemma insert_accepted (r : dberror + Z * database) :
  match r with inl _ => false | inr _ => true end = true →
  ∃ id db', r = inr (id, db').
Proof. destruct r as [e | [id db']]; [done | eauto]. Qed.

End EngineFacts.


(* ===================================================================== *)
(** ** [Asset.set_variants]: overwrite, idempotence, frame                *)
(* ===================================================================== *)

Module SetVariants.
Import Py PyFacts Samples.

(** The twelve variant attributes are the slots of the loop, in order. *)
Lemma variant_slots_names :
  (λ s, variant_field s.1 s.2) <$> variant_slots = drop 2 variant_attrs.
Proof. reflexivity. Qed.

(** C1. On every instance and every input whose encoding entries are
    dicts (or missing, or falsy), [set_variants] returns normally and
    leaves [width], [height] and the twelve variant attributes equal to
    what the input supplies: the value under the key, and [None] where
    the key or the whole encoding entry is missing, whatever the
    attribute held before. After [{jpg: {480: "a"}}] and then
    [{webp: {960: "b"}}], [jpg_480] is [None]. *)
Theorem set_variants_full_overwrite (self : instance)
    (variants : gmap pykey pyval) :
  variants_ok variants = true →
  outcome variants self = inr tt
  ∧ getattr (after variants self) "width" = dict_get variants (KStr "width")
  ∧ getattr (after variants self) "height" = dict_get variants (KStr "height")
  ∧ Forall (λ s, getattr (after variants self) (variant_field s.1 s.2)
                 = supplied variants s.1 s.2) variant_slots
  ∧ (variants !! KStr "width" = None →
     getattr (after variants self) "width" = PyNone)
  ∧ (variants !! KStr "height" = None →
     getattr (after variants self) "height" = PyNone)
  ∧ Forall (λ s, variants !! KStr s.1 = None
                 ∨ (∃ d, variants !! KStr s.1 = Some (PyDict d)
                         ∧ d !! KInt s.2 = None) →
                 getattr (after variants self) (variant_field s.1 s.2)
                 = PyNone) variant_slots
  ∧ getattr (after jpg_a self) "jpg_480" = PyStr "a"
  ∧ getattr (after webp_b (after jpg_a self)) "jpg_480" = PyNone.
Proof.
  intros Hok. unfold after, outcome.
  rewrite (set_variants_ok _ _ Hok). simpl fst. simpl snd.
  pose proof (overwritten_slots variants self) as Hslots.
  repeat split.
  - apply overwritten_width.
  - apply overwritten_height.
  - exact Hslots.
  - intros Hw. rewrite overwritten_width. unfold dict_get. by rewrite Hw.
  - intros Hh. rewrite overwritten_height. unfold dict_get. by rewrite Hh.
  - eapply Forall_impl; [exact Hslots |]. intros [ext bp]. simpl.
    intros -> [Hno | (d & Hd & Hbp)]; unfold supplied.
    + by rewrite Hno.
    + rewrite Hd. unfold dict_get. by rewrite Hbp.
  - rewrite (set_variants_ok jpg_a self) by reflexivity. simpl fst.
    pose proof (overwritten_slots jpg_a self) as H.
    apply Forall_cons in H as [H _]. exact H.
  - rewrite (set_variants_ok webp_b) by reflexivity. simpl fst.
    pose proof (overwritten_slots webp_b (set_variants jpg_a self).1) as H.
    apply Forall_cons in H as [H _]. exact H.
Qed.

Lemma set_variants_full_overwrite_witness :
  variants_ok trip_variants = true
  ∧ outcome trip_variants stale_asset = inr tt
  ∧ getattr (after trip_variants stale_asset) "width" = PyInt 800
  ∧ getattr (after trip_variants stale_asset) "jpg_480" = PyStr "x.jpg"
  ∧ getattr (after trip_variants stale_asset) "jpg_960" = PyNone.
Proof.
  split; [reflexivity |].
  destruct (set_variants_full_overwrite stale_asset trip_variants eq_refl)
    as (Hout & Hw & _ & Hslots & _).
  split; [exact Hout |]. split; [rewrite Hw; reflexivity |].
  apply Forall_cons in Hslots as [H480 Hslots].
  apply Forall_cons in Hslots as [H960 _].
  split; [exact H480 | exact H960].
Defined.

(** C2. [set_variants] is idempotent: a second call with the same input
    leaves the instance, and so [width], [height] and the twelve variant
    attributes, as the first call left them, and ends the same way. *)
Theorem set_variants_idempotent (self : instance)
    (variants : gmap pykey pyval) :
  after variants (after variants self) = after variants self
  ∧ outcome variants (after variants self) = outcome variants self
  ∧ Forall (λ name, getattr (after variants (after variants self)) name
                    = getattr (after variants self) name) variant_attrs.
Proof.
  pose proof (write_only_idempotent _ _ self
                (set_variants_write_only variants)) as H.
  unfold after, outcome. rewrite H.
  repeat split. apply Forall_forall. done.
Qed.

(** The columns of [Asset] that [set_variants] is not meant to assign. *)
Lemma other_columns :
  filter (λ name, name ∉ variant_attrs) (Schema.column_names Models.Asset)
  = ["id"; "album_id"; "sort_order"; "filename"; "original_name";
     "mime_type"; "size"; "lqip"; "gdrive_file_id"; "gdrive_thumb_id";
     "is_hidden"; "created_at"].
Proof. reflexivity. Qed.

(** C9. [set_variants] assigns nothing but [width], [height] and the
    twelve variant attributes: [id], [album_id], [sort_order], [filename],
    [original_name], [mime_type], [size], [lqip], [gdrive_file_id],
    [gdrive_thumb_id], [is_hidden] and [created_at] read the same before
    and after the call, for every input, also one that has keys of those
    names. *)
Theorem set_variants_frame (self : instance) (variants : gmap pykey pyval) :
  Forall (λ name, getattr (after variants self) name = getattr self name)
    ["id"; "album_id"; "sort_order"; "filename"; "original_name";
     "mime_type"; "size"; "lqip"; "gdrive_file_id"; "gdrive_thumb_id";
     "is_hidden"; "created_at"].
Proof.
  rewrite <- other_columns. apply Forall_forall. intros name Hin.
  apply list_elem_of_filter in Hin as [Hout _].
  unfold getattr, after.
  by rewrite (write_only_frame _ _ self name
                (set_variants_write_only variants) Hout).
Qed.

(** An entry mapped to [None] reads like a missing entry. *)
Lemma dict_get_insert_None (d : gmap pykey pyval) k k' :
  dict_get (<[k := PyNone]> d) k' = dict_get (delete k d) k'.
Proof.
  unfold dict_get. destruct (decide (k = k')) as [-> | Hne].
  - by rewrite lookup_insert_eq, lookup_delete_eq.
  - by rewrite lookup_insert_ne, lookup_delete_ne.
Qed.

Lemma set_variants_None_absent (variants : gmap pykey pyval) k self :
  set_variants (<[k := PyNone]> variants) self
  = set_variants (delete k variants) self.
Proof.
  unfold set_variants, for_each, set_variants_body.
  by rewrite !dict_get_insert_None.
Qed.

(** C10. An encoding key present but mapped to [None] gives the same
    result as the key missing altogether, and on a well-shaped input the
    four breakpoint attributes of that encoding end up [None]. *)
Theorem set_variants_none_encoding (self : instance)
    (variants : gmap pykey pyval) (ext : string) :
  ext ∈ encodings →
  variants_ok (<[KStr ext := PyNone]> variants) = true →
  set_variants (<[KStr ext := PyNone]> variants) self
  = set_variants (delete (KStr ext) variants) self
  ∧ Forall (λ bp, getattr (after (<[KStr ext := PyNone]> variants) self)
                          (variant_field ext bp) = PyNone) breakpoints.
Proof.
  intros Hext Hok. split; [apply set_variants_None_absent |].
  unfold after. rewrite (set_variants_ok _ _ Hok). simpl fst.
  pose proof (overwritten_slots (<[KStr ext := PyNone]> variants) self) as H.
  rewrite Forall_forall in H. apply Forall_forall. intros bp Hbp.
  assert ((ext, bp) ∈ variant_slots) as Hslot.
  { unfold variant_slots. apply list_elem_of_bind. exists ext.
    split; [| done]. apply list_elem_of_bind. exists bp.
    split; [left | done]. }
  apply H in Hslot. simpl in Hslot. rewrite Hslot.
  unfold supplied. by rewrite lookup_insert_eq.
Qed.

Lemma set_variants_none_encoding_witness :
  "webp" ∈ encodings
  ∧ variants_ok jpg_a_webp_none = true
  ∧ set_variants jpg_a_webp_none stale_asset
    = set_variants (delete (KStr "webp") jpg_a) stale_asset
  ∧ Forall (λ bp, getattr (after jpg_a_webp_none stale_asset)
                          (variant_field "webp" bp) = PyNone) breakpoints.
Proof.
  assert ("webp" ∈ encodings) as Hin by (right; left).
  split; [exact Hin |]. split; [reflexivity |].
  exact (set_variants_none_encoding stale_asset jpg_a "webp" Hin eq_refl).
Defined.

End SetVariants.

(* ===================================================================== *)
(** ** The two definitions of [Album]                                     *)
(* ===================================================================== *)

Module AlbumDefinitions.
Import Schema Models.

(** C8. The two classes mapped to table ["albums"] diverge. The one of
    album.py has the columns [id] and [title] and no relationship; the one
    of models.py has those two and [photographer], [photographer_url],
    [event_date], [created_at] and [cover_asset_id], and the relationships
    [assets] and [shares] (next to [cover_asset]). They are not equal, and
    not even their common column [title] is declared alike. *)
Theorem album_definitions_diverge :
  m_tablename AlbumMinimal = "albums"
  ∧ m_tablename Album = "albums"
  ∧ column_names AlbumMinimal = ["id"; "title"]
  ∧ relationship_names AlbumMinimal = []
  ∧ column_names Album
    = (column_names AlbumMinimal
       ++ ["photographer"; "photographer_url"; "event_date"; "created_at";
           "cover_asset_id"])%list
  ∧ relationship_names Album = ["cover_asset"; "assets"; "shares"]
  ∧ AlbumMinimal ≠ Album
  ∧ m_columns AlbumMinimal ≠ take 2 (m_columns Album)
  ∧ find_column AlbumMinimal "title" ≠ find_column Album "title".
Proof. repeat split; done. Qed.

End AlbumDefinitions.

(* ===================================================================== *)
(** ** Referential actions, uniqueness and ordering                       *)
(* ===================================================================== *)

Module Relational.
Import Schema Engine Store EngineFacts Samples.










Lemma insert_share_link_without_slug fk now key r db :
  cell r "slug" = Null →
  cell r "album_id" = Null →
  (∀ k, key = Some k → rows db "share_links" !! k = None) →
  ∃ id db', insert fk now "share_links" key r db = inr (id, db').
Proof.
  intros Hs Ha Hk. rewrite (insert_eq _ _ _ Models.ShareLink) by done.
  rewrite check_row_share_link.
  rewrite (proj2 (check_key_None _ _ _ _) Hk).
  rewrite !cell_with_defaults_share_links by done.
  rewrite bool_decide_eq_true_2 by done. cbn [negb andb].
  rewrite (proj2 (check_reference_None _ _ _ _ _ _)); [by eauto |].
  right. left. by rewrite cell_with_defaults_share_links.
Qed.

Lemma insert_duplicate_slug fk now key r db i ri :
  rows db "share_links" !! i = Some ri →
  cell r "slug" ≠ Null →
  cell ri "slug" = cell r "slug" →
  (∀ k, key = Some k → rows db "share_links" !! k = None) →
  insert fk now "share_links" key r db
  = inl (IntegrityError Unique "share_links" "slug").
Proof.
  intros Hi Hnn Heq Hk. rewrite (insert_eq _ _ _ Models.ShareLink) by done.
  rewrite check_row_share_link.
  rewrite (proj2 (check_key_None _ _ _ _) Hk).
  rewrite cell_with_defaults_share_links by done.
  rewrite bool_decide_eq_false_2 by done.
  destruct (holds _ _ _) eqn:Hh; [done |].
  rewrite holds_false in Hh. by destruct (Hh i ri).
Qed.

(** C5 fails as stated: two share links created without a slug are both
    stored, and their slugs, both NULL, do not differ. *)
Lemma unnamed_links_share_null_slug :
  reachable engine_foreign_keys unnamed_links
  ∧ (∃ r1 r2, rows unnamed_links "share_links" !! 1 = Some r1
              ∧ rows unnamed_links "share_links" !! 2 = Some r2
              ∧ cell r1 "slug" = Null ∧ cell r2 "slug" = Null)
  ∧ ¬ slugs_distinct unnamed_links.
Proof.
  assert (cell_at unnamed_links "share_links" 1 "slug" = Some Null) as H1
    by (vm_compute; reflexivity).
  assert (cell_at unnamed_links "share_links" 2 "slug" = Some Null) as H2
    by (vm_compute; reflexivity).
  apply cell_at_Some in H1 as (r1 & E1 & C1).
  apply cell_at_Some in H2 as (r2 & E2 & C2).
  split; [| split].
  - apply insert_all_stored_reachable. vm_compute. reflexivity.
  - exists r1, r2. auto.
  - intros H. apply (H 1 2 r1 r2 E1 E2); [lia | congruence].
Qed.

(** C5, amended. In every store built by inserts and deletes, on either
    engine, two distinct share links that have a slug have different
    slugs; an insert that reuses the slug of a stored share link is
    rejected with the UNIQUE integrity error of [share_links.slug]
    (unless it brings a key that is taken, which is reported first); a
    share link without a slug is not constrained. *)
Theorem share_link_slugs_unique (fk : bool) (db : database) :
  reachable fk db →
  slugs_unique db
  ∧ (∀ now key r i ri,
       rows db "share_links" !! i = Some ri →
       cell r "slug" ≠ Null →
       cell ri "slug" = cell r "slug" →
       (∀ k, key = Some k → rows db "share_links" !! k = None) →
       insert fk now "share_links" key r db
       = inl (IntegrityError Unique "share_links" "slug"))
  ∧ (∀ now key r i ri,
       rows db "share_links" !! i = Some ri →
       cell r "slug" ≠ Null →
       cell ri "slug" = cell r "slug" →
       ∃ c, insert fk now "share_links" key r db
            = inl (IntegrityError Unique "share_links" c))
  ∧ (∀ now key r,
       cell r "slug" = Null → cell r "album_id" = Null →
       (∀ k, key = Some k → rows db "share_links" !! k = None) →
       ∃ id db', insert fk now "share_links" key r db = inr (id, db')).
Proof.
  intros Hreach. split; [by eapply reachable_slugs_unique |].
  split; [| split].
  - intros now key r i ri. apply insert_duplicate_slug.
  - intros now key r i ri Hi Hnn Heq.
    destruct (check_key "share_links" "id" (rows db "share_links") key)
      as [e |] eqn:Hk.
    + exists "id". rewrite (insert_eq _ _ _ Models.ShareLink) by done.
      rewrite check_row_share_link, Hk.
      by apply check_key_Some in Hk as [-> _].
    + exists "slug". eapply insert_duplicate_slug; [done.. |].
      exact (proj1 (check_key_None _ _ _ _) Hk).
  - intros now key r. apply insert_share_link_without_slug.
Qed.

Lemma share_link_slugs_unique_witness :
  reachable engine_foreign_keys shared
  ∧ slugs_unique shared
  ∧ insert engine_foreign_keys 0 "share_links" None
      {[ "slug" := VText "s3cr3t" ]} shared
    = inl (IntegrityError Unique "share_links" "slug").
Proof.
  assert (reachable engine_foreign_keys shared) as Hreach.
  { apply insert_all_stored_reachable. vm_compute. reflexivity. }
  split; [exact Hreach |].
  destruct (share_link_slugs_unique engine_foreign_keys shared Hreach)
    as (Hu & Hdup & _).
  split; [exact Hu |].
  assert (cell_at shared "share_links" 1 "slug" = Some (VText "s3cr3t"))
    as H1 by (vm_compute; reflexivity).
  apply cell_at_Some in H1 as (ri & E & C).
  apply (Hdup 0 None _ 1 ri E).
  - rewrite cell_singleton. discriminate.
  - rewrite C. symmetry. apply cell_singleton.
  - intros k. discriminate.
Defined.

Lemma insert_asset_without_album fk now key r db :
  cell r "album_id" = Null →
  cell r "filename" ≠ Null →
  cell r "original_name" ≠ Null →
  (∀ k, key = Some k → rows db "assets" !! k = None) →
  insert fk now "assets" key r db
  = inr (default (fresh_id (rows db "assets")) key,
         <["assets" :=
             <[default (fresh_id (rows db "assets")) key
               := <["id" := VInt (default (fresh_id (rows db "assets")) key)]>
                    (with_defaults now Models.Asset r)]>
               (rows db "assets")]> db).
Proof.
  intros Ha Hf Ho Hk. rewrite (insert_eq _ _ _ Models.Asset) by done.
  rewrite check_row_asset.
  rewrite !cell_with_defaults_assets by done.
  rewrite !bool_decide_eq_false_2 by done.
  rewrite (proj2 (check_key_None _ _ _ _) Hk).
  rewrite (proj2 (check_reference_None _ _ _ _ _ _)); [done |].
  right. left. by rewrite cell_with_defaults_assets.
Qed.

(** C6 fails as stated: an asset created without an album is accepted
    and stored with a NULL [album_id], whether or not the engine enforces
    foreign keys. *)
Lemma orphan_asset_is_stored :
  cell orphan_asset "album_id" = Null
  ∧ (∃ db' r, insert engine_foreign_keys 0 "assets" None orphan_asset ∅
              = inr (1, db')
              ∧ rows db' "assets" !! 1 = Some r
              ∧ cell r "album_id" = Null)
  ∧ (∃ db' r, insert true 0 "assets" None orphan_asset ∅ = inr (1, db')
              ∧ rows db' "assets" !! 1 = Some r
              ∧ cell r "album_id" = Null)
  ∧ ¬ album_id_required engine_foreign_keys
  ∧ ¬ album_id_required true.
Proof.
  assert (∀ fk, ∃ db' r,
            insert fk 0 "assets" None orphan_asset ∅ = inr (1, db')
            ∧ rows db' "assets" !! 1 = Some r
            ∧ cell r "album_id" = Null) as Hst.
  { intros fk. rewrite insert_asset_without_album by done.
    rewrite rows_empty. do 2 eexists.
    split; [reflexivity |]. rows_simpl.
    split; [apply lookup_insert_eq |].
    rewrite cell_insert_ne by done.
    by rewrite cell_with_defaults_assets. }
  assert (∀ fk, ¬ album_id_required fk) as Hno.
  { intros fk H. specialize (H 0 None orphan_asset ∅ eq_refl).
    by rewrite insert_asset_without_album in H. }
  split; [reflexivity |]. split; [apply Hst |]. split; [apply Hst |].
  split; apply Hno.
Qed.

(** C6, amended. [Asset.album_id] is an optional reference. An insert of
    an asset without an album is never rejected for that: its NOT NULL
    violations are those of [filename] and of [original_name], in that
    order. With both of them set, and a key that is free if it brings
    one, the asset is stored with a NULL [album_id] and belongs to no
    album. A stored asset belongs to at most one album. *)
Theorem asset_album_optional (fk : bool) (now : Z) (key : option Z)
    (r : row) (db : database) :
  cell r "album_id" = Null →
  (∀ c, insert fk now "assets" key r db
        = inl (IntegrityError NotNull "assets" c)
        ↔ (c = "filename" ∧ cell r "filename" = Null)
          ∨ (c = "original_name" ∧ cell r "filename" ≠ Null
             ∧ cell r "original_name" = Null))
  ∧ insert fk now "assets" key r db
    ≠ inl (IntegrityError NotNull "assets" "album_id")
  ∧ (cell r "filename" ≠ Null → cell r "original_name" ≠ Null →
     (∀ k, key = Some k → rows db "assets" !! k = None) →
     ∃ id db' r',
       insert fk now "assets" key r db = inr (id, db')
       ∧ rows db' "assets" !! id = Some r'
       ∧ cell r' "album_id" = Null
       ∧ ∀ a, ¬ belongs_to db' r' a)
  ∧ (∀ i r' a a',
       rows db "assets" !! i = Some r' →
       belongs_to db r' a → belongs_to db r' a' → a = a').
Proof.
  intros Ha.
  assert (∀ c, insert fk now "assets" key r db
               = inl (IntegrityError NotNull "assets" c)
               ↔ (c = "filename" ∧ cell r "filename" = Null)
                 ∨ (c = "original_name" ∧ cell r "filename" ≠ Null
                    ∧ cell r "original_name" = Null)) as Hnn.
  { intros c. rewrite (insert_eq _ _ _ Models.Asset) by done.
    rewrite check_row_asset.
    rewrite !cell_with_defaults_assets by done.
    case_bool_decide as Hf.
    { split; [intros [= <-]; by left |].
      intros [[-> _] | (_ & ? & _)]; done. }
    case_bool_decide as Ho.
    { split; [intros [= <-]; by right |].
      intros [[_ ?] | (-> & _)]; done. }
    split; [| intros [[_ ?] | (_ & _ & ?)]; done].
    destruct (check_key _ _ _ _) as [e |] eqn:Hk.
    - by apply check_key_Some in Hk as [-> _].
    - destruct (check_reference _ _ _ _ _ _) as [e |] eqn:Hr; [| done].
      apply check_reference_Some in Hr as (_ & _ & ->). done. }
  split; [exact Hnn |]. split.
  { intros H. apply Hnn in H as [[? _] | [? _]]; discriminate. }
  split.
  - intros Hf Ho Hk. rewrite insert_asset_without_album by done.
    do 3 eexists. split; [reflexivity |]. rows_simpl.
    split; [apply lookup_insert_eq |].
    assert (cell (<["id" := VInt (default (fresh_id (rows db "assets")) key)]>
                    (with_defaults now Models.Asset r)) "album_id" = Null)
      as Hnull.
    { rewrite cell_insert_ne by done.
      by rewrite cell_with_defaults_assets. }
    split; [exact Hnull |]. intros a [Hb _]. congruence.
  - intros i r' a a' _ [H1 _] [H2 _]. congruence.
Qed.

Lemma asset_album_optional_witness :
  cell orphan_asset "album_id" = Null
  ∧ insert engine_foreign_keys 0 "assets" None orphan_asset trip
    ≠ inl (IntegrityError NotNull "assets" "album_id")
  ∧ ∃ id db' r',
      insert engine_foreign_keys 0 "assets" None orphan_asset trip
      = inr (id, db')
      ∧ rows db' "assets" !! id = Some r'
      ∧ cell r' "album_id" = Null
      ∧ ∀ a, ¬ belongs_to db' r' a.
Proof.
  assert (cell orphan_asset "album_id" = Null) as Ha by reflexivity.
  split; [exact Ha |].
  destruct (asset_album_optional engine_foreign_keys 0 None orphan_asset
              trip Ha) as (_ & Hne & Hst & _).
  split; [exact Hne |]. apply Hst.
  - vm_compute. discriminate.
  - vm_compute. discriminate.
  - intros k. discriminate.
Defined.

(** C7. The assets collection of an album is loaded as the assets whose
    [album_id] is the album's key, each of them once and no other row, in
    ascending [sort_order]: the listing is sorted, its integer sort orders
    ascend, and wherever the engine puts NULL, the assets of album "Trip"
    inserted with sort orders 3, 1, 2, in between those of another album,
    come back as 1, 2, 3 without the others. *)
Theorem Album_assets_ascending (nulls_first : bool) (db : database) (a : Z) :
  ∃ l,
    Album_assets nulls_first db a = Some l
    ∧ (∀ i r, (i, r) ∈ l
              ↔ rows db "assets" !! i = Some r ∧ cell r "album_id" = VInt a)
    ∧ NoDup l.*1
    ∧ l ≡ₚ select_where db "assets" "album_id" a
    ∧ StronglySorted (order_le nulls_first "sort_order") l
    ∧ StronglySorted Z.le (int_keys "sort_order" l)
    ∧ sort_orders <$> Album_assets nulls_first trip 1
      = Some [VInt 1; VInt 2; VInt 3]
    ∧ (λ i, (λ r, cell r "sort_order") <$> rows trip "assets" !! i)
        <$> [1; 2; 3]
      = [Some (VInt 3); Some (VInt 1); Some (VInt 2)]
    ∧ (λ i : Z, (cell_at two_albums "assets" i "album_id",
                 cell_at two_albums "assets" i "sort_order"))
        <$> [1; 2; 3; 4; 5; 6]
      = [ (Some (VInt 1), Some (VInt 3)); (Some (VInt 2), Some (VInt 5));
          (Some (VInt 1), Some (VInt 1)); (Some (VInt 2), Some (VInt 0));
          (Some (VInt 1), Some (VInt 2)); (Some Null, Some (VInt 4)) ]
    ∧ keyed_sort_orders <$> Album_assets nulls_first two_albums 1
      = Some [(3, VInt 1); (5, VInt 2); (1, VInt 3)]
    ∧ keyed_sort_orders <$> Album_assets nulls_first two_albums 2
      = Some [(4, VInt 0); (2, VInt 5)].
Proof.
  eexists. split; [apply Album_assets_eq |].
  assert (merge_sort (order_le nulls_first "sort_order")
            (select_where db "assets" "album_id" a)
          ≡ₚ select_where db "assets" "album_id" a) as Hp
    by apply merge_sort_Permutation.
  split.
  { intros i r. rewrite Hp. apply elem_of_select_where. }
  split.
  { rewrite Hp. apply select_where_NoDup. }
  split; [exact Hp |].
  assert (StronglySorted (order_le nulls_first "sort_order")
            (merge_sort (order_le nulls_first "sort_order")
               (select_where db "assets" "album_id" a))) as Hs
    by apply (StronglySorted_merge_sort _).
  split; [exact Hs |]. split; [by eapply int_keys_sorted |].
  split; [by destruct nulls_first; vm_compute |].
  split; [by vm_compute |].
  split; [by vm_compute |].
  split; by destruct nulls_first; vm_compute.
Qed.

(** The walk through of the specification: album "Trip" with three assets,
    then the album deleted. Where foreign keys are enforced no asset is
    left; on the engine the snapshot configures all three are. *)
Example trip_deleted :
  match delete true not_loaded "albums" 1 trip with
  | Some (inr db') => Some (map_to_list (rows db' "assets"),
                            map_to_list (rows db' "albums"))
  | _ => None
  end = Some ([], []).
Proof. vm_compute. reflexivity. Qed.

Example trip_deleted_unenforced :
  match delete engine_foreign_keys not_loaded "albums" 1 trip with
  | Some (inr db') => Some (size (rows db' "assets"),
                            size (rows db' "albums"))
  | _ => None
  end = Some (3%nat, 0%nat).
Proof. vm_compute. reflexivity. Qed.

End Relational.


Module SetVariantsMore.
Import Py PyFacts Samples MoreSamples.

Lemma encoding_bad_raises variants ext k :
  encoding_ok variants ext = false →
  py_get (py_or (dict_get variants (KStr ext)) (PyDict ∅)) k
  = inl (AttributeError "get").
Proof.
  unfold encoding_ok, py_or, dict_get.
  destruct (variants !! KStr ext) as [[| b | z | s | d]|]; simpl;
    try done; intros H; apply negb_false_iff in H; by rewrite H.
Qed.

Lemma set_variants_body_raises variants ext self :
  encoding_ok variants ext = false →
  set_variants_body variants ext self = (self, inl (AttributeError "get")).
Proof.
  intros H. unfold set_variants_body, mbind, M_bind, bind, lift.
  by rewrite (encoding_bad_raises _ _ _ H).
Qed.

Ltac attr_lookup :=
  unfold getattr; simpl;
  rewrite ?lookup_insert_ne by (vm_compute; discriminate);
  rewrite ?lookup_insert_eq; reflexivity.

Ltac attrs_lookup :=
  repeat (apply Forall_cons; split; [attr_lookup |]); apply Forall_nil_2.

Lemma variants_ok_cases variants :
  variants_ok variants
  = encoding_ok variants "jpg" && encoding_ok variants "webp"
    && encoding_ok variants "avif".
Proof. unfold variants_ok. simpl. by rewrite andb_true_r, andb_assoc. Qed.

(** X1. [set_variants] raises exactly when some encoding entry is a
    truthy value that is not a dict, and what it raises is the
    [AttributeError] of the missing [get]. *)
Theorem set_variants_raises_iff (self : instance)
    (variants : gmap pykey pyval) :
  (outcome variants self = inr tt ↔ variants_ok variants = true)
  ∧ (outcome variants self = inl (AttributeError "get")
     ↔ variants_ok variants = false).
Proof.
  destruct (variants_ok variants) eqn:Hok.
  - unfold outcome. rewrite (set_variants_ok _ _ Hok). simpl. done.
  - assert (outcome variants self = inl (AttributeError "get")) as ->;
      [| done].
    rewrite variants_ok_cases in Hok. unfold outcome, set_variants, for_each.
    unfold mbind, M_bind, bind, setattr at 1 2.
    destruct (encoding_ok variants "jpg") eqn:H1.
    2: { by rewrite set_variants_body_raises. }
    apply encoding_ok_dict in H1 as (d1 & E1 & _).
    rewrite (set_variants_body_dict _ _ _ _ E1).
    destruct (encoding_ok variants "webp") eqn:H2.
    2: { by rewrite set_variants_body_raises. }
    apply encoding_ok_dict in H2 as (d2 & E2 & _).
    rewrite (set_variants_body_dict _ _ _ _ E2).
    destruct (encoding_ok variants "avif") eqn:H3; [done |].
    by rewrite set_variants_body_raises.
Qed.

(** X2. A call that raises is not undone: [width], [height] and the
    encodings before the offending one are already overwritten, the
    offending encoding and the ones after it keep what they held. *)
Theorem set_variants_partial_update (self : instance)
    (variants : gmap pykey pyval) (done_ : list string) (bad : string)
    (rest : list string) :
  encodings = (done_ ++ bad :: rest)%list →
  Forall (λ ext, encoding_ok variants ext = true) done_ →
  encoding_ok variants bad = false →
  outcome variants self = inl (AttributeError "get")
  ∧ getattr (after variants self) "width" = dict_get variants (KStr "width")
  ∧ getattr (after variants self) "height" = dict_get variants (KStr "height")
  ∧ Forall (λ s, getattr (after variants self) (variant_field s.1 s.2)
                 = supplied variants s.1 s.2)
           (ext ← done_; bp ← breakpoints; [(ext, bp)])
  ∧ Forall (λ s, getattr (after variants self) (variant_field s.1 s.2)
                 = getattr self (variant_field s.1 s.2))
           (ext ← bad :: rest; bp ← breakpoints; [(ext, bp)]).
Proof.
  intros Henc Hdone Hbad. unfold encodings in Henc.
  unfold outcome, after, set_variants, for_each.
  unfold mbind, M_bind, bind, setattr at 1 2.
  destruct done_ as [| e1 [| e2 [| e3 done_]]]; simplify_eq/=.
  - rewrite (set_variants_body_raises _ _ _ Hbad). simpl.
    repeat split; first [attr_lookup | attrs_lookup].
  - apply Forall_cons in Hdone as [H1 _].
    apply encoding_ok_dict in H1 as (d1 & E1 & S1).
    rewrite (set_variants_body_dict _ _ _ _ E1).
    rewrite (set_variants_body_raises _ _ _ Hbad). simpl.
    rewrite !S1.
    repeat split; first [attr_lookup | attrs_lookup].
  - apply Forall_cons in Hdone as [H1 Hdone].
    apply Forall_cons in Hdone as [H2 _].
    apply encoding_ok_dict in H1 as (d1 & E1 & S1).
    apply encoding_ok_dict in H2 as (d2 & E2 & S2).
    rewrite (set_variants_body_dict _ _ _ _ E1).
    rewrite (set_variants_body_dict _ _ _ _ E2).
    rewrite (set_variants_body_raises _ _ _ Hbad). simpl.
    rewrite !S1, !S2.
    repeat split; first [attr_lookup | attrs_lookup].
  - destruct done_; discriminate.
Qed.

Lemma set_variants_partial_update_witness :
  encodings = (["jpg"] ++ "webp" :: ["avif"])%list
  ∧ Forall (λ ext, encoding_ok webp_oops ext = true) ["jpg"]
  ∧ encoding_ok webp_oops "webp" = false
  ∧ outcome webp_oops stale_asset = inl (AttributeError "get")
  ∧ getattr (after webp_oops stale_asset) "width" = PyInt 5
  ∧ getattr (after webp_oops stale_asset) "jpg_480" = PyStr "a"
  ∧ getattr (after webp_oops stale_asset) "avif_1920"
    = PyStr "old-1920.avif".
Proof.
  assert (Forall (λ ext, encoding_ok webp_oops ext = true) ["jpg"]) as Hd
    by (by constructor).
  split; [reflexivity |]. split; [exact Hd |]. split; [reflexivity |].
  destruct (set_variants_partial_update stale_asset webp_oops
              ["jpg"] "webp" ["avif"] eq_refl Hd eq_refl)
    as (Hout & Hw & _ & Hdone & Hrest).
  split; [exact Hout |]. split; [exact Hw |].
  apply Forall_cons in Hdone as [H480 _].
  split; [exact H480 |].
  rewrite Forall_forall in Hrest.
  apply (Hrest ("avif", 1920)). set_solver.
Defined.

Lemma dict_get_insert_ne (d : gmap pykey pyval) k k' x :
  k ≠ k' → dict_get (<[k := x]> d) k' = dict_get d k'.
Proof. intros. unfold dict_get. by rewrite lookup_insert_ne. Qed.

Lemma dict_get_insert_eq (d : gmap pykey pyval) k x :
  dict_get (<[k := x]> d) k = x.
Proof. unfold dict_get. by rewrite lookup_insert_eq. Qed.

(** X3. Keys of the input other than [width], [height], [jpg], [webp]
    and [avif] are never read: adding or changing one changes nothing. *)
Theorem set_variants_ignores_other_keys (self : instance)
    (variants : gmap pykey pyval) (k : pykey) (x : pyval) :
  k ∉ [KStr "width"; KStr "height"; KStr "jpg"; KStr "webp"; KStr "avif"] →
  set_variants (<[k := x]> variants) self = set_variants variants self.
Proof.
  rewrite !not_elem_of_cons. intros (? & ? & ? & ? & ? & _).
  unfold set_variants, for_each, set_variants_body.
  by rewrite !dict_get_insert_ne.
Qed.

Lemma set_variants_ignores_other_keys_witness :
  (KStr "id" ∉ [KStr "width"; KStr "height"; KStr "jpg"; KStr "webp";
                KStr "avif"])
  ∧ set_variants (<[KStr "id" := PyInt 99]> trip_variants) stale_asset
    = set_variants trip_variants stale_asset.
Proof.
  assert (KStr "id" ∉ [KStr "width"; KStr "height"; KStr "jpg"; KStr "webp";
                       KStr "avif"]) as Hk.
  { rewrite !not_elem_of_cons. repeat split; try discriminate.
    apply not_elem_of_nil. }
  split; [exact Hk |].
  exact (set_variants_ignores_other_keys stale_asset trip_variants
           (KStr "id") (PyInt 99) Hk).
Defined.

Lemma py_get_or_dict (d : gmap pykey pyval) k :
  py_get (py_or (PyDict d) (PyDict ∅)) k = inr (dict_get d k).
Proof.
  unfold py_or. simpl. destruct (Nat.eqb (size d) 0) eqn:E; simpl; [| done].
  by apply Nat.eqb_eq, map_size_empty_inv in E as ->.
Qed.

(** X4. Inside an encoding entry only the keys 480, 960, 1280 and 1920
    are read: any other key, such as the string ["480"], changes
    nothing, and a dict that holds only such keys reads like an empty
    one. *)
Theorem set_variants_ignores_other_breakpoints (self : instance)
    (variants d : gmap pykey pyval) (ext : string) (k : pykey) (x : pyval) :
  ext ∈ encodings →
  k ∉ [KInt 480; KInt 960; KInt 1280; KInt 1920] →
  set_variants (<[KStr ext := PyDict (<[k := x]> d)]> variants) self
  = set_variants (<[KStr ext := PyDict d]> variants) self.
Proof.
  intros Hext. rewrite !not_elem_of_cons. intros (? & ? & ? & ? & _).
  apply encodings_cases in Hext as [-> | [-> | ->]];
    unfold set_variants, for_each, set_variants_body;
    rewrite ?dict_get_insert_eq, ?dict_get_insert_ne by discriminate;
    rewrite !py_get_or_dict;
    by rewrite !dict_get_insert_ne.
Qed.

Lemma set_variants_ignores_other_breakpoints_witness :
  "jpg" ∈ encodings
  ∧ (KStr "480" ∉ [KInt 480; KInt 960; KInt 1280; KInt 1920])
  ∧ set_variants {[ KStr "jpg" := PyDict {[ KStr "480" := PyStr "a" ]} ]}
      stale_asset
    = set_variants {[ KStr "jpg" := PyDict ∅ ]} stale_asset.
Proof.
  assert ("jpg" ∈ encodings) as Hext by left.
  assert (KStr "480" ∉ [KInt 480; KInt 960; KInt 1280; KInt 1920]) as Hk.
  { rewrite !not_elem_of_cons. repeat split; try discriminate.
    apply not_elem_of_nil. }
  split; [exact Hext |]. split; [exact Hk |].
  exact (set_variants_ignores_other_breakpoints stale_asset ∅ ∅ "jpg"
           (KStr "480") (PyStr "a") Hext Hk).
Defined.

Lemma overwritten_lookup variants :
  Forall (λ name, ∃ x, ∀ self, overwritten variants self !! name = Some x)
         variant_attrs.
Proof.
  unfold variant_attrs, overwritten. simpl.
  repeat (apply Forall_cons; split;
          [ eexists; intros self;
            rewrite ?lookup_insert_ne by (vm_compute; discriminate);
            apply lookup_insert_eq |]).
  apply Forall_nil_2.
Qed.

(** X5. A call that returns normally erases every trace of the call
    before it: the instance is the one the last call alone would have
    left, whether the earlier call returned or raised. *)
Theorem set_variants_last_call_wins (self : instance)
    (earlier variants : gmap pykey pyval) :
  variants_ok variants = true →
  after variants (after earlier self) = after variants self.
Proof.
  intros Hok. unfold after at 1 3. rewrite !(set_variants_ok _ _ Hok).
  simpl. apply map_eq. intros name.
  destruct (decide (name ∈ variant_attrs)) as [Hin | Hout].
  - pose proof (overwritten_lookup variants) as H.
    rewrite Forall_forall in H. destruct (H name Hin) as (x & Hx).
    by rewrite !Hx.
  - pose proof (set_variants_write_only variants) as Hw.
    pose proof (write_only_frame _ _ (after earlier self) name Hw Hout) as H1.
    pose proof (write_only_frame _ _ self name Hw Hout) as H2.
    rewrite (set_variants_ok _ _ Hok) in H1.
    rewrite (set_variants_ok _ _ Hok) in H2. simpl in H1, H2.
    rewrite H1, H2. unfold after.
    apply (write_only_frame _ _ self name
             (set_variants_write_only earlier) Hout).
Qed.

Lemma set_variants_last_call_wins_witness :
  variants_ok trip_variants = true
  ∧ after trip_variants (after webp_oops stale_asset)
    = after trip_variants stale_asset.
Proof.
  split; [reflexivity |].
  exact (set_variants_last_call_wins stale_asset webp_oops trip_variants
           eq_refl).
Defined.

End SetVariantsMore.

(* ===================================================================== *)
(** ** More facts about the store of models.py                            *)
(* ===================================================================== *)

Module StoreMoreFacts.
Import Schema Engine Store EngineFacts Samples StoreMore.

(** *** Defaults *)




Lemma table_names_cases t :
  t ∈ table_names →
  t = "albums" ∨ t = "share_links" ∨ t = "assets" ∨ t = "likes".
Proof.
  unfold table_names. simpl. rewrite !elem_of_cons, elem_of_nil. tauto.
Qed.

Lemma table_names_find t :
  t ∈ table_names → is_Some (find_table Models.metadata t).
Proof. intros [-> | [-> | [-> | ->]]]%table_names_cases; by eexists. Qed.

(** *** What enforcement adds to an insert *)

Lemma foreign_keys_off t db r cols :
  first_error (check_foreign_key false t db r <$> cols) = None.
Proof. by induction cols. Qed.

(** The checks of an insert: those made on either engine, then the
    references. *)
Lemma check_row_split fk m db key r :
  check_row fk m db key r
  = match check_row false m db key r with
    | Some e => Some e
    | None =>
        first_error (check_foreign_key fk (m_tablename m) db r
                       <$> m_columns m)
    end.
Proof.
  unfold check_row. rewrite !app_assoc.
  rewrite (first_error_app _ (check_foreign_key fk _ _ _ <$> _)).
  rewrite (first_error_app _ (check_foreign_key false _ _ _ <$> _)).
  rewrite foreign_keys_off. by destruct (first_error _).
Qed.

Lemma insert_split fk now t m key r db :
  find_table Models.metadata t = Some m →
  insert fk now t key r db
  = match insert false now t key r db with
    | inl e => inl e
    | inr p =>
        match first_error (check_foreign_key fk t db (with_defaults now m r)
                             <$> m_columns m) with
        | Some e => inl e
        | None => inr p
        end
    end.
Proof.
  intros Hm. rewrite !(insert_eq _ _ _ m) by done.
  rewrite check_row_split.
  apply find_table_elem_of in Hm as [_ ->].
  destruct (check_row false m db key _); [done |].
  by destruct (first_error _).
Qed.

Lemma references_albums fk now db r :
  first_error (check_foreign_key fk "albums" db
                 (with_defaults now Models.Album r)
                 <$> m_columns Models.Album)
  = if fk && bool_decide (dangling db "assets" r "cover_asset_id")
    then Some (IntegrityError ForeignKeyConstraint "albums" "cover_asset_id")
    else None.
Proof.
  cbn -[check_foreign_key with_defaults]. foreign_keys.
  unfold check_reference.
  rewrite (bool_decide_ext _ _ (dangling_with_defaults_albums now db r)).
  by destruct (fk && _).
Qed.

Lemma references_share_links fk now db r :
  first_error (check_foreign_key fk "share_links" db
                 (with_defaults now Models.ShareLink r)
                 <$> m_columns Models.ShareLink)
  = if fk && bool_decide (dangling db "albums" r "album_id")
    then Some (IntegrityError ForeignKeyConstraint "share_links" "album_id")
    else None.
Proof.
  cbn -[check_foreign_key with_defaults]. foreign_keys.
  unfold check_reference.
  rewrite (bool_decide_ext _ _ (dangling_with_defaults_share_links now db r)).
  by destruct (fk && _).
Qed.

Lemma references_assets fk now db r :
  first_error (check_foreign_key fk "assets" db
                 (with_defaults now Models.Asset r)
                 <$> m_columns Models.Asset)
  = if fk && bool_decide (dangling db "albums" r "album_id")
    then Some (IntegrityError ForeignKeyConstraint "assets" "album_id")
    else None.
Proof.
  cbn -[check_foreign_key with_defaults]. foreign_keys.
  unfold check_reference.
  rewrite (bool_decide_ext _ _ (dangling_with_defaults_assets now db r)).
  by destruct (fk && _).
Qed.

Lemma references_likes fk now db r :
  first_error (check_foreign_key fk "likes" db
                 (with_defaults now Models.Like r)
                 <$> m_columns Models.Like)
  = None.
Proof. cbn -[check_foreign_key with_defaults]. by foreign_keys. Qed.

Lemma first_error_Exists l e :
  first_error l = Some e → Exists (λ o, o = Some e) l.
Proof.
  induction l as [| [e' |] l IH]; simpl; [done | |].
  - intros [= ->]. by left.
  - intros H. right. by apply IH.
Qed.


(** Without enforcement no insert reports a foreign key. *)
Lemma insert_unenforced now t key r db t' c :
  insert false now t key r db
  ≠ inl (IntegrityError ForeignKeyConstraint t' c).
Proof.
  destruct (find_table Models.metadata t) as [m |] eqn:Hm;
    [| by unfold insert, insert_row; rewrite Hm].
  rewrite (insert_eq _ _ _ m) by done.
  destruct (check_row false m db key _) as [e |] eqn:E; [| done].
  intros [= ->]. revert E. unfold check_row.
  rewrite !app_assoc, first_error_app, foreign_keys_off.
  destruct (first_error _) as [e |] eqn:E; [| done]. intros [= ->].
  rewrite <- !app_assoc in E.
  apply first_error_Exists in E.
  rewrite !Exists_app, Exists_cons, Exists_nil in E.
  rewrite !Exists_fmap, !Exists_exists in E.
  destruct E as [(col & _ & H) | [[H | []] | (col & _ & H)]].
  - simpl in H. unfold check_not_null in H. by destruct (_ && _).
  - by apply check_key_Some in H as [? _].
  - simpl in H. unfold check_unique in H. by destruct (_ && _).
Qed.



(** X7. The NOT NULL violations of the schema are exactly three: an
    album without [title], and an asset without [filename] or without
    [original_name]. No other missing column is ever reported so. *)
Theorem not_null_violations (fk : bool) (now : Z) (t : string)
    (key : option Z) (r : row) (db : database) (t' c : string) :
  insert fk now t key r db = inl (IntegrityError NotNull t' c)
  ↔ (t = "albums" ∧ t' = "albums" ∧ c = "title" ∧ cell r "title" = Null)
    ∨ (t = "assets" ∧ t' = "assets" ∧ c = "filename"
       ∧ cell r "filename" = Null)
    ∨ (t = "assets" ∧ t' = "assets" ∧ c = "original_name"
       ∧ cell r "filename" ≠ Null ∧ cell r "original_name" = Null).
Proof.
  assert (∀ t0 pk (tb : table) e, check_key t0 pk tb key = Some e →
            e ≠ IntegrityError NotNull t' c) as Hkey.
  { intros t0 pk tb e [-> _]%check_key_Some. done. }
  assert (∀ t0 c0 tg r0 e, check_reference fk t0 c0 tg db r0 = Some e →
            e ≠ IntegrityError NotNull t' c) as Href.
  { intros t0 c0 tg r0 e (_ & _ & ->)%check_reference_Some. done. }
  destruct (table_cases t) as [-> | [-> | [-> | [-> | Hno]]]].
  - rewrite (insert_eq _ _ _ Models.Album) by done.
    rewrite check_row_album.
    rewrite !cell_with_defaults_albums by done.
    case_bool_decide as Hn.
    { split; [intros [= <- <-]; by left |].
      intros [(_ & -> & -> & _) | [(H & _) | (H & _)]];
        [done | discriminate H | discriminate H]. }
    split; cycle 1.
    { intros [(_ & _ & _ & H) | [(H & _) | (H & _)]];
        [done | discriminate H | discriminate H]. }
    destruct (check_key _ _ _ _) as [e |] eqn:Hk.
    { intros [= He]. by destruct (Hkey _ _ _ _ Hk). }
    destruct (check_reference _ _ _ _ _ _) as [e |] eqn:Hr; [| done].
    intros [= He]. by destruct (Href _ _ _ _ _ Hr).
  - rewrite (insert_eq _ _ _ Models.ShareLink) by done.
    rewrite check_row_share_link.
    split; [| intros [(H & _) | [(H & _) | (H & _)]]; discriminate H].
    destruct (check_key _ _ _ _) as [e |] eqn:Hk.
    { intros [= He]. by destruct (Hkey _ _ _ _ Hk). }
    destruct (negb _ && _); [done |].
    destruct (check_reference _ _ _ _ _ _) as [e |] eqn:Hr; [| done].
    intros [= He]. by destruct (Href _ _ _ _ _ Hr).
  - rewrite (insert_eq _ _ _ Models.Asset) by done.
    rewrite check_row_asset.
    rewrite !cell_with_defaults_assets by done.
    case_bool_decide as Hf.
    { split; [intros [= <- <-]; right; left; done |].
      intros [(H & _) | [(_ & -> & -> & _) | (_ & _ & _ & H & _)]];
        [discriminate H | done | done]. }
    case_bool_decide as Ho.
    { split; [intros [= <- <-]; right; right; done |].
      intros [(H & _) | [(_ & _ & _ & H) | (_ & -> & -> & _)]];
        [discriminate H | done | done]. }
    split.
    + destruct (check_key _ _ _ _) as [e |] eqn:Hk.
      { intros [= He]. by destruct (Hkey _ _ _ _ Hk). }
      destruct (check_reference _ _ _ _ _ _) as [e |] eqn:Hr; [| done].
      intros [= He]. by destruct (Href _ _ _ _ _ Hr).
    + intros [(H & _) | [(_ & _ & _ & H) | (_ & _ & _ & _ & H)]];
        [discriminate H | done | done].
  - rewrite (insert_eq _ _ _ Models.Like) by done.
    rewrite check_row_like.
    split; [| intros [(H & _) | [(H & _) | (H & _)]]; discriminate H].
    destruct (check_key _ _ _ _) as [e |] eqn:Hk; [| done].
    intros [= He]. by destruct (Hkey _ _ _ _ Hk).
  - unfold insert, insert_row. rewrite Hno.
    split; [done |].
    intros [(-> & _) | [(-> & _) | (-> & _)]]; discriminate Hno.
Qed.

(** *** References *)

(** Enforcement only rejects more: what it stores is stored without it. *)
Lemma insert_enforced_stored fk now t key r db p :
  insert fk now t key r db = inr p → insert false now t key r db = inr p.
Proof.
  intros Hp.
  destruct (find_table Models.metadata t) as [m |] eqn:Hm.
  - rewrite (insert_split fk _ _ m) in Hp by done.
    destruct (insert false now t key r db) as [e | p']; [done |].
    destruct (first_error _); [done |]. exact Hp.
  - revert Hp. unfold insert, insert_row. by rewrite Hm.
Qed.

Lemma insert_all_enforced_stored fk now l db db' :
  insert_all fk now l db = inr db' → insert_all false now l db = inr db'.
Proof.
  unfold insert_all. revert db.
  induction l as [| [t r] l IH]; simpl; intros db; [done |].
  destruct (insert fk now t None r db) as [e | [id db1]] eqn:E.
  - intros Hf. exfalso. revert Hf. clear.
    induction l as [| x l IH]; simpl; [done | apply IH].
  - rewrite (insert_enforced_stored _ _ _ _ _ _ _ E). apply IH.
Qed.

(** X8. A row that references a missing row is rejected only where the
    database enforces foreign keys. An insert reports a FOREIGN KEY
    violation exactly when enforcement is on, the row passes every other
    check, so that without enforcement the same row is stored, and the
    row is a share link or an asset whose [album_id], or an album whose
    [cover_asset_id], is not NULL and names no stored row. Enforcement
    changes nothing else: a row rejected without it is rejected with the
    same error with it, and a row stored with it is stored alike
    without it. The engine of db/engine.py, which never turns
    enforcement on, reports no such violation: it stores an asset of
    album 9 in an empty store, which an enforcing engine rejects. *)
Theorem dangling_reference_rejected (fk : bool) (now : Z) (t : string)
    (key : option Z) (r : row) (db : database) :
  (∀ t' c,
     insert fk now t key r db = inl (IntegrityError ForeignKeyConstraint t' c)
     ↔ fk = true ∧ t' = t
       ∧ (∃ id db', insert false now t key r db = inr (id, db'))
       ∧ ((t = "albums" ∧ c = "cover_asset_id"
           ∧ dangling db "assets" r "cover_asset_id")
          ∨ (t = "share_links" ∧ c = "album_id"
             ∧ dangling db "albums" r "album_id")
          ∨ (t = "assets" ∧ c = "album_id"
             ∧ dangling db "albums" r "album_id")))
  ∧ (∀ e, insert false now t key r db = inl e →
          insert fk now t key r db = inl e)
  ∧ (∀ p, insert fk now t key r db = inr p →
          insert false now t key r db = inr p)
  ∧ (∀ t' c, insert engine_foreign_keys now t key r db
             ≠ inl (IntegrityError ForeignKeyConstraint t' c))
  ∧ (∃ db', insert engine_foreign_keys 0 "assets" None (asset_row 9 1) ∅
            = inr (1, db')
            ∧ cell_at db' "assets" 1 "album_id" = Some (VInt 9)
            ∧ rows db' "albums" !! 9 = None)
  ∧ insert true 0 "assets" None (asset_row 9 1) ∅
    = inl (IntegrityError ForeignKeyConstraint "assets" "album_id").
Proof.
  split; [| split; [| split; [| split; [| split]]]].
  - intros t' c.
    destruct (table_cases t) as [-> | [-> | [-> | [-> | Hno]]]].
    + rewrite (insert_split fk _ _ Models.Album) by done.
      destruct (insert false now "albums" key r db) as [e | [id db']] eqn:E.
      { split.
        - intros [= ->]. by destruct (insert_unenforced _ _ _ _ _ _ _ E).
        - by intros (_ & _ & (? & ? & ?) & _). }
      rewrite references_albums.
      destruct (fk && bool_decide (dangling db "assets" r "cover_asset_id"))
        eqn:Hb.
      * apply andb_prop in Hb as [-> Hd%bool_decide_eq_true].
        split.
        -- intros [= <- <-]. split; [done |]. split; [done |].
           split; [eauto |]. by left.
        -- intros (_ & -> & _ & [(_ & -> & _) | [(H & _) | (H & _)]]);
             [done | discriminate H | discriminate H].
      * split; [done |].
        intros (-> & _ & _ & [(_ & _ & Hd) | [(H & _) | (H & _)]]);
          [| discriminate H | discriminate H].
        cbn [andb] in Hb. by apply bool_decide_eq_false in Hb.
    + rewrite (insert_split fk _ _ Models.ShareLink) by done.
      destruct (insert false now "share_links" key r db)
        as [e | [id db']] eqn:E.
      { split.
        - intros [= ->]. by destruct (insert_unenforced _ _ _ _ _ _ _ E).
        - by intros (_ & _ & (? & ? & ?) & _). }
      rewrite references_share_links.
      destruct (fk && bool_decide (dangling db "albums" r "album_id"))
        eqn:Hb.
      * apply andb_prop in Hb as [-> Hd%bool_decide_eq_true].
        split.
        -- intros [= <- <-]. split; [done |]. split; [done |].
           split; [eauto |]. right. by left.
        -- intros (_ & -> & _ & [(H & _) | [(_ & -> & _) | (H & _)]]);
             [discriminate H | done | discriminate H].
      * split; [done |].
        intros (-> & _ & _ & [(H & _) | [(_ & _ & Hd) | (H & _)]]);
          [discriminate H | | discriminate H].
        cbn [andb] in Hb. by apply bool_decide_eq_false in Hb.
    + rewrite (insert_split fk _ _ Models.Asset) by done.
      destruct (insert false now "assets" key r db) as [e | [id db']] eqn:E.
      { split.
        - intros [= ->]. by destruct (insert_unenforced _ _ _ _ _ _ _ E).
        - by intros (_ & _ & (? & ? & ?) & _). }
      rewrite references_assets.
      destruct (fk && bool_decide (dangling db "albums" r "album_id"))
        eqn:Hb.
      * apply andb_prop in Hb as [-> Hd%bool_decide_eq_true].
        split.
        -- intros [= <- <-]. split; [done |]. split; [done |].
           split; [eauto |]. right. by right.
        -- intros (_ & -> & _ & [(H & _) | [(H & _) | (_ & -> & _)]]);
             [discriminate H | discriminate H | done].
      * split; [done |].
        intros (-> & _ & _ & [(H & _) | [(H & _) | (_ & _ & Hd)]]);
          [discriminate H | discriminate H |].
        cbn [andb] in Hb. by apply bool_decide_eq_false in Hb.
    + rewrite (insert_split fk _ _ Models.Like) by done.
      destruct (insert false now "likes" key r db) as [e | [id db']] eqn:E.
      { split.
        - intros [= ->]. by destruct (insert_unenforced _ _ _ _ _ _ _ E).
        - by intros (_ & _ & (? & ? & ?) & _). }
      rewrite references_likes. split; [done |].
      intros (_ & _ & _ & [(H & _) | [(H & _) | (H & _)]]); discriminate H.
    + unfold insert, insert_row. rewrite Hno. split; [done |].
      intros (_ & _ & _ & [(-> & _) | [(-> & _) | (-> & _)]]);
        discriminate Hno.
  - intros e He.
    destruct (find_table Models.metadata t) as [m |] eqn:Hm.
    + rewrite (insert_split fk _ _ m) by done. by rewrite He.
    + revert He. unfold insert, insert_row. by rewrite Hm.
  - intros p. apply insert_enforced_stored.
  - intros t' c. apply insert_unenforced.
  - destruct (insert_accepted
                (insert engine_foreign_keys 0 "assets" None
                   (asset_row 9 1) ∅))
      as (id & db' & Hins); [vm_compute; reflexivity |].
    pose proof Hins as (m & Hm & _ & Hid & _ & Hdb)%insert_inv.
    assert (id = 1) as -> by (rewrite Hid; vm_compute; reflexivity).
    exists db'. split; [exact Hins |]. injection Hm as <-. split.
    + rewrite Hdb. unfold cell_at. rewrite rows_insert_eq, lookup_insert_eq.
      vm_compute. reflexivity.
    + rewrite Hdb. rewrite rows_insert_ne by done.
      by rewrite rows_empty.
  - rewrite (insert_eq _ _ _ Models.Asset) by done.
    rewrite check_row_asset.
    rewrite !cell_with_defaults_assets by done.
    rewrite !bool_decide_eq_false_2 by done.
    rewrite rows_empty. cbn [check_key].
    unfold check_reference. cbn [andb].
    rewrite bool_decide_eq_true_2; [done |].
    apply dangling_with_defaults_assets. split; [done |].
    intros i _. by rewrite rows_empty.
Qed.

(** *** Referential integrity, where foreign keys are enforced *)

Lemma insert_preserves_share_refs now t key r db id db' :
  insert true now t key r db = inr (id, db') →
  share_refs_ok db → share_refs_ok db'.
Proof.
  intros (m & Hm & Hc & _ & _ & ->)%insert_inv Hok.
  destruct (table_cases t) as [-> | [-> | [-> | [-> | Hno]]]];
    [| | | | congruence].
  - intros i ri. rows_simpl. intros Hi.
    destruct (Hok i ri Hi) as [? | (a & Ha & Hsome)]; [by left | right].
    exists a. split; [done |]. rewrite lookup_insert_is_Some'. by right.
  - injection Hm as <-. rewrite check_row_share_link in Hc.
    destruct (check_key _ _ _ _); [done |].
    destruct (negb _ && _); [done |].
    apply check_reference_None in Hc as [? | Hc]; [done |].
    intros i ri. rows_simpl. rewrite lookup_insert.
    case_decide; [| apply Hok].
    intros [= <-]. by rewrite cell_insert_ne.
  - intros i ri. rows_simpl. apply Hok.
  - intros i ri. rows_simpl. apply Hok.
Qed.

Lemma insert_preserves_asset_refs now t key r db id db' :
  insert true now t key r db = inr (id, db') →
  asset_refs_ok db → asset_refs_ok db'.
Proof.
  intros (m & Hm & Hc & _ & _ & ->)%insert_inv Hok.
  destruct (table_cases t) as [-> | [-> | [-> | [-> | Hno]]]];
    [| | | | congruence].
  - intros i ri. rows_simpl. intros Hi.
    destruct (Hok i ri Hi) as [? | (a & Ha & Hsome)]; [by left | right].
    exists a. split; [done |]. rewrite lookup_insert_is_Some'. by right.
  - intros i ri. rows_simpl. apply Hok.
  - injection Hm as <-. rewrite check_row_asset in Hc.
    repeat (case_bool_decide; [done |]).
    destruct (check_key _ _ _ _); [done |].
    apply check_reference_None in Hc as [? | Hc]; [done |].
    intros i ri. rows_simpl. rewrite lookup_insert.
    case_decide; [| apply Hok].
    intros [= <-]. by rewrite cell_insert_ne.
  - intros i ri. rows_simpl. apply Hok.
Qed.

Lemma insert_preserves_cover_refs now t key r db id db' :
  insert true now t key r db = inr (id, db') →
  cover_refs_ok db → cover_refs_ok db'.
Proof.
  intros (m & Hm & Hc & _ & _ & ->)%insert_inv Hok.
  destruct (table_cases t) as [-> | [-> | [-> | [-> | Hno]]]];
    [| | | | congruence].
  - injection Hm as <-. rewrite check_row_album in Hc.
    case_bool_decide; [done |].
    destruct (check_key _ _ _ _); [done |].
    apply check_reference_None in Hc as [? | Hc]; [done |].
    intros i ri. rows_simpl. rewrite lookup_insert.
    case_decide; [| apply Hok].
    intros [= <-]. by rewrite cell_insert_ne.
  - intros i ri. rows_simpl. apply Hok.
  - intros i ri. rows_simpl. intros Hi.
    destruct (Hok i ri Hi) as [? | (x & Hx & Hsome)]; [by left | right].
    exists x. split; [done |]. rewrite lookup_insert_is_Some'. by right.
  - intros i ri. rows_simpl. apply Hok.
Qed.

(** A row that is kept when the referrers of [a] go does not reference
    [a], so the album it references is kept when [a] goes. *)
Lemma kept_reference_ok a (tb albums : table) ids i ri :
  (∀ j r, tb !! j = Some r →
          cell r "album_id" = Null
          ∨ ∃ b, cell r "album_id" = VInt b ∧ is_Some (albums !! b)) →
  remove_rows (referrers {[a]} "album_id" tb) tb !! i = Some ri →
  cell ri "album_id" = Null
  ∨ ∃ b, cell ri "album_id" = VInt b
         ∧ is_Some (null_out ids "cover_asset_id"
                      (remove_rows {[a]} albums) !! b).
Proof.
  intros Hok. rewrite remove_rows_lookup.
  case_decide as Hi; [done |]. intros Hri.
  destruct (Hok i ri Hri) as [? | (b & Hb & Hsome)]; [by left | right].
  exists b. split; [done |].
  rewrite null_out_is_Some, remove_rows_lookup.
  case_decide as Hin; [| done].
  apply elem_of_singleton in Hin as ->.
  destruct Hi. apply elem_of_referrers. exists ri. split; [done |].
  by apply refers_singleton.
Qed.

Lemma delete_preserves_share_refs loaded t id db db' :
  delete true loaded t id db = Some (inr db') →
  share_refs_ok db → share_refs_ok db'.
Proof.
  intros Hdel Hok.
  apply delete_cases in Hdel
    as [-> | [(_ & _ & Hal & _ & Hsh & _) | [(_ & _ & ->)
       | [(_ & _ & Hdb) | (_ & _ & ->)]]]]; [done | | | |].
  - cbv iota in Hal. cbn [orb] in Hsh. intros i ri. rewrite Hsh, Hal.
    by apply kept_reference_ok.
  - intros i ri. rows_simpl. rewrite remove_rows_lookup.
    case_decide; [done | apply Hok].
  - cbv iota in Hdb. subst db'. intros i ri. rows_simpl. intros Hri.
    destruct (Hok i ri Hri) as [? | (a & Ha & Hsome)]; [by left | right].
    exists a. by rewrite null_out_is_Some.
  - intros i ri. rows_simpl. apply Hok.
Qed.

Lemma delete_preserves_asset_refs loaded t id db db' :
  delete true loaded t id db = Some (inr db') →
  asset_refs_ok db → asset_refs_ok db'.
Proof.
  intros Hdel Hok.
  apply delete_cases in Hdel
    as [-> | [(_ & _ & Hal & Has & _ & _) | [(_ & _ & ->)
       | [(_ & _ & Hdb) | (_ & _ & ->)]]]]; [done | | | |].
  - cbv iota in Hal. cbn [orb] in Has. intros i ri. rewrite Has, Hal.
    by apply kept_reference_ok.
  - intros i ri. rows_simpl. apply Hok.
  - cbv iota in Hdb. subst db'. intros i ri. rows_simpl.
    rewrite remove_rows_lookup. case_decide; [done |]. intros Hri.
    destruct (Hok i ri Hri) as [? | (a & Ha & Hsome)]; [by left | right].
    exists a. by rewrite null_out_is_Some.
  - intros i ri. rows_simpl. apply Hok.
Qed.

(** After the references to [ids] are nulled and the rows [ids] removed,
    every cover that was fine still is. *)
Lemma null_out_cover_ok ids (albums assets : table) i r' :
  (∀ j r, albums !! j = Some r →
          cell r "cover_asset_id" = Null
          ∨ ∃ x, cell r "cover_asset_id" = VInt x ∧ is_Some (assets !! x)) →
  null_out ids "cover_asset_id" albums !! i = Some r' →
  cell r' "cover_asset_id" = Null
  ∨ ∃ x, cell r' "cover_asset_id" = VInt x
         ∧ is_Some (remove_rows ids assets !! x).
Proof.
  intros Hok. rewrite null_out_lookup.
  destruct (albums !! i) as [r|] eqn:Hi; [| done]. simpl. intros [= <-].
  destruct (refers ids "cover_asset_id" r) eqn:Href.
  - left. apply cell_insert_eq.
  - destruct (Hok i r Hi) as [? | (x & Hx & Hsome)]; [by left | right].
    exists x. split; [done |]. rewrite remove_rows_lookup.
    case_decide as Hin; [| done].
    unfold refers in Href. rewrite Hx in Href.
    by rewrite bool_decide_eq_true_2 in Href.
Qed.

Lemma delete_preserves_cover_refs loaded t id db db' :
  delete true loaded t id db = Some (inr db') →
  cover_refs_ok db → cover_refs_ok db'.
Proof.
  intros Hdel Hok.
  apply delete_cases in Hdel
    as [-> | [(_ & _ & Hal & Has & _ & _) | [(_ & _ & ->)
       | [(_ & _ & Hdb) | (_ & _ & ->)]]]]; [done | | | |].
  - cbv iota in Hal. cbn [orb] in Has. intros i ri. rewrite Has, Hal.
    apply null_out_cover_ok.
    intros j r. rewrite remove_rows_lookup. case_decide; [done | apply Hok].
  - intros i ri. rows_simpl. apply Hok.
  - cbv iota in Hdb. subst db'. intros i ri. rows_simpl.
    apply null_out_cover_ok. apply Hok.
  - intros i ri. rows_simpl. apply Hok.
Qed.

Lemma refs_ok_empty : refs_ok ∅.
Proof.
  repeat split; intros i r Hi; by rewrite rows_empty, lookup_empty in Hi.
Qed.

Lemma insert_preserves_refs now t key r db id db' :
  refs_ok db → insert true now t key r db = inr (id, db') → refs_ok db'.
Proof.
  intros (Hs & Ha & Hc) Hins. repeat split.
  - by eapply insert_preserves_share_refs.
  - by eapply insert_preserves_asset_refs.
  - by eapply insert_preserves_cover_refs.
Qed.

Lemma delete_preserves_refs loaded t id db db' :
  refs_ok db → delete true loaded t id db = Some (inr db') → refs_ok db'.
Proof.
  intros (Hs & Ha & Hc) Hdel. repeat split.
  - by eapply delete_preserves_share_refs.
  - by eapply delete_preserves_asset_refs.
  - by eapply delete_preserves_cover_refs.
Qed.

Lemma reachable_refs_ok db : reachable true db → refs_ok db.
Proof.
  induction 1 as [| now t key r db id db' _ IH Hins
                  | loaded t id db db' _ IH Hdel].
  - apply refs_ok_empty.
  - by eapply insert_preserves_refs.
  - by eapply delete_preserves_refs.
Qed.

(** A stored row whose [album_id] names an album that is not stored. *)
Lemma dangling_album_id (db : database) t i a :
  cell_at db t i "album_id" = Some (VInt a) →
  rows db "albums" !! a = None →
  ∃ r, rows db t !! i = Some r
       ∧ ¬ (cell r "album_id" = Null
            ∨ ∃ b, cell r "album_id" = VInt b
                   ∧ is_Some (rows db "albums" !! b)).
Proof.
  intros (r & Hr & Hc)%cell_at_Some Hno. exists r. split; [done |].
  rewrite Hc. intros [? | (b & [= <-] & Hsome)]; [done |].
  rewrite Hno in Hsome. by destruct Hsome.
Qed.

(** X9. Referential integrity is kept only where the database enforces
    foreign keys. There, in every store built from the empty one by
    inserts and deletes, the [album_id] of each share link and of each
    asset is NULL or the key of a stored album, and the [cover_asset_id]
    of each album is NULL or the key of a stored asset; each accepted
    insert and each delete, whichever collections are loaded, keeps it
    so. The engine of db/engine.py, which never turns enforcement on,
    keeps it neither on insert nor on delete: it stores an asset of
    album 9 in the empty store, and deleting album "Trip" with no
    collection loaded leaves its asset and its share link referencing an
    album that is gone. *)
Theorem referential_integrity :
  (∀ db, reachable true db → refs_ok db)
  ∧ (∀ now t key r db id db',
       refs_ok db → insert true now t key r db = inr (id, db') → refs_ok db')
  ∧ (∀ loaded t id db db',
       refs_ok db → delete true loaded t id db = Some (inr db') → refs_ok db')
  ∧ (∃ db',
       refs_ok ∅
       ∧ insert engine_foreign_keys 0 "assets" None (asset_row 9 1) ∅
         = inr (1, db')
       ∧ ¬ asset_refs_ok db')
  ∧ (∃ db',
       reachable engine_foreign_keys shared
       ∧ refs_ok shared
       ∧ delete engine_foreign_keys not_loaded "albums" 1 shared
         = Some (inr db')
       ∧ ¬ asset_refs_ok db'
       ∧ ¬ share_refs_ok db').
Proof.
  split; [exact reachable_refs_ok |].
  split; [exact insert_preserves_refs |].
  split; [exact delete_preserves_refs |].
  split.
  - destruct (insert_accepted
                (insert engine_foreign_keys 0 "assets" None
                   (asset_row 9 1) ∅))
      as (id & db' & Hins); [vm_compute; reflexivity |].
    pose proof Hins as (m & Hm & _ & Hid & _ & Hdb)%insert_inv.
    assert (id = 1) as -> by (rewrite Hid; vm_compute; reflexivity).
    exists db'. split; [apply refs_ok_empty |]. split; [exact Hins |].
    injection Hm as <-.
    destruct (dangling_album_id db' "assets" 1 9) as (r & Hr & Hbad).
    + rewrite Hdb. unfold cell_at. rewrite rows_insert_eq, lookup_insert_eq.
      vm_compute. reflexivity.
    + rewrite Hdb. rewrite rows_insert_ne by done. by rewrite rows_empty.
    + intros Hok. exact (Hbad (Hok 1 r Hr)).
  - assert (Samples.accepted (insert_all true 0 shared_rows ∅) = true)
      as Hacc by (vm_compute; reflexivity).
    assert (shared = shared_enforced) as Heq.
    { unfold shared, shared_enforced, engine_foreign_keys.
      by rewrite (insert_all_enforced_stored _ _ _ _ _
                    (accepted_stored _ Hacc)). }
    assert (reachable true shared_enforced) as Hre
      by (by apply insert_all_stored_reachable).
    assert (is_Some (rows shared "albums" !! 1)) as Hin.
    { assert (cell_at shared "albums" 1 "title" = Some (VText "Trip")) as H
        by (vm_compute; reflexivity).
      apply cell_at_Some in H as (r & Hr & _). eauto. }
    destruct (delete_albums engine_foreign_keys not_loaded 1 shared Hin)
      as (db' & Hdel & Halb & Hast & Hsh & _).
    cbn [engine_foreign_keys not_loaded orb] in Halb, Hast, Hsh.
    assert (rows db' "albums" !! 1 = None) as Hgone.
    { rewrite Halb, remove_rows_lookup.
      rewrite decide_True; [done |]. by apply elem_of_singleton. }
    exists db'.
    split; [apply insert_all_stored_reachable; vm_compute; reflexivity |].
    split; [rewrite Heq; by apply reachable_refs_ok |].
    split; [exact Hdel |]. split.
    + destruct (dangling_album_id db' "assets" 1 1) as (r & Hr & Hbad);
        [| exact Hgone |].
      * unfold cell_at. rewrite Hast. vm_compute. reflexivity.
      * intros Hok. exact (Hbad (Hok 1 r Hr)).
    + destruct (dangling_album_id db' "share_links" 1 1) as (r & Hr & Hbad);
        [| exact Hgone |].
      * unfold cell_at. rewrite Hsh. vm_compute. reflexivity.
      * intros Hok. exact (Hbad (Hok 1 r Hr)).
Qed.

(** *** Deletes *)





(** X11. No delete is ever blocked: every foreign key of the schema
    declares ondelete CASCADE or SET NULL, so deleting a row of any of
    the four tables succeeds in any store, whether foreign keys are
    enforced or not and whichever collections are loaded; the row is
    gone afterwards, and no table gains a row. *)
Theorem delete_never_blocked (fk : bool) (loaded : string → bool)
    (t : string) (id : Z) (db : database) :
  t ∈ table_names →
  ∃ db',
    delete fk loaded t id db = Some (inr db')
    ∧ rows db' t !! id = None
    ∧ ∀ t', dom (rows db' t') ⊆ dom (rows db t').
Proof.
  intros Ht.
  destruct (rows db t !! id) as [r0 |] eqn:Hrow; cycle 1.
  { exists db. split; [| by split].
    apply delete_missing; [by apply table_names_find | done]. }
  assert (is_Some (rows db t !! id)) as Hin by eauto. clear Hrow.
  assert (∀ tb : table, remove_rows {[id]} tb !! id = None) as Hgone.
  { intros tb. rewrite remove_rows_lookup.
    rewrite decide_True; [done |]. by apply elem_of_singleton. }
  apply table_names_cases in Ht as [-> | [-> | [-> | ->]]].
  - destruct (delete_albums fk loaded id db Hin)
      as (db' & Hdel & Hal & Has & Hsh & Hot).
    exists db'. split; [exact Hdel |]. split.
    + rewrite Hal. destruct fk; [| apply Hgone].
      by rewrite null_out_lookup, Hgone.
    + intros t'.
      destruct (decide (t' = "albums")) as [-> | ?].
      { rewrite Hal. destruct fk; [rewrite null_out_dom |];
          apply remove_rows_dom. }
      destruct (decide (t' = "assets")) as [-> | ?].
      { rewrite Has. destruct (fk || loaded "assets");
          [apply remove_rows_dom | done]. }
      destruct (decide (t' = "share_links")) as [-> | ?].
      { rewrite Hsh. destruct (fk || loaded "shares");
          [apply remove_rows_dom | done]. }
      by rewrite Hot.
  - rewrite delete_share_links by done. eexists. split; [reflexivity |].
    split; [by rows_simpl |].
    intros t'. destruct (decide (t' = "share_links")) as [-> | ?];
      [rows_simpl; apply remove_rows_dom | by rows_simpl].
  - rewrite delete_assets by done. eexists. split; [reflexivity |].
    destruct fk.
    + split; [by rows_simpl |]. intros t'.
      destruct (decide (t' = "albums")) as [-> | ?];
        [rows_simpl; by rewrite null_out_dom |].
      destruct (decide (t' = "assets")) as [-> | ?];
        [rows_simpl; apply remove_rows_dom | by rows_simpl].
    + split; [by rows_simpl |]. intros t'.
      destruct (decide (t' = "assets")) as [-> | ?];
        [rows_simpl; apply remove_rows_dom | by rows_simpl].
  - rewrite delete_likes by done. eexists. split; [reflexivity |].
    split; [by rows_simpl |].
    intros t'. destruct (decide (t' = "likes")) as [-> | ?];
      [rows_simpl; apply remove_rows_dom | by rows_simpl].
Qed.

Lemma delete_never_blocked_witness :
  "albums" ∈ table_names
  ∧ ∃ db', delete engine_foreign_keys not_loaded "albums" 1 trip
           = Some (inr db')
           ∧ rows db' "albums" !! 1 = None
           ∧ ∀ t', dom (rows db' t') ⊆ dom (rows trip t').
Proof.
  assert ("albums" ∈ table_names) as Ht by (vm_compute; left).
  split; [exact Ht |].
  exact (delete_never_blocked engine_foreign_keys not_loaded
           "albums" 1 trip Ht).
Defined.

End StoreMoreFacts.


(* ===================================================================== *)
(** ** Facts about the settings and the application factory              *)
(* ===================================================================== *)

Module ServerFacts.
Import Config Server.

Lemma lower_ascii_idemp c : lower_ascii (lower_ascii c) = lower_ascii c.
Proof.
  unfold lower_ascii.
  destruct ((65 <=? nat_of_ascii c)%nat && (nat_of_ascii c <=? 90)%nat) eqn:E.
  - apply andb_true_iff in E as [H1 H2].
    apply Nat.leb_le in H1, H2.
    rewrite nat_ascii_embedding by lia.
    replace ((nat_of_ascii c + 32 <=? 90)%nat) with false
      by (symmetry; apply Nat.leb_gt; lia).
    by rewrite andb_false_r.
  - by rewrite E.
Qed.

Lemma lower_idemp s : lower (lower s) = lower s.
Proof.
  induction s as [| c s IH]; simpl; [done |].
  by rewrite lower_ascii_idemp, IH.
Qed.

Lemma profiles_disjoint e : e ∈ server_names → e ∉ local_names.
Proof.
  unfold server_names, local_names. rewrite !elem_of_cons, !elem_of_nil.
  intros [-> | [-> | [-> | []]]] [H | [H | [H | []]]]; discriminate H.
Qed.

Lemma getenv_insert_eq (env : environ) k v d : getenv (<[k := v]> env) k d = v.
Proof. unfold getenv. by rewrite lookup_insert_eq. Qed.

Lemma getenv_insert_ne (env : environ) k k' v d :
  k ≠ k' → getenv (<[k := v]> env) k' d = getenv env k' d.
Proof. intros. unfold getenv. by rewrite lookup_insert_ne. Qed.

(** X12. The interactive documentation is served exactly in the local
    profile: [docs_url] and [redoc_url] are set when the lower-cased
    [ENV], or ["local"] when [ENV] is unset, is one of local, dev and
    development, and are [None] for every other value, the empty string
    included. The OpenAPI schema URL is set in every profile. *)
Theorem docs_only_in_local_profile (env : environ) :
  (docs_url (app env) = Some "/docs"
   ↔ lower (getenv env "ENV" "local") ∈ local_names)
  ∧ (docs_url (app env) = None
     ↔ lower (getenv env "ENV" "local") ∉ local_names)
  ∧ (redoc_url (app env) = Some "/redoc"
     ↔ lower (getenv env "ENV" "local") ∈ local_names)
  ∧ (redoc_url (app env) = None
     ↔ lower (getenv env "ENV" "local") ∉ local_names)
  ∧ openapi_url (app env) = "/api/openapi.json"
  ∧ (env !! "ENV" = None → docs_url (app env) = Some "/docs")
  ∧ (env !! "ENV" = Some "" → docs_url (app env) = None).
Proof.
  assert (∀ e : environ,
            DEBUG (get_settings e)
            = bool_decide (lower (getenv e "ENV" "local") ∈ local_names))
    as Hdebug.
  { intros e. unfold get_settings. case_bool_decide as Hs.
    - apply profiles_disjoint in Hs. by rewrite bool_decide_eq_false_2.
    - by case_bool_decide. }
  assert (openapi_url (app env) = "/api/openapi.json") as Hopen.
  { unfold app, create_app, get_settings. simpl.
    by repeat case_bool_decide. }
  unfold app, create_app. simpl. rewrite Hdebug.
  repeat split; try (case_bool_decide; done); try exact Hopen.
  - intros Hno. unfold getenv. rewrite Hno. done.
  - intros Hempty. unfold getenv. rewrite Hempty. done.
Qed.

(** X13. The middleware is registered in the same order in every
    profile: CORS with credentials allowed, GZip from 1024 bytes, and the
    session cookie signed with [SECRET_KEY] from the environment, or with
    ["change-me"] when it is unset, also in the server profile. Host
    checking is added last, in the server profile only, for its three
    hosts; only there are the CORS origins other than the wildcard. *)
Theorem middleware_stack (env : environ) :
  add_middleware_calls (app env)
  = if bool_decide (lower (getenv env "ENV" "local") ∈ server_names)
    then [ CORSMiddleware
             ["https://dichfoto.com"; "https://upload.dichfoto.com"]
             true ["*"] ["*"];
           GZipMiddleware 1024;
           SessionMiddleware (getenv env "SECRET_KEY" "change-me")
             "sessionid";
           TrustedHostMiddleware
             ["dichfoto.com"; "upload.dichfoto.com"; "localhost"] ]
    else [ CORSMiddleware ["*"] true ["*"] ["*"];
           GZipMiddleware 1024;
           SessionMiddleware (getenv env "SECRET_KEY" "change-me")
             "sessionid" ].
Proof.
  unfold app, create_app, get_settings.
  case_bool_decide; [done |]. by case_bool_decide.
Qed.

(** X14. The profile depends on [ENV] only up to letter case, and the
    settings on nothing but [ENV] and [SECRET_KEY]: two environments that
    agree on [SECRET_KEY] and whose [ENV] values agree up to case give the
    same settings. *)
Theorem get_settings_case_insensitive (env env' : environ) :
  lower (getenv env "ENV" "local") = lower (getenv env' "ENV" "local") →
  env !! "SECRET_KEY" = env' !! "SECRET_KEY" →
  get_settings env = get_settings env'.
Proof.
  intros He Hk. unfold get_settings. rewrite He.
  assert (base_settings env = base_settings env') as Hb.
  { unfold base_settings, getenv. by rewrite Hk. }
  unfold server_settings, local_settings. by rewrite Hb.
Qed.

Lemma get_settings_case_insensitive_witness :
  lower (getenv {[ "ENV" := "PrOd"; "HOME" := "/root" ]} "ENV" "local")
  = lower (getenv {[ "ENV" := "prod" ]} "ENV" "local")
  ∧ ({[ "ENV" := "PrOd"; "HOME" := "/root" ]} : environ) !! "SECRET_KEY"
    = ({[ "ENV" := "prod" ]} : environ) !! "SECRET_KEY"
  ∧ get_settings {[ "ENV" := "PrOd"; "HOME" := "/root" ]}
    = get_settings {[ "ENV" := "prod" ]}.
Proof.
  split; [reflexivity |]. split; [reflexivity |].
  exact (get_settings_case_insensitive
           {[ "ENV" := "PrOd"; "HOME" := "/root" ]} {[ "ENV" := "prod" ]}
           eq_refl eq_refl).
Defined.

Lemma prefix_app p s :
  String.prefix p s = true ↔ ∃ rest, s = p +:+ rest.
Proof.
  revert s. induction p as [| a p IH]; intros s.
  - split; [intros _; by exists s | by destruct s].
  - destruct s as [| b s]; simpl.
    + split; [done | by intros (rest & ?)].
    + destruct (ascii_dec a b) as [-> | Hne].
      * rewrite IH. split; intros (rest & Hr); exists rest.
        -- by rewrite Hr.
        -- by injection Hr.
      * split; [done |]. intros (rest & Hr). by injection Hr.
Qed.

(** X15. The exception handler keeps the status code of the exception
    and answers in JSON exactly when the request path begins with the API
    prefix as a string, whether or not the prefix ends at a path segment;
    every other path is answered in HTML. *)
Theorem http_exception_handler_kind (api_prefix path detail : string)
    (status_code : Z) :
  status_of (http_exception_handler api_prefix path detail status_code)
  = status_code
  ∧ (is_json (http_exception_handler api_prefix path detail status_code)
     = true ↔ ∃ rest, path = api_prefix +:+ rest)
  ∧ is_json (http_exception_handler "/api" "/apix" detail status_code) = true
  ∧ is_json (http_exception_handler "/api" "/ap" detail status_code) = false.
Proof.
  unfold http_exception_handler. rewrite <- prefix_app.
  destruct (String.prefix api_prefix path); simpl; repeat split; done.
Qed.

End ServerFacts.

Module ScaffoldFacts.
Import Scaffold.

Lemma to_path_keys :
  to_path <$> FILES_keys
  = [ ["app"; "core"; "__init__.py"];
      ["app"; "core"; "config"; "__init__.py"];
      ["app"; "core"; "config"; "base.py"];
      ["app"; "core"; "config"; "local.py"];
      ["app"; "core"; "config"; "server.py"];
      ["app"; "core"; "security.py"];
      ["app"; "core"; "logging.py"];
      ["app"; "db"; "__init__.py"];
      ["app"; "db"; "base.py"];
      ["app"; "db"; "engine.py"];
      ["app"; "db"; "session.py"];
      ["app"; "models"; "__init__.py"];
      ["app"; "models"; "album.py"];
      ["app"; "models"; "asset.py"];
      ["app"; "models"; "share.py"];
      ["app"; "models"; "like.py"];
      ["app"; "api"; "__init__.py"];
      ["app"; "api"; "deps.py"];
      ["app"; "api"; "routers"; "__init__.py"];
      ["app"; "api"; "routers"; "public.py"];
      ["app"; "api"; "routers"; "admin.py"];
      ["app"; "api"; "routers"; "likes.py"];
      ["app"; "services"; "__init__.py"];
      ["app"; "services"; "gdrive.py"];
      ["app"; "services"; "variants.py"];
      ["app"; "services"; "thumbs.py"];
      ["app"; "services"; "zips.py"];
      ["app"; "selectors"; "__init__.py"];
      ["app"; "selectors"; "albums.py"];
      ["app"; "viewmodels"; "__init__.py"];
      ["app"; "viewmodels"; "albums.py"];
      ["app"; "web"; "templates"; "index.html"];
      ["app"; "web"; "static"; ".gitkeep"];
      ["app"; "server.py"];
      ["scripts"; "create_admin.py"] ].
Proof. vm_compute. reflexivity. Qed.

Lemma fs_bind_eq {A B} (m : FS A) (k : A → FS B) s :
  (m ≫= k) s
  = match m s with
    | (s', inr x) => k x s'
    | (s', inl e) => (s', inl e)
    end.
Proof. reflexivity. Qed.

Lemma path_app_ne (q r : path) : r ≠ [] → (q ++ r)%list ≠ q.
Proof.
  intros Hr Heq. apply (f_equal length) in Heq. rewrite length_app in Heq.
  destruct r; [done | simpl in Heq; lia].
Qed.

Lemma snoc_app (base : path) c (r : path) :
  (base ++ c :: r)%list = ((base ++ [c]) ++ r)%list.
Proof. by rewrite <- app_assoc. Qed.

Lemma prefix_cons_nonempty (c : string) (rest r' : path) :
  r' ≠ [] → r' `prefix_of` c :: rest →
  ∃ r'', r' = c :: r'' ∧ r'' `prefix_of` rest.
Proof.
  destruct r' as [| c' r'']; [done |]. intros _ Hp.
  pose proof (prefix_cons_inv_1 _ _ _ _ Hp) as ->.
  apply prefix_cons_inv_2 in Hp. by exists r''.
Qed.

Section OsFacts.
Variable new_dir_mode : N.
Variable new_file_mode : N.

#[local] Abbreviation mkdir_from := (mkdir_from new_dir_mode).
#[local] Abbreviation mkdir_p := (mkdir_p new_dir_mode).
#[local] Abbreviation make_dirs := (make_dirs new_dir_mode).
#[local] Abbreviation write_text := (write_text new_file_mode).
#[local] Abbreviation write_file := (write_file new_file_mode).
#[local] Abbreviation write_files := (write_files new_file_mode).
#[local] Abbreviation run := (run new_dir_mode new_file_mode).
#[local] Abbreviation placed := (placed new_file_mode).

(** *** Creating directories *)

Lemma mkdir_from_spec target rest :
  ∀ base s,
  ∃ s' r,
    mkdir_from target base rest s = (s', r)
    ∧ s ⊆ s'
    ∧ (∀ q n, s' !! q = Some n → s !! q = None →
              n = Dir new_dir_mode
              ∧ ∃ r', r' ≠ [] ∧ r' `prefix_of` rest ∧ q = (base ++ r')%list)
    ∧ (r = inr tt →
       ∀ r', r' ≠ [] → r' `prefix_of` rest →
             is_dir_node (s' !! (base ++ r')%list) = true)
    ∧ ((∀ r', r' ≠ [] → r' `prefix_of` rest →
              is_file (s !! (base ++ r')%list) = false) → r = inr tt)
    ∧ (∀ e, r = inl e →
            e = FileExistsError target ∨ e = NotADirectoryError target).
Proof.
  induction rest as [| c rest IH]; intros base s.
  - exists s, (inr tt). split; [done |]. split; [done |].
    split; [intros pq n Hq Hno; congruence |].
    split; [intros _ r' Hne Hp; by apply prefix_nil_inv in Hp |].
    split; [done |]. by intros e [=].
  - simpl. rewrite fs_bind_eq. unfold fs_get at 1.
    destruct (s !! (base ++ [c])%list) as [[m | m d] |] eqn:Hq0.
    + destruct (IH (base ++ [c])%list s)
        as (s' & r & Hrun & Hsub & Hnew & Hok & Hsucc & Herr).
      exists s', r. split; [done |]. split; [done |].
      split; [| split; [| split; [| done]]].
      * intros pq n Hq Hno.
        destruct (Hnew pq n Hq Hno) as (-> & r' & Hne & Hp & ->).
        split; [done |]. exists (c :: r'). split; [done |].
        split; [by apply prefix_cons |]. by rewrite <- app_assoc.
      * intros Hr r' Hne Hp.
        apply prefix_cons_nonempty in Hp as (r'' & -> & Hp); [| done].
        destruct r'' as [| c' r''].
        -- by rewrite (lookup_weaken _ _ _ _ Hq0 Hsub).
        -- rewrite snoc_app. by apply Hok.
      * intros Hnofile. apply Hsucc. intros r' Hne Hp.
        rewrite <- app_assoc. apply Hnofile; [done |]. by apply prefix_cons.
    + exists s, (inl (match rest with
                      | [] => FileExistsError target
                      | _ => NotADirectoryError target
                      end)).
      split; [done |]. split; [done |].
      split; [intros pq n Hq Hno; congruence |].
      split; [done |]. split.
      * intros Hnofile. specialize (Hnofile [c]).
        rewrite Hq0 in Hnofile. simpl in Hnofile.
        assert (false = true) by
          (symmetry; apply Hnofile; [done | by apply prefix_cons, prefix_nil]).
        done.
      * intros e [= <-]. destruct rest; auto.
    + rewrite fs_bind_eq.
      destruct (IH (base ++ [c])%list (<[(base ++ [c])%list
                                          := Dir new_dir_mode]> s))
        as (s' & r & Hrun & Hsub & Hnew & Hok & Hsucc & Herr).
      exists s', r. split; [done |].
      assert (s ⊆ <[(base ++ [c])%list := Dir new_dir_mode]> s) as Hs1
        by (by apply insert_subseteq).
      split; [by etrans |].
      split; [| split; [| split; [| done]]].
      * intros pq n Hq Hno.
        destruct (decide (pq = (base ++ [c])%list)) as [-> | Hne].
        -- assert (s' !! (base ++ [c])%list = Some (Dir new_dir_mode)) as Hd
             by (eapply lookup_weaken; [apply lookup_insert_eq | done]).
           rewrite Hd in Hq. injection Hq as <-. split; [done |].
           exists [c]. split; [done |].
           split; [by apply prefix_cons, prefix_nil | done].
        -- destruct (Hnew pq n Hq) as (-> & r' & Hr' & Hp & ->).
           { by rewrite lookup_insert_ne. }
           split; [done |]. exists (c :: r'). split; [done |].
           split; [by apply prefix_cons |]. by rewrite <- app_assoc.
      * intros Hr r' Hne Hp.
        apply prefix_cons_nonempty in Hp as (r'' & -> & Hp); [| done].
        destruct r'' as [| c' r''].
        -- erewrite lookup_weaken; [| apply lookup_insert_eq | done]. done.
        -- rewrite snoc_app. by apply Hok.
      * intros Hnofile. apply Hsucc. intros r' Hne Hp.
        rewrite lookup_insert_ne by (symmetry; by apply path_app_ne).
        rewrite <- app_assoc. apply Hnofile; [done |]. by apply prefix_cons.
Qed.

Lemma is_dir_insert (s : fs) (p q : path) n :
  s !! p = None → is_dir s q = true → is_dir (<[p := n]> s) q = true.
Proof.
  intros Hp. unfold is_dir. destruct q as [| c q]; [done |].
  destruct (decide (p = c :: q)) as [-> | Hne].
  - by rewrite Hp.
  - by rewrite lookup_insert_ne.
Qed.

Lemma is_dir_subseteq (s s' : fs) (q : path) :
  s ⊆ s' → is_dir s q = true → is_dir s' q = true.
Proof.
  intros Hsub. unfold is_dir. destruct q as [| c q]; [done |].
  destruct (s !! (c :: q)) as [[m | m d] |] eqn:E; try done.
  by rewrite (lookup_weaken _ _ _ _ E Hsub).
Qed.

Lemma is_dir_node_is_dir (s : fs) (q : path) :
  is_dir_node (s !! q) = true → is_dir s q = true.
Proof. unfold is_dir. destruct q; [done |]. by destruct (s !! _) as [[]|]. Qed.

Lemma wf_insert_dir (s : fs) (base : path) c m :
  wf s → is_dir s base = true → s !! (base ++ [c])%list = None →
  wf (<[(base ++ [c])%list := Dir m]> s).
Proof.
  intros [Hroot Hwf] Hbase Hno. split.
  - rewrite lookup_insert_ne; [done |]. by destruct base.
  - intros q c' n. rewrite lookup_insert. case_decide as Heq.
    + apply app_inj_tail in Heq as [-> ->]. intros _.
      by apply is_dir_insert.
    + intros Hq. apply is_dir_insert; [done |]. by eapply Hwf.
Qed.

Lemma mkdir_from_wf target rest :
  ∀ base s, wf s → is_dir s base = true →
            wf (mkdir_from target base rest s).1.
Proof.
  induction rest as [| c rest IH]; intros base s Hwf Hbase; [done |].
  simpl. rewrite fs_bind_eq. unfold fs_get at 1.
  destruct (s !! (base ++ [c])%list) as [[m | m d] |] eqn:Hq0; [| done |].
  - apply IH; [done |]. unfold is_dir. rewrite Hq0. by destruct base.
  - rewrite fs_bind_eq. apply IH.
    + by apply wf_insert_dir.
    + unfold is_dir. rewrite lookup_insert_eq. by destruct base.
Qed.

Lemma mkdir_p_wf (p : path) s : wf s → wf (mkdir_p p s).1.
Proof. intros Hwf. by apply mkdir_from_wf. Qed.

Lemma mkdir_p_spec (p : path) s :
  ∃ s' r,
    mkdir_p p s = (s', r)
    ∧ s ⊆ s'
    ∧ (∀ q n, s' !! q = Some n → s !! q = None →
              n = Dir new_dir_mode ∧ q ≠ [] ∧ q `prefix_of` p)
    ∧ (r = inr tt →
       ∀ q, q ≠ [] → q `prefix_of` p → is_dir_node (s' !! q) = true)
    ∧ ((∀ q, q ≠ [] → q `prefix_of` p → is_file (s !! q) = false) →
       r = inr tt)
    ∧ (∀ e, r = inl e → e = FileExistsError p ∨ e = NotADirectoryError p).
Proof.
  destruct (mkdir_from_spec p p [] s)
    as (s' & r & Hrun & Hsub & Hnew & Hok & Hsucc & Herr).
  exists s', r. split; [done |]. split; [done |].
  split; [| split; [| split; [| done]]].
  - intros q n Hq Hno. destruct (Hnew q n Hq Hno) as (-> & r' & ? & ? & ->).
    done.
  - intros Hr q Hne Hp. by apply (Hok Hr q).
  - intros Hnofile. apply Hsucc. intros r' Hne Hp. by apply Hnofile.
Qed.

Lemma make_dirs_spec keys :
  ∀ s, wf s →
  ∃ s' r,
    make_dirs keys s = (s', r)
    ∧ wf s'
    ∧ s ⊆ s'
    ∧ (∀ q n, s' !! q = Some n → s !! q = None →
              n = Dir new_dir_mode ∧ needed_dir keys q)
    ∧ (r = inr tt →
       ∀ q, needed_dir keys q → is_dir_node (s' !! q) = true)
    ∧ ((∀ q, needed_dir keys q → is_file (s !! q) = false) → r = inr tt)
    ∧ (∀ e, r = inl e →
            ∃ k, k ∈ keys
                 ∧ (e = FileExistsError (parent (to_path k))
                    ∨ e = NotADirectoryError (parent (to_path k)))).
Proof.
  induction keys as [| k keys IH]; intros s Hwf.
  - exists s, (inr tt). split; [done |]. split; [done |]. split; [done |].
    split; [intros q n Hq Hno; congruence |].
    split; [intros _ q (_ & k & Hk & _); by apply elem_of_nil in Hk |].
    split; [done |]. by intros e [=].
  - unfold Scaffold.make_dirs. simpl. rewrite fs_bind_eq.
    destruct (mkdir_p_spec (parent (to_path k)) s)
      as (s1 & r1 & Hrun1 & Hsub1 & Hnew1 & Hok1 & Hsucc1 & Herr1).
    pose proof (mkdir_p_wf (parent (to_path k)) s Hwf) as Hwf1.
    rewrite Hrun1 in Hwf1 |- *. simpl in Hwf1.
    destruct r1 as [e1 | []].
    + exists s1, (inl e1). split; [done |]. split; [done |].
      split; [done |].
      split.
      { intros q n Hq Hno. destruct (Hnew1 q n Hq Hno) as (-> & Hne & Hp).
        split; [done |]. split; [done |]. exists k. split; [left | done]. }
      split; [done |]. split.
      { intros Hnofile. apply Hsucc1. intros q Hne Hp. apply Hnofile.
        split; [done |]. exists k. split; [left | done]. }
      intros e [= <-]. exists k. split; [left |]. by apply Herr1.
    + destruct (IH s1 Hwf1)
        as (s' & r & Hrun & Hwf' & Hsub & Hnew & Hok & Hsucc & Herr).
      fold (make_dirs keys). rewrite Hrun.
      exists s', r. split; [done |]. split; [done |].
      split; [by etrans |].
      split.
      { intros q n Hq Hno. destruct (s1 !! q) as [n1|] eqn:Hq1.
        - rewrite (lookup_weaken _ _ _ _ Hq1 Hsub) in Hq. injection Hq as <-.
          destruct (Hnew1 q n1 Hq1 Hno) as (-> & Hne & Hp).
          split; [done |]. split; [done |]. exists k. split; [left | done].
        - destruct (Hnew q n Hq Hq1) as (-> & Hne & k' & Hk' & Hp).
          split; [done |]. split; [done |]. exists k'.
          split; [by right | done]. }
      split.
      { intros Hr q (Hne & k' & Hk' & Hp).
        apply elem_of_cons in Hk' as [-> | Hk'].
        - specialize (Hok1 eq_refl q Hne Hp).
          destruct (s1 !! q) as [[m | m d] |] eqn:Hq1; try done.
          by rewrite (lookup_weaken _ _ _ _ Hq1 Hsub).
        - apply Hok; [done |]. split; [done |]. by exists k'. }
      split.
      { intros Hnofile. apply Hsucc. intros q (Hne & k' & Hk' & Hp).
        assert (is_file (s !! q) = false) as Hs.
        { apply Hnofile. split; [done |]. exists k'. split; [by right | done]. }
        destruct (s1 !! q) as [n1|] eqn:Hq1; [| done].
        destruct (s !! q) as [n0|] eqn:Hq0.
        - rewrite (lookup_weaken _ _ _ _ Hq0 Hsub1) in Hq1.
          by injection Hq1 as <-.
        - by destruct (Hnew1 q n1 Hq1 Hq0) as (-> & _). }
      intros e He. destruct (Herr e He) as (k' & Hk' & Hkind).
      exists k'. split; [by right | done].
Qed.

(** *** Writing files *)

Lemma parent_snoc (q : path) c : parent (q ++ [c])%list = q.
Proof.
  unfold parent. rewrite length_app. simpl.
  replace (length q + 1 - 1)%nat with (length q) by lia.
  by rewrite take_app_length.
Qed.

Lemma path_snoc (p : path) : p ≠ [] → ∃ c, p = (parent p ++ [c])%list.
Proof.
  intros Hne. induction p as [| c q _] using rev_ind; [done |].
  exists c. by rewrite parent_snoc.
Qed.

Lemma wf_insert_file (s : fs) (p : path) m d :
  wf s → p ≠ [] → is_dir s (parent p) = true →
  is_dir_node (s !! p) = false →
  wf (<[p := File m d]> s).
Proof.
  intros [Hroot Hwf] Hne Hpar Hnodir. split.
  - by rewrite lookup_insert_ne.
  - intros q c n. rewrite lookup_insert. case_decide as Heq.
    + intros _. subst p. rewrite parent_snoc in Hpar.
      unfold is_dir in *. destruct q as [| c' q]; [done |].
      rewrite lookup_insert_ne; [done |].
      apply path_app_ne. done.
    + intros Hq. specialize (Hwf q c n Hq).
      unfold is_dir in *. destruct q as [| c' q]; [done |].
      destruct (decide (p = c' :: q)) as [-> | Hpq].
      * by destruct (s !! (c' :: q)) as [[]|].
      * by rewrite lookup_insert_ne.
Qed.

Lemma write_file_spec k c s :
  to_path k ≠ [] → is_dir s (parent (to_path k)) = true →
  write_file (k, c) s
  = match placed c (s !! to_path k) with
    | Some n => (<[to_path k := n]> s, inr tt)
    | None => (s, inl (IsADirectoryError (to_path k)))
    end.
Proof.
  intros Hne Hpar. unfold Scaffold.write_file. simpl.
  rewrite fs_bind_eq. unfold fs_get at 1.
  unfold exists_, read_text, Scaffold.write_text, Scaffold.placed.
  destruct (to_path k) as [| c0 p] eqn:Hp; [done |].
  destruct (s !! (c0 :: p)) as [[m | m [t |]] |] eqn:E.
  - rewrite bool_decide_eq_true_2 by eauto. by rewrite E.
  - rewrite bool_decide_eq_true_2 by eauto.
    destruct (nonempty (strip t)).
    + by rewrite insert_id.
    + by rewrite E.
  - rewrite bool_decide_eq_true_2 by eauto. by rewrite E.
  - rewrite bool_decide_eq_false_2 by (by intros [? ?]).
    by rewrite E, Hpar.
Qed.

Lemma placed_Some c o n :
  placed c o = Some n → (∃ m d, n = File m d) ∧ is_dir_node o = false.
Proof.
  unfold Scaffold.placed. destruct o as [[m | m [t |]] |]; try done.
  - destruct (nonempty (strip t)); intros [= <-]; eauto.
  - intros [= <-]; eauto.
  - intros [= <-]; eauto.
Qed.

Lemma placed_None c o : placed c o = None ↔ is_dir_node o = true.
Proof.
  unfold Scaffold.placed. destruct o as [[m | m [t |]] |]; try done.
  by destruct (nonempty (strip t)).
Qed.

Lemma write_files_spec l :
  ∀ s,
  wf s →
  NoDup (to_path <$> l.*1) →
  (∀ k, k ∈ l.*1 → to_path k ≠ []) →
  (∀ k, k ∈ l.*1 → is_dir s (parent (to_path k)) = true) →
  (∀ k k', k ∈ l.*1 → k' ∈ l.*1 → to_path k ≠ parent (to_path k')) →
  ∃ s' r,
    write_files l s = (s', r)
    ∧ wf s'
    ∧ (∀ q, q ∉ (to_path <$> l.*1) → s' !! q = s !! q)
    ∧ (∀ k c, (k, c) ∈ l →
              s' !! to_path k = s !! to_path k
              ∨ s' !! to_path k = placed c (s !! to_path k)
                ∧ is_dir_node (s !! to_path k) = false)
    ∧ (r = inr tt →
       ∀ k c, (k, c) ∈ l →
              s' !! to_path k = placed c (s !! to_path k)
              ∧ is_dir_node (s !! to_path k) = false)
    ∧ ((∀ k, k ∈ l.*1 → is_dir_node (s !! to_path k) = false) → r = inr tt)
    ∧ (∀ e, r = inl e →
            ∃ k, k ∈ l.*1 ∧ is_dir_node (s !! to_path k) = true
                 ∧ e = IsADirectoryError (to_path k)).
Proof.
  induction l as [| [k c] l IH]; intros s Hwf Hnd Hne Hpar Hsep.
  - exists s, (inr tt). split; [done |]. split; [done |]. split; [done |].
    split; [intros k c Hin; by apply elem_of_nil in Hin |].
    split; [intros _ k c Hin; by apply elem_of_nil in Hin |].
    split; [done |]. by intros e [=].
  - simpl in *. apply NoDup_cons in Hnd as [Hfresh Hnd].
    unfold Scaffold.write_files. simpl. rewrite fs_bind_eq.
    rewrite write_file_spec by (first [apply Hne | apply Hpar]; left).
    destruct (placed c (s !! to_path k)) as [n |] eqn:Hpl.
    + destruct (placed_Some _ _ _ Hpl) as ((m & d & ->) & Hnodir).
      assert (wf (<[to_path k := File m d]> s)) as Hwf1.
      { apply wf_insert_file; [done | apply Hne; left | apply Hpar; left
                               | done]. }
      destruct (IH (<[to_path k := File m d]> s) Hwf1 Hnd)
        as (s' & r & Hrun & Hwf' & Hframe & Hany & Hok & Hsucc & Herr).
      { intros k' Hk'. apply Hne. by right. }
      { intros k' Hk'. specialize (Hpar k' (list_elem_of_further _ _ _ Hk')).
        unfold is_dir in *. destruct (parent (to_path k')) eqn:Hp'; [done |].
        rewrite lookup_insert_ne; [done |]. rewrite <- Hp'.
        apply Hsep; [left | by right]. }
      { intros k1 k2 H1 H2. apply Hsep; by right. }
      fold (write_files l). rewrite Hrun.
      assert (∀ k', k' ∈ l.*1 → to_path k ≠ to_path k') as Hother.
      { intros k' Hk' Heq. apply Hfresh. rewrite Heq.
        by apply list_elem_of_fmap_2. }
      assert (s' !! to_path k = Some (File m d)) as Hk.
      { rewrite Hframe by done. apply lookup_insert_eq. }
      exists s', r. split; [done |]. split; [done |].
      split.
      { intros q Hq. apply not_elem_of_cons in Hq as [Hq1 Hq2].
        rewrite Hframe by done. by rewrite lookup_insert_ne. }
      split.
      { intros k' c' Hin. apply elem_of_cons in Hin as [[= -> ->] | Hin].
        - right. by rewrite Hk, Hpl.
        - assert (k' ∈ l.*1) as Hk'
            by (by apply (list_elem_of_fmap_2 fst _ (k', c'))).
          specialize (Hother k' Hk').
          destruct (Hany k' c' Hin) as [Hsame | [Hnew Hnd']].
          + left. rewrite Hsame. by rewrite lookup_insert_ne.
          + right. rewrite lookup_insert_ne in Hnew, Hnd' by done. done. }
      split.
      { intros Hr k' c' Hin. apply elem_of_cons in Hin as [[= -> ->] | Hin].
        - by rewrite Hk, Hpl.
        - assert (k' ∈ l.*1) as Hk'
            by (by apply (list_elem_of_fmap_2 fst _ (k', c'))).
          specialize (Hother k' Hk').
          destruct (Hok Hr k' c' Hin) as [Hnew Hnd'].
          rewrite lookup_insert_ne in Hnew, Hnd' by done. done. }
      split.
      { intros Hnod. apply Hsucc. intros k' Hk'.
        rewrite lookup_insert_ne by (by apply Hother).
        apply Hnod. by right. }
      intros e He. destruct (Herr e He) as (k' & Hk' & Hd & ->).
      exists k'. split; [by right |].
      rewrite lookup_insert_ne in Hd by (by apply Hother). done.
    + apply placed_None in Hpl.
      exists s, (inl (IsADirectoryError (to_path k))).
      split; [done |]. split; [done |]. split; [done |].
      split; [intros; by left |].
      split; [done |].
      split.
      { intros Hnod. rewrite Hnod in Hpl; [done | left]. }
      intros e [= <-]. exists k. split; [left | done].
Qed.

(** *** The whole script *)

Lemma make_executable_spec p s :
  make_executable p s = (match s !! p with
                         | Some n => <[p := with_exec n]> s
                         | None => s
                         end, inr tt).
Proof. unfold make_executable. by destruct (s !! p) as [[]|]. Qed.

Lemma run_eq items s :
  run items s
  = match make_dirs (items.*1) s with
    | (s1, inl e) => (s1, inl e)
    | (s1, inr _) =>
        match write_files items s1 with
        | (s2, inl e) => (s2, inl e)
        | (s2, inr _) =>
            if exists_ s2 (to_path script_key)
            then make_executable (to_path script_key) s2
            else (s2, inr tt)
        end
    end.
Proof.
  unfold Scaffold.run. rewrite fs_bind_eq.
  destruct (make_dirs items.*1 s) as [s1 [e | []]]; [done |].
  rewrite fs_bind_eq.
  destruct (write_files items s1) as [s2 [e | []]]; [done |].
  rewrite fs_bind_eq. unfold fs_get at 1.
  by destruct (exists_ s2 _).
Qed.

Section Keys.
Variable items : list (string * text).
Hypothesis Hkeys : keys_ok (items.*1).

Lemma key_nonempty k : k ∈ items.*1 → to_path k ≠ [].
Proof.
  destruct Hkeys as (_ & Hne & _). rewrite Forall_forall in Hne. apply Hne.
Qed.

Lemma key_not_needed k : k ∈ items.*1 → ¬ needed_dir (items.*1) (to_path k).
Proof.
  destruct Hkeys as (_ & _ & Hsep & _). intros Hk (_ & k' & Hk' & Hp).
  rewrite Forall_forall in Hsep. specialize (Hsep k Hk).
  rewrite Forall_forall in Hsep. by apply (Hsep k' Hk').
Qed.

Lemma key_not_parent k k' :
  k ∈ items.*1 → k' ∈ items.*1 → to_path k ≠ parent (to_path k').
Proof.
  intros Hk Hk' Heq. apply (key_not_needed k Hk).
  split; [by apply key_nonempty |]. exists k'. split; [done |].
  by rewrite Heq.
Qed.

Lemma parent_needed k :
  k ∈ items.*1 → parent (to_path k) ≠ [] →
  needed_dir (items.*1) (parent (to_path k)).
Proof. intros Hk Hne. split; [done |]. by exists k. Qed.

Lemma item_key k c : (k, c) ∈ items → k ∈ items.*1.
Proof. intros Hin. by apply (list_elem_of_fmap_2 fst _ (k, c)). Qed.

(** The directory pass leaves the keys as they were. *)
Lemma make_dirs_key s s1 r k :
  wf s → make_dirs (items.*1) s = (s1, r) → k ∈ items.*1 →
  s1 !! to_path k = s !! to_path k.
Proof.
  intros Hwf Hrun Hk.
  destruct (make_dirs_spec (items.*1) s Hwf)
    as (s1' & r' & Hrun' & _ & Hsub & Hnew & _).
  rewrite Hrun in Hrun'. injection Hrun' as <- <-.
  destruct (s !! to_path k) as [n |] eqn:E.
  - by apply (lookup_weaken _ _ _ _ E Hsub).
  - destruct (s1 !! to_path k) as [n1 |] eqn:E1; [| done].
    destruct (Hnew _ _ E1 E) as (_ & Hneeded).
    by destruct (key_not_needed k Hk).
Qed.

Lemma keys_path_inj k k' :
  k ∈ items.*1 → k' ∈ items.*1 → to_path k = to_path k' → k = k'.
Proof.
  destruct Hkeys as (Hnd & _). revert Hnd.
  generalize (items.*1). intros l. induction l as [| x l IH]; simpl.
  - intros _ Hk. by apply elem_of_nil in Hk.
  - intros [Hx Hnd]%NoDup_cons Hk Hk' Heq.
    apply elem_of_cons in Hk as [-> | Hk];
      apply elem_of_cons in Hk' as [-> | Hk']; try done.
    + destruct Hx. rewrite Heq. by apply list_elem_of_fmap_2.
    + destruct Hx. rewrite <- Heq. by apply list_elem_of_fmap_2.
    + by apply IH.
Qed.

Lemma script_item : ∃ c, (script_key, c) ∈ items.
Proof.
  destruct Hkeys as (_ & _ & _ & Hs).
  apply list_elem_of_fmap in Hs as ([k c] & Hk & Hin). simpl in Hk.
  subst k. by exists c.
Qed.

Lemma finished_other k n : k ≠ script_key → finished k n = n.
Proof. intros. unfold finished. by rewrite bool_decide_eq_false_2. Qed.

Lemma finished_script n : finished script_key n = with_exec <$> n.
Proof. unfold finished. by rewrite bool_decide_eq_true_2. Qed.

Lemma wf_replace_file (s : fs) p m d m' d' :
  wf s → s !! p = Some (File m d) → wf (<[p := File m' d']> s).
Proof.
  intros Hwf Hp. assert (p ≠ []) as Hne.
  { intros ->. destruct Hwf as [Hroot _]. congruence. }
  apply wf_insert_file; [done | done | | by rewrite Hp].
  destruct (path_snoc p Hne) as (c & Hc). destruct Hwf as [_ Hwf].
  apply (Hwf _ c (File m d)). by rewrite <- Hc.
Qed.

Lemma run_spec s :
  wf s →
  ∃ s' r,
    run items s = (s', r)
    ∧ wf s'
    ∧ (∀ q n, s !! q = Some n → q ∉ (to_path <$> items.*1) →
              s' !! q = Some n)
    ∧ (∀ q n, s' !! q = Some n → s !! q = None →
              q ∉ (to_path <$> items.*1) →
              n = Dir new_dir_mode ∧ needed_dir (items.*1) q)
    ∧ (∀ k c, (k, c) ∈ items →
              s' !! to_path k = s !! to_path k
              ∨ is_dir_node (s !! to_path k) = false
                ∧ (s' !! to_path k = placed c (s !! to_path k)
                   ∨ s' !! to_path k
                     = finished k (placed c (s !! to_path k))))
    ∧ (r = inr tt
       ↔ (∀ q, needed_dir (items.*1) q → is_file (s !! q) = false)
         ∧ (∀ k, k ∈ items.*1 → is_dir_node (s !! to_path k) = false))
    ∧ (r = inr tt →
       (∀ k c, (k, c) ∈ items →
               s' !! to_path k = finished k (placed c (s !! to_path k)))
       ∧ (∀ q, needed_dir (items.*1) q →
               s' !! q = Some (default (Dir new_dir_mode) (s !! q))))
    ∧ (∀ e, r = inl e →
            (∃ k, k ∈ items.*1 ∧ e = IsADirectoryError (to_path k)
                  ∧ is_dir_node (s !! to_path k) = true)
            ∨ (∃ k, k ∈ items.*1
                    ∧ (e = FileExistsError (parent (to_path k))
                       ∨ e = NotADirectoryError (parent (to_path k)))
                    ∧ ∀ q, is_file (s' !! q) = true → s' !! q = s !! q)).
Proof.
  intros Hwf. rewrite run_eq.
  destruct (make_dirs_spec (items.*1) s Hwf)
    as (s1 & r1 & Hrun1 & Hwf1 & Hsub1 & Hnew1 & Hok1 & Hsucc1 & Herr1).
  rewrite Hrun1.
  assert (∀ k, k ∈ items.*1 → s1 !! to_path k = s !! to_path k) as Hkey1
    by (intros k Hk; by eapply make_dirs_key).
  assert (∀ q n, s !! q = Some n → s1 !! q = Some n) as Hkeep1
    by (intros q n Hq; by apply (lookup_weaken _ _ _ _ Hq Hsub1)).
  assert (∀ q, is_file (s1 !! q) = true → s1 !! q = s !! q) as Hfiles1.
  { intros q Hf. destruct (s !! q) as [n |] eqn:E; [by apply Hkeep1 |].
    destruct (s1 !! q) as [n1 |] eqn:E1; [| done].
    by destruct (Hnew1 _ _ E1 E) as (-> & _). }
  destruct r1 as [e1 | []].
  { (* the directory pass failed *)
    exists s1, (inl e1). split; [done |]. split; [done |].
    split; [by intros q n Hq _; apply Hkeep1 |].
    split; [by intros q n Hq Hno _; apply Hnew1 |].
    split; [intros k c Hin; left; by apply Hkey1, (item_key _ c) |].
    split.
    { split; [done |]. intros [Hnofile _]. by apply Hsucc1. }
    split; [done |].
    intros e [= <-]. right. destruct (Herr1 e1 eq_refl) as (k & Hk & Hkind).
    by exists k. }
  specialize (Hok1 eq_refl).
  destruct (write_files_spec items s1 Hwf1)
    as (s2 & r2 & Hrun2 & Hwf2 & Hframe2 & Hany2 & Hok2 & Hsucc2 & Herr2).
  { by destruct Hkeys. }
  { apply key_nonempty. }
  { intros k Hk. destruct (decide (parent (to_path k) = [])) as [-> | Hne];
      [done |].
    apply is_dir_node_is_dir, Hok1. by apply parent_needed. }
  { apply key_not_parent. }
  rewrite Hrun2.
  assert (∀ q n, s !! q = Some n → q ∉ (to_path <$> items.*1) →
                 s2 !! q = Some n) as Hkeep2.
  { intros q n Hq Hout. rewrite Hframe2 by done. by apply Hkeep1. }
  assert (∀ q n, s2 !! q = Some n → s !! q = None →
                 q ∉ (to_path <$> items.*1) →
                 n = Dir new_dir_mode ∧ needed_dir (items.*1) q) as Hnew2.
  { intros q n Hq Hno Hout. rewrite Hframe2 in Hq by done.
    by apply Hnew1. }
  assert ((∀ q, needed_dir (items.*1) q → is_file (s !! q) = false)) as Hnf.
  { intros q Hq. specialize (Hok1 q Hq).
    destruct (s !! q) as [n |] eqn:E; [| done].
    rewrite (Hkeep1 _ _ E) in Hok1. by destruct n. }
  destruct r2 as [e2 | []].
  { (* the file pass stopped at a directory *)
    exists s2, (inl e2). split; [done |]. split; [done |].
    split; [done |]. split; [done |].
    split.
    { intros k c Hin. pose proof (item_key _ _ Hin) as Hk.
      destruct (Hany2 k c Hin) as [Hsame | [Hpl Hnd]].
      - left. by rewrite Hsame, Hkey1.
      - rewrite Hkey1 in Hpl, Hnd by done. right. split; [done |]. by left. }
    split.
    { split; [done |]. intros [_ Hnodir].
      apply Hsucc2. intros k Hk. rewrite Hkey1 by done. by apply Hnodir. }
    split; [done |].
    intros e [= <-]. left. destruct (Herr2 e2 eq_refl) as (k & Hk & Hd & ->).
    exists k. rewrite Hkey1 in Hd by done. done. }
  specialize (Hok2 eq_refl).
  destruct script_item as (cs & Hcs).
  pose proof (item_key _ _ Hcs) as Hks.
  destruct (Hok2 _ _ Hcs) as [Hs2 Hsnd].
  destruct (placed cs (s1 !! to_path script_key)) as [ns |] eqn:Hpls;
    [| by apply placed_None in Hpls; congruence].
  destruct (placed_Some _ _ _ Hpls) as ((ms & ds & ->) & _).
  assert (exists_ s2 (to_path script_key) = true) as Hex.
  { unfold exists_. pose proof (key_nonempty _ Hks) as Hne.
    destruct (to_path script_key); [done |].
    apply bool_decide_eq_true_2. by rewrite Hs2. }
  rewrite Hex, make_executable_spec, Hs2.
  set (s3 := <[to_path script_key := with_exec (File ms ds)]> s2).
  assert (∀ q, q ∉ (to_path <$> items.*1) → s3 !! q = s2 !! q) as Hframe3.
  { intros q Hout. unfold s3. rewrite lookup_insert_ne; [done |].
    intros <-. apply Hout. by apply list_elem_of_fmap_2. }
  assert (∀ k c, (k, c) ∈ items →
                 s3 !! to_path k = finished k (placed c (s !! to_path k)))
    as Hfin.
  { intros k c Hin. pose proof (item_key _ _ Hin) as Hk.
    destruct (Hok2 k c Hin) as [Hk2 _]. rewrite Hkey1 in Hk2 by done.
    destruct (decide (k = script_key)) as [-> | Hne].
    - rewrite finished_script. unfold s3. rewrite lookup_insert_eq.
      rewrite <- Hk2, Hs2. done.
    - rewrite finished_other by done. unfold s3.
      rewrite lookup_insert_ne; [done |].
      intros Heq. apply Hne. symmetry. by apply keys_path_inj. }
  exists s3, (inr tt). split; [done |].
  split; [by eapply wf_replace_file |].
  split; [intros q n Hq Hout; rewrite Hframe3 by done; by apply Hkeep2 |].
  split.
  { intros q n Hq Hno Hout. rewrite Hframe3 in Hq by done.
    by apply Hnew2. }
  split.
  { intros k c Hin. pose proof (item_key _ _ Hin) as Hk.
    right. destruct (Hok2 k c Hin) as [_ Hnd].
    rewrite Hkey1 in Hnd by done. split; [done |]. right. by apply Hfin. }
  split.
  { split; [| done]. intros _. split; [done |].
    intros k Hk. apply list_elem_of_fmap in Hk as ([k' c] & -> & Hin).
    destruct (Hok2 _ _ Hin) as [_ Hnd]. simpl.
    rewrite Hkey1 in Hnd; [done |]. by apply (item_key _ c). }
  split; [| done].
  intros _. split; [done |].
  intros q Hq. assert (q ∉ (to_path <$> items.*1)) as Hout.
  { intros Hin. apply list_elem_of_fmap in Hin as (k & -> & Hk).
    by apply (key_not_needed k Hk). }
  rewrite Hframe3, Hframe2 by done.
  specialize (Hok1 q Hq).
  destruct (s !! q) as [n |] eqn:E; simpl.
  - by apply Hkeep1.
  - destruct (s1 !! q) as [n1 |] eqn:E1; [| done].
    by destruct (Hnew1 _ _ E1 E) as (-> & _).
Qed.

End Keys.

End OsFacts.

(** *** The script on its own table *)

Lemma FILES_keys_ok : keys_ok FILES_keys.
Proof.
  unfold keys_ok. repeat split;
    apply (bool_decide_unpack _); vm_compute; exact I.
Qed.

Lemma FILES_fst content : (FILES content).*1 = FILES_keys.
Proof.
  unfold FILES. rewrite <- list_fmap_compose. apply list_fmap_id.
Qed.

Lemma FILES_item content k : k ∈ FILES_keys → (k, content k) ∈ FILES content.
Proof.
  intros Hk. unfold FILES. apply list_elem_of_fmap. by exists k.
Qed.

Lemma FILES_item_inv content k c : (k, c) ∈ FILES content → c = content k.
Proof.
  unfold FILES. intros (k' & [= -> ->] & _)%list_elem_of_fmap. done.
Qed.

Lemma main_spec nd nf content s :
  wf s →
  ∃ s' r,
    main nd nf content s = (s', r)
    ∧ wf s'
    ∧ (∀ q n, s !! q = Some n → q ∉ (to_path <$> FILES_keys) →
              s' !! q = Some n)
    ∧ (∀ q n, s' !! q = Some n → s !! q = None →
              q ∉ (to_path <$> FILES_keys) →
              n = Dir nd ∧ needed_dir FILES_keys q)
    ∧ (∀ k, k ∈ FILES_keys →
            s' !! to_path k = s !! to_path k
            ∨ is_dir_node (s !! to_path k) = false
              ∧ (s' !! to_path k = placed nf (content k) (s !! to_path k)
                 ∨ s' !! to_path k
                   = finished k (placed nf (content k) (s !! to_path k))))
    ∧ (r = inr tt
       ↔ (∀ q, needed_dir FILES_keys q → is_file (s !! q) = false)
         ∧ (∀ k, k ∈ FILES_keys → is_dir_node (s !! to_path k) = false))
    ∧ (r = inr tt →
       (∀ k, k ∈ FILES_keys →
             s' !! to_path k
             = finished k (placed nf (content k) (s !! to_path k)))
       ∧ (∀ q, needed_dir FILES_keys q →
               s' !! q = Some (default (Dir nd) (s !! q))))
    ∧ (∀ e, r = inl e →
            (∃ k, k ∈ FILES_keys ∧ e = IsADirectoryError (to_path k)
                  ∧ is_dir_node (s !! to_path k) = true)
            ∨ (∃ k, k ∈ FILES_keys
                    ∧ (e = FileExistsError (parent (to_path k))
                       ∨ e = NotADirectoryError (parent (to_path k)))
                    ∧ ∀ q, is_file (s' !! q) = true → s' !! q = s !! q)).
Proof.
  intros Hwf. unfold main.
  pose proof FILES_keys_ok as Hok. rewrite <- (FILES_fst content) in Hok.
  destruct (run_spec nd nf (FILES content) Hok s Hwf)
    as (s' & r & Hrun & Hwf' & Hkeep & Hnew & Hany & Hiff & Hres & Herr).
  rewrite FILES_fst in *.
  exists s', r. split; [done |]. split; [done |]. split; [done |].
  split; [done |].
  split; [intros k Hk; by apply Hany, FILES_item |].
  split; [done |].
  split; [| done].
  intros Hr. destruct (Hres Hr) as [Hfiles Hdirs]. split; [| done].
  intros k Hk. by apply Hfiles, FILES_item.
Qed.

(** *** The directories of the table *)

Lemma prefixes_spec (p q : path) :
  q ∈ prefixes p ↔ q ≠ [] ∧ q `prefix_of` p.
Proof.
  unfold prefixes. rewrite list_elem_of_fmap. split.
  - intros (n & -> & Hn). apply elem_of_seq in Hn. split.
    + destruct p; simpl in *; [lia | done].
    + exists (drop (S n) p). by rewrite take_drop.
  - intros [Hne [r ->]]. exists (length q - 1)%nat. split.
    + destruct q as [| c q]; [done |]. simpl. rewrite Nat.sub_0_r.
      f_equal. symmetry. apply take_app_length.
    + apply elem_of_seq. rewrite length_app.
      destruct q; simpl; [done | lia].
Qed.

Lemma needed_dirs_spec keys q : q ∈ needed_dirs keys ↔ needed_dir keys q.
Proof.
  unfold needed_dirs, needed_dir.
  rewrite elem_of_remove_dups, list_elem_of_bind. split.
  - intros (k & Hq & Hk). apply prefixes_spec in Hq as [? ?]. eauto.
  - intros (Hne & k & Hk & Hpre). exists k. split; [| done].
    by apply prefixes_spec.
Qed.

Lemma needed_dir_FILES q : needed_dir FILES_keys q ↔ q ∈ FILES_dirs.
Proof.
  rewrite <- needed_dirs_spec. split.
  - assert (Forall (λ d, d ∈ FILES_dirs) (needed_dirs FILES_keys)) as H
      by (apply (bool_decide_unpack _); vm_compute; exact I).
    intros Hq. by apply (proj1 (Forall_forall _ _) H).
  - assert (Forall (λ d, d ∈ needed_dirs FILES_keys) FILES_dirs) as H
      by (apply (bool_decide_unpack _); vm_compute; exact I).
    intros Hq. by apply (proj1 (Forall_forall _ _) H).
Qed.

(** *** What a second pass finds *)

Lemma wf_empty : wf ∅.
Proof. split; [done |]. intros q c n. by rewrite lookup_empty. Qed.

Lemma with_exec_idemp n : with_exec (with_exec n) = with_exec n.
Proof.
  destruct n; simpl; f_equal;
    by rewrite <- N.lor_assoc, N.lor_diag.
Qed.

Lemma placed_has_content nf c n :
  has_content n = true → placed nf c (Some n) = Some n.
Proof.
  destruct n as [m | m [t |]]; simpl; try done. by intros ->.
Qed.

Lemma placed_placed nf c o n :
  placed nf c o = Some n → placed nf c (Some n) = Some n.
Proof.
  destruct o as [[m | m [t |]] |]; simpl; try done.
  - destruct (nonempty (strip t)) eqn:E; intros [= <-]; simpl.
    + by rewrite E.
    + by destruct (nonempty (strip c)).
  - intros [= <-]; simpl. by destruct (nonempty (strip c)).
  - intros [= <-]; simpl. by destruct (nonempty (strip c)).
Qed.

Lemma placed_with_exec nf c o n :
  placed nf c o = Some n →
  placed nf c (Some (with_exec n)) = Some (with_exec n).
Proof.
  destruct o as [[m | m [t |]] |]; simpl; try done.
  - destruct (nonempty (strip t)) eqn:E; intros [= <-]; simpl.
    + by rewrite E.
    + by destruct (nonempty (strip c)).
  - intros [= <-]; simpl. by destruct (nonempty (strip c)).
  - intros [= <-]; simpl. by destruct (nonempty (strip c)).
Qed.

Lemma finished_placed_not_dir k nf c o :
  is_dir_node (finished k (placed nf c o)) = false.
Proof.
  destruct (placed nf c o) as [n |] eqn:E.
  - apply placed_Some in E as [(m & d & ->) _].
    unfold finished. by case_bool_decide.
  - unfold finished. by case_bool_decide.
Qed.

Lemma finished_placed_is_Some k nf c o :
  is_dir_node o = false → is_Some (finished k (placed nf c o)).
Proof.
  intros Ho. destruct (placed nf c o) as [n |] eqn:E.
  - unfold finished. case_bool_decide; simpl; eauto.
  - apply placed_None in E. congruence.
Qed.

Lemma finished_placed_idemp k nf c o :
  is_dir_node o = false →
  finished k (placed nf c (finished k (placed nf c o)))
  = finished k (placed nf c o).
Proof.
  intros Ho. destruct (placed nf c o) as [n |] eqn:E.
  - unfold finished. case_bool_decide.
    + change (with_exec <$> Some n) with (Some (with_exec n)).
      rewrite (placed_with_exec _ _ _ _ E).
      change (with_exec <$> Some (with_exec n))
        with (Some (with_exec (with_exec n))).
      by rewrite with_exec_idemp.
    + by rewrite (placed_placed _ _ _ _ E).
  - apply placed_None in E. congruence.
Qed.

Lemma main_empty_ok nd nf content : (main nd nf content ∅).2 = inr tt.
Proof.
  destruct (main_spec nd nf content ∅ wf_empty)
    as (s' & r & Hmain & _ & _ & _ & _ & Hiff & _).
  rewrite Hmain. simpl. apply Hiff.
  split; intros; by rewrite lookup_empty.
Qed.

(** *** Sample trees *)

Lemma user_tree_wf : wf ScaffoldSamples.user_tree.
Proof.
  unfold ScaffoldSamples.user_tree.
  apply wf_insert_file; [| done | vm_compute; reflexivity
                         | vm_compute; reflexivity].
  apply (wf_insert_dir _ [] "scripts");
    [| done | vm_compute; reflexivity].
  apply wf_insert_file; [| done | vm_compute; reflexivity
                         | vm_compute; reflexivity].
  apply (wf_insert_dir _ [] "app"); [| done | vm_compute; reflexivity].
  apply wf_empty.
Qed.

Lemma binary_tree_wf : wf ScaffoldSamples.binary_tree.
Proof.
  unfold ScaffoldSamples.binary_tree.
  apply wf_insert_file; [| done | vm_compute; reflexivity
                         | vm_compute; reflexivity].
  apply (wf_insert_dir _ [] "app"); [| done | vm_compute; reflexivity].
  apply wf_empty.
Qed.

Lemma blocked_tree_wf : wf ScaffoldSamples.blocked_tree.
Proof.
  unfold ScaffoldSamples.blocked_tree.
  apply wf_insert_file; [apply wf_empty | done | done | done].
Qed.

(** *** The script *)

(** X16. [main()] keeps a file of its table exactly when the file reads
    as UTF-8 text with something but white space in it: whatever the
    outcome of the run, such a file is left as it was, except that the
    script [scripts/create_admin.py] may have gained the owner's execute
    bit. No other file is protected: one that is empty or blank, and also
    one whose bytes do not decode as text, whatever they hold, is left as
    it was only by a run that stops before reaching it, and a run that
    reaches its end has overwritten it with its template, keeping its
    mode. *)
Theorem main_keeps_content nd nf content s k m d :
  wf s → k ∈ FILES_keys →
  s !! to_path k = Some (File m d) →
  (has_content (File m d) = true ↔ ∃ t, d = Some t ∧ strip t ≠ [])
  ∧ (has_content (File m d) = true →
     (main nd nf content s).1 !! to_path k = Some (File m d)
     ∨ k = script_key
       ∧ (main nd nf content s).1 !! to_path k
         = Some (with_exec (File m d)))
  ∧ (has_content (File m d) = false →
     ((main nd nf content s).1 !! to_path k = Some (File m d)
      ∨ (main nd nf content s).1 !! to_path k
        = Some (File m (Some (content k)))
      ∨ k = script_key
        ∧ (main nd nf content s).1 !! to_path k
          = Some (with_exec (File m (Some (content k)))))
     ∧ ((main nd nf content s).2 = inr tt →
        (main nd nf content s).1 !! to_path k
        = finished k (Some (File m (Some (content k)))))).
Proof.
  intros Hwf Hk Hs.
  destruct (main_spec nd nf content s Hwf)
    as (s' & r & Hmain & _ & _ & _ & Hany & _ & Hres & _).
  rewrite Hmain. cbn [fst snd].
  split.
  { destruct d as [t |]; cbn [has_content].
    - split.
      + intros Ht. exists t. split; [done |]. intros E.
        by rewrite E in Ht.
      + intros (t' & [= <-] & Hne). by destruct (strip t).
    - split; [done | by intros (t & ? & _)]. }
  split.
  - intros Hn. destruct (Hany k Hk) as [Hsame | [_ [Hp | Hf]]].
    + left. by rewrite Hsame.
    + left. by rewrite Hp, Hs, placed_has_content.
    + rewrite Hs, placed_has_content in Hf by done.
      unfold finished in Hf. case_bool_decide; [right | left]; done.
  - intros Hn.
    assert (placed nf (content k) (Some (File m d))
            = Some (File m (Some (content k)))) as Hpl.
    { destruct d as [t |]; cbn [placed]; [| done].
      cbn [has_content] in Hn. by rewrite Hn. }
    split.
    + destruct (Hany k Hk) as [Hsame | [_ [Hp | Hf]]].
      * left. by rewrite Hsame.
      * right. left. by rewrite Hp, Hs, Hpl.
      * rewrite Hs, Hpl in Hf. unfold finished in Hf.
        case_bool_decide; [right; right | right; left]; done.
    + intros ->. destruct (Hres eq_refl) as [Hfiles _].
      by rewrite (Hfiles k Hk), Hs, Hpl.
Qed.

Lemma main_keeps_content_witness :
  wf ScaffoldSamples.binary_tree
  ∧ "app/server.py" ∈ FILES_keys
  ∧ ScaffoldSamples.binary_tree !! to_path "app/server.py"
    = Some (File 420 None)
  ∧ has_content (File 420 None) = false
  ∧ (main 493 420 ScaffoldSamples.sample_content
       ScaffoldSamples.binary_tree).2 = inr tt
  ∧ (main 493 420 ScaffoldSamples.sample_content
       ScaffoldSamples.binary_tree).1 !! to_path "app/server.py"
    = Some (File 420 (Some [35%N])).
Proof.
  assert ("app/server.py" ∈ FILES_keys) as Hk
    by (unfold FILES_keys; do 33 right; left).
  assert (ScaffoldSamples.binary_tree !! to_path "app/server.py"
          = Some (File 420 None)) as Hs
    by (vm_compute; reflexivity).
  assert ((main 493 420 ScaffoldSamples.sample_content
             ScaffoldSamples.binary_tree).2 = inr tt) as Hr
    by (vm_compute; reflexivity).
  split; [exact binary_tree_wf |]. split; [exact Hk |].
  split; [exact Hs |]. split; [reflexivity |]. split; [exact Hr |].
  exact (proj2 (proj2 (proj2
           (main_keeps_content 493 420 ScaffoldSamples.sample_content
              ScaffoldSamples.binary_tree "app/server.py" 420 None
              binary_tree_wf Hk Hs)) eq_refl) Hr).
Defined.

(** X17. [main()] runs to its end exactly when nothing is in its way: no
    directory it needs exists as a file, and no file of its table exists
    as a directory. *)
Theorem main_succeeds_iff nd nf content s :
  wf s →
  (main nd nf content s).2 = inr tt
  ↔ (∀ q, q ∈ FILES_dirs → is_file (s !! q) = false)
    ∧ (∀ k, k ∈ FILES_keys → is_dir_node (s !! to_path k) = false).
Proof.
  intros Hwf.
  destruct (main_spec nd nf content s Hwf)
    as (s' & r & Hmain & _ & _ & _ & _ & Hiff & _).
  rewrite Hmain. simpl. rewrite Hiff. split.
  - intros [Hd Hf]. split; [| done].
    intros q Hq. by apply Hd, needed_dir_FILES.
  - intros [Hd Hf]. split; [| done].
    intros q Hq. by apply Hd, needed_dir_FILES.
Qed.

Lemma main_succeeds_iff_witness :
  wf ScaffoldSamples.user_tree
  ∧ ((main 493 420 ScaffoldSamples.sample_content
        ScaffoldSamples.user_tree).2 = inr tt
     ↔ (∀ q, q ∈ FILES_dirs →
             is_file (ScaffoldSamples.user_tree !! q) = false)
       ∧ (∀ k, k ∈ FILES_keys →
               is_dir_node (ScaffoldSamples.user_tree !! to_path k)
               = false)).
Proof.
  split; [exact user_tree_wf |].
  exact (main_succeeds_iff 493 420 ScaffoldSamples.sample_content
           ScaffoldSamples.user_tree user_tree_wf).
Defined.

(** X18. When [main()] fails, it is with [IsADirectoryError] at a file of
    its table that exists as a directory, or with [FileExistsError] or
    [NotADirectoryError] at the directory of one of them; in the second
    case the failure is in the first loop and no file has been written:
    every file of the tree is as it was. *)
Theorem main_failure nd nf content s e :
  wf s → (main nd nf content s).2 = inl e →
  (∃ k, k ∈ FILES_keys ∧ e = IsADirectoryError (to_path k)
        ∧ is_dir_node (s !! to_path k) = true)
  ∨ (∃ k, k ∈ FILES_keys
          ∧ (e = FileExistsError (parent (to_path k))
             ∨ e = NotADirectoryError (parent (to_path k)))
          ∧ ∀ q, is_file ((main nd nf content s).1 !! q) = true →
                 (main nd nf content s).1 !! q = s !! q).
Proof.
  intros Hwf.
  destruct (main_spec nd nf content s Hwf)
    as (s' & r & Hmain & _ & _ & _ & _ & _ & _ & Herr).
  rewrite Hmain. simpl. intros ->. by apply Herr.
Qed.

Lemma main_failure_witness :
  wf ScaffoldSamples.blocked_tree
  ∧ (main 493 420 ScaffoldSamples.sample_content
       ScaffoldSamples.blocked_tree).2
    = inl (NotADirectoryError ["app"; "core"])
  ∧ ((∃ k, k ∈ FILES_keys
           ∧ NotADirectoryError ["app"; "core"]
             = IsADirectoryError (to_path k)
           ∧ is_dir_node (ScaffoldSamples.blocked_tree !! to_path k)
             = true)
     ∨ (∃ k, k ∈ FILES_keys
             ∧ (NotADirectoryError ["app"; "core"]
                = FileExistsError (parent (to_path k))
                ∨ NotADirectoryError ["app"; "core"]
                  = NotADirectoryError (parent (to_path k)))
             ∧ ∀ q, is_file ((main 493 420 ScaffoldSamples.sample_content
                                ScaffoldSamples.blocked_tree).1 !! q)
                    = true →
                    (main 493 420 ScaffoldSamples.sample_content
                       ScaffoldSamples.blocked_tree).1 !! q
                    = ScaffoldSamples.blocked_tree !! q)).
Proof.
  assert ((main 493 420 ScaffoldSamples.sample_content
             ScaffoldSamples.blocked_tree).2
          = inl (NotADirectoryError ["app"; "core"])) as He
    by (vm_compute; reflexivity).
  split; [exact blocked_tree_wf |]. split; [exact He |].
  exact (main_failure 493 420 ScaffoldSamples.sample_content
           ScaffoldSamples.blocked_tree _ blocked_tree_wf He).
Defined.

(** X19. The tree a successful run of [main()] leaves: each file of the
    table holds what was there if that had something but white space in
    it, and its template otherwise (a blank file and one that does not
    decode are replaced, keeping their mode), the script with the
    owner's execute bit set; each directory of the table is the one that
    was there, or a new one; every other path is as it was. *)
Theorem main_result nd nf content s s' :
  wf s → main nd nf content s = (s', inr tt) →
  wf s'
  ∧ (∀ k, k ∈ FILES_keys →
          s' !! to_path k
          = finished k (placed nf (content k) (s !! to_path k)))
  ∧ (∀ q, q ∈ FILES_dirs → s' !! q = Some (default (Dir nd) (s !! q)))
  ∧ (∀ q, q ∉ (to_path <$> FILES_keys) → q ∉ FILES_dirs →
          s' !! q = s !! q).
Proof.
  intros Hwf Hrun.
  destruct (main_spec nd nf content s Hwf)
    as (s1 & r & Hmain & Hwf' & Hkeep & Hnew & _ & _ & Hres & _).
  rewrite Hrun in Hmain. injection Hmain as <- <-.
  destruct (Hres eq_refl) as [Hfiles Hdirs].
  split; [done |]. split; [done |]. split.
  - intros q Hq. by apply Hdirs, needed_dir_FILES.
  - intros q Hq Hd. destruct (s !! q) as [n |] eqn:E.
    + by apply Hkeep.
    + destruct (s' !! q) as [n |] eqn:E'; [| done].
      destruct (Hnew q n E' E Hq) as [_ Hneed].
      by apply needed_dir_FILES in Hneed.
Qed.

Lemma main_result_witness :
  wf ScaffoldSamples.user_tree
  ∧ main 493 420 ScaffoldSamples.sample_content ScaffoldSamples.user_tree
    = ((main 493 420 ScaffoldSamples.sample_content
          ScaffoldSamples.user_tree).1, inr tt)
  ∧ wf (main 493 420 ScaffoldSamples.sample_content
          ScaffoldSamples.user_tree).1
  ∧ (∀ k, k ∈ FILES_keys →
          (main 493 420 ScaffoldSamples.sample_content
             ScaffoldSamples.user_tree).1 !! to_path k
          = finished k (placed 420 (ScaffoldSamples.sample_content k)
                          (ScaffoldSamples.user_tree !! to_path k)))
  ∧ (∀ q, q ∈ FILES_dirs →
          (main 493 420 ScaffoldSamples.sample_content
             ScaffoldSamples.user_tree).1 !! q
          = Some (default (Dir 493) (ScaffoldSamples.user_tree !! q)))
  ∧ (∀ q, q ∉ (to_path <$> FILES_keys) → q ∉ FILES_dirs →
          (main 493 420 ScaffoldSamples.sample_content
             ScaffoldSamples.user_tree).1 !! q
          = ScaffoldSamples.user_tree !! q).
Proof.
  assert ((main 493 420 ScaffoldSamples.sample_content
             ScaffoldSamples.user_tree).2 = inr tt) as Hr
    by (vm_compute; reflexivity).
  assert (main 493 420 ScaffoldSamples.sample_content
            ScaffoldSamples.user_tree
          = ((main 493 420 ScaffoldSamples.sample_content
                ScaffoldSamples.user_tree).1, inr tt)) as Hm
    by (rewrite <- Hr; apply surjective_pairing).
  split; [exact user_tree_wf |]. split; [exact Hm |].
  exact (main_result 493 420 ScaffoldSamples.sample_content
           ScaffoldSamples.user_tree _ user_tree_wf Hm).
Defined.

(** X20. [main()] is idempotent: run again on the tree a successful run
    left, it succeeds and changes nothing. *)
Theorem main_idempotent nd nf content s s' :
  wf s → main nd nf content s = (s', inr tt) →
  main nd nf content s' = (s', inr tt).
Proof.
  intros Hwf Hrun.
  destruct (main_spec nd nf content s Hwf)
    as (s1 & r & Hmain & Hwf' & _ & _ & _ & Hiff & Hres & _).
  rewrite Hrun in Hmain. injection Hmain as <- <-.
  destruct (Hres eq_refl) as [Hfiles Hdirs].
  destruct (proj1 Hiff eq_refl) as [Hnofile Hnodir].
  destruct (main_spec nd nf content s' Hwf')
    as (s2 & r2 & Hmain2 & _ & Hkeep2 & Hnew2 & _ & Hiff2 & Hres2 & _).
  rewrite Hmain2.
  assert (r2 = inr tt) as ->.
  { apply Hiff2. split.
    - intros q Hq. rewrite (Hdirs q Hq). specialize (Hnofile q Hq).
      by destruct (s !! q) as [[] |].
    - intros k Hk. rewrite (Hfiles k Hk).
      apply finished_placed_not_dir. }
  destruct (Hres2 eq_refl) as [Hfiles2 _].
  f_equal. apply map_eq. intros q.
  destruct (decide (q ∈ to_path <$> FILES_keys)) as [Hin | Hnin].
  - apply list_elem_of_fmap in Hin as (k & -> & Hk).
    rewrite (Hfiles2 k Hk), (Hfiles k Hk).
    apply finished_placed_idemp. by apply Hnodir.
  - destruct (s' !! q) as [n |] eqn:E.
    + by apply Hkeep2.
    + destruct (s2 !! q) as [n |] eqn:E2; [| done].
      destruct (Hnew2 q n E2 E Hnin) as [_ Hneed].
      rewrite (Hdirs q Hneed) in E. done.
Qed.

Lemma main_idempotent_witness :
  wf ScaffoldSamples.user_tree
  ∧ main 493 420 ScaffoldSamples.sample_content ScaffoldSamples.user_tree
    = ((main 493 420 ScaffoldSamples.sample_content
          ScaffoldSamples.user_tree).1, inr tt)
  ∧ main 493 420 ScaffoldSamples.sample_content
      (main 493 420 ScaffoldSamples.sample_content
         ScaffoldSamples.user_tree).1
    = ((main 493 420 ScaffoldSamples.sample_content
          ScaffoldSamples.user_tree).1, inr tt).
Proof.
  assert ((main 493 420 ScaffoldSamples.sample_content
             ScaffoldSamples.user_tree).2 = inr tt) as Hr
    by (vm_compute; reflexivity).
  assert (main 493 420 ScaffoldSamples.sample_content
            ScaffoldSamples.user_tree
          = ((main 493 420 ScaffoldSamples.sample_content
                ScaffoldSamples.user_tree).1, inr tt)) as Hm
    by (rewrite <- Hr; apply surjective_pairing).
  split; [exact user_tree_wf |]. split; [exact Hm |].
  exact (main_idempotent 493 420 ScaffoldSamples.sample_content
           ScaffoldSamples.user_tree _ user_tree_wf Hm).
Defined.

(** X21. In an empty directory [main()] succeeds and leaves exactly the
    thirty-five files of its table, each holding its template, and the
    fourteen directories they lie in; the script alone is executable. *)
Theorem main_fresh nd nf content :
  ∃ s',
    main nd nf content ∅ = (s', inr tt)
    ∧ dom s' = list_to_set ((to_path <$> FILES_keys) ++ FILES_dirs)
    ∧ size s' = 49%nat
    ∧ (∀ k, k ∈ FILES_keys →
            s' !! to_path k
            = Some (File (if bool_decide (k = script_key)
                          then N.lor nf S_IEXEC else nf)
                         (Some (content k))))
    ∧ (∀ q, q ∈ FILES_dirs → s' !! q = Some (Dir nd)).
Proof.
  destruct (main_spec nd nf content ∅ wf_empty)
    as (s' & r & Hmain & _ & _ & Hnew & _ & Hiff & Hres & _).
  assert (r = inr tt) as ->.
  { apply Hiff. split; intros; by rewrite lookup_empty. }
  destruct (Hres eq_refl) as [Hfiles Hdirs].
  assert (∀ k, k ∈ FILES_keys →
               s' !! to_path k
               = Some (File (if bool_decide (k = script_key)
                             then N.lor nf S_IEXEC else nf)
                            (Some (content k)))) as Hf.
  { intros k Hk. rewrite (Hfiles k Hk), lookup_empty. simpl.
    unfold finished. by case_bool_decide. }
  assert (∀ q, q ∈ FILES_dirs → s' !! q = Some (Dir nd)) as Hd.
  { intros q Hq. rewrite (Hdirs q); [| by apply needed_dir_FILES].
    by rewrite lookup_empty. }
  assert (dom s' = list_to_set ((to_path <$> FILES_keys) ++ FILES_dirs))
    as Hdom.
  { apply set_eq. intros q.
    rewrite elem_of_dom, elem_of_list_to_set, elem_of_app. split.
    - intros [n Hn].
      destruct (decide (q ∈ to_path <$> FILES_keys)) as [Hin | Hnin];
        [by left | right].
      apply needed_dir_FILES.
      by apply (Hnew q n Hn (lookup_empty q) Hnin).
    - intros [Hin | Hin].
      + apply list_elem_of_fmap in Hin as (k & -> & Hk).
        rewrite (Hf k Hk). eauto.
      + rewrite (Hd q Hin). eauto. }
  exists s'. split; [exact Hmain |]. split; [exact Hdom |].
  split; [| split; [exact Hf | exact Hd]].
  rewrite <- size_dom, Hdom, size_list_to_set; [done |].
  apply (bool_decide_unpack _). vm_compute. exact I.
Qed.

(** X22. [main()] never removes a node, never changes a directory and
    never changes a path outside its table, whatever the outcome of the
    run; the nodes it adds are directories of its table and files of its
    table holding their template. *)
Theorem main_frame nd nf content s :
  wf s →
  wf (main nd nf content s).1
  ∧ (∀ q, is_Some (s !! q) → is_Some ((main nd nf content s).1 !! q))
  ∧ (∀ q m, s !! q = Some (Dir m) →
            (main nd nf content s).1 !! q = Some (Dir m))
  ∧ (∀ q n, s !! q = Some n → q ∉ (to_path <$> FILES_keys) →
            (main nd nf content s).1 !! q = Some n)
  ∧ (∀ q n, s !! q = None → (main nd nf content s).1 !! q = Some n →
            q ∈ FILES_dirs ∧ n = Dir nd
            ∨ ∃ k, k ∈ FILES_keys ∧ q = to_path k
                   ∧ (n = File nf (Some (content k))
                      ∨ k = script_key
                        ∧ n = File (N.lor nf S_IEXEC) (Some (content k)))).
Proof.
  intros Hwf.
  destruct (main_spec nd nf content s Hwf)
    as (s' & r & Hmain & Hwf' & Hkeep & Hnew & Hany & _).
  rewrite Hmain. simpl.
  assert (∀ k, k ∈ FILES_keys → is_Some (s !! to_path k) →
               is_Some (s' !! to_path k)) as Hsome.
  { intros k Hk Hs. destruct (Hany k Hk) as [-> | [Hnd [Hp | Hf]]];
      [done | |].
    - rewrite Hp. destruct (placed nf (content k) (s !! to_path k)) eqn:E;
        [eauto |]. apply placed_None in E. congruence.
    - rewrite Hf. by apply finished_placed_is_Some. }
  split; [done |]. split; [| split; [| split; [done |]]].
  - intros q [n Hn].
    destruct (decide (q ∈ to_path <$> FILES_keys)) as [Hin | Hnin].
    + apply list_elem_of_fmap in Hin as (k & -> & Hk).
      apply Hsome; eauto.
    + rewrite (Hkeep q n Hn Hnin). eauto.
  - intros q m Hq.
    destruct (decide (q ∈ to_path <$> FILES_keys)) as [Hin | Hnin].
    + apply list_elem_of_fmap in Hin as (k & -> & Hk).
      destruct (Hany k Hk) as [-> | [Hnd _]]; [done |].
      by rewrite Hq in Hnd.
    + by apply Hkeep.
  - intros q n Hq Hn.
    destruct (decide (q ∈ to_path <$> FILES_keys)) as [Hin | Hnin].
    + right. apply list_elem_of_fmap in Hin as (k & -> & Hk).
      exists k. split; [done |]. split; [done |].
      destruct (Hany k Hk) as [Hsame | [_ [Hp | Hf]]].
      * congruence.
      * rewrite Hq in Hp. simpl in Hp. left. congruence.
      * rewrite Hq in Hf. simpl in Hf. unfold finished in Hf.
        case_bool_decide; simpl in Hf; [right | left]; split_and?;
          congruence.
    + left. destruct (Hnew q n Hn Hq Hnin) as [-> Hneed].
      split; [| done]. by apply needed_dir_FILES.
Qed.

Lemma main_frame_witness :
  wf ScaffoldSamples.user_tree
  ∧ wf (main 493 420 ScaffoldSamples.sample_content
          ScaffoldSamples.user_tree).1
  ∧ (∀ q, is_Some (ScaffoldSamples.user_tree !! q) →
          is_Some ((main 493 420 ScaffoldSamples.sample_content
                      ScaffoldSamples.user_tree).1 !! q))
  ∧ (∀ q m, ScaffoldSamples.user_tree !! q = Some (Dir m) →
            (main 493 420 ScaffoldSamples.sample_content
               ScaffoldSamples.user_tree).1 !! q = Some (Dir m))
  ∧ (∀ q n, ScaffoldSamples.user_tree !! q = Some n →
            q ∉ (to_path <$> FILES_keys) →
            (main 493 420 ScaffoldSamples.sample_content
               ScaffoldSamples.user_tree).1 !! q = Some n)
  ∧ (∀ q n, ScaffoldSamples.user_tree !! q = None →
            (main 493 420 ScaffoldSamples.sample_content
               ScaffoldSamples.user_tree).1 !! q = Some n →
            q ∈ FILES_dirs ∧ n = Dir 493
            ∨ ∃ k, k ∈ FILES_keys ∧ q = to_path k
                   ∧ (n = File 420 (Some (ScaffoldSamples.sample_content k))
                      ∨ k = script_key
                        ∧ n = File (N.lor 420 S_IEXEC)
                                   (Some (ScaffoldSamples.sample_content k)))).
Proof.
  split; [exact user_tree_wf |].
  exact (main_frame 493 420 ScaffoldSamples.sample_content
           ScaffoldSamples.user_tree user_tree_wf).
Defined.

End ScaffoldFacts.

(* ===================================================================== *)
(** ** Facts about start-up and the routers                               *)
(* ===================================================================== *)

Module StartupFacts.
Import Config Server Scaffold Startup.

Lemma settings_dirs env :
  STATIC_DIR (get_settings env) = "app/web/static"
  ∧ TEMPLATES_DIR (get_settings env) = "app/web/templates".
Proof. unfold get_settings. by repeat case_bool_decide. Qed.

Lemma static_path : to_path "app/web/static" = ["app"; "web"; "static"].
Proof. vm_compute. reflexivity. Qed.

Lemma templates_path :
  to_path "app/web/templates" = ["app"; "web"; "templates"].
Proof. vm_compute. reflexivity. Qed.

Lemma lifespan_eq (nd : N) env s :
  lifespan nd (get_settings env) s
  = match mkdir_p nd ["app"; "web"; "static"] s with
    | (s1, inl e) => (s1, inl e)
    | (s1, inr _) => mkdir_p nd ["app"; "web"; "templates"] s1
    end.
Proof.
  unfold lifespan. destruct (settings_dirs env) as [-> ->].
  rewrite static_path, templates_path.
  rewrite ScaffoldFacts.fs_bind_eq.
  by destruct (mkdir_p nd _ s) as [s1 [e | []]].
Qed.

Lemma root_eq env s :
  root (get_settings env) s
  = if bool_decide (is_Some (s !! ["app"; "web"; "templates"; "index.html"]))
    then TemplateResponse "index.html"
    else Plain (HTMLResponse "<h1>Server running</h1>" 200).
Proof.
  unfold root. destruct (settings_dirs env) as [_ ->].
  by rewrite templates_path.
Qed.

Lemma prefixes3 (a b c : string) (q : path) :
  q ≠ [] ∧ q `prefix_of` [a; b; c] ↔ q ∈ [[a]; [a; b]; [a; b; c]].
Proof. by rewrite <- ScaffoldFacts.prefixes_spec. Qed.

Lemma static_prefix q :
  q ≠ [] → q `prefix_of` ["app"; "web"; "static"] → q ∈ lifespan_dirs.
Proof.
  intros Hne Hq. pose proof (proj1 (prefixes3 _ _ _ q) (conj Hne Hq)) as H.
  unfold lifespan_dirs. rewrite !elem_of_cons in *.
  destruct H as [-> | [-> | [-> | []%elem_of_nil]]]; eauto.
Qed.

Lemma templates_prefix q :
  q ≠ [] → q `prefix_of` ["app"; "web"; "templates"] → q ∈ lifespan_dirs.
Proof.
  intros Hne Hq. pose proof (proj1 (prefixes3 _ _ _ q) (conj Hne Hq)) as H.
  unfold lifespan_dirs. rewrite !elem_of_cons in *.
  destruct H as [-> | [-> | [-> | []%elem_of_nil]]]; eauto.
Qed.

Lemma lifespan_dirs_cases q :
  q ∈ lifespan_dirs →
  q ≠ []
  ∧ (q `prefix_of` ["app"; "web"; "static"]
     ∨ q `prefix_of` ["app"; "web"; "templates"]).
Proof.
  unfold lifespan_dirs. rewrite !elem_of_cons, elem_of_nil.
  intros [-> | [-> | [-> | [-> | []]]]]; (split; [done |]).
  - left. by exists ["web"; "static"].
  - left. by exists ["static"].
  - left. by exists [].
  - right. by exists [].
Qed.

(** A directory that is there with all its ancestors is left alone. *)
Lemma mkdir_p_noop (nd : N) (p : path) (s : fs) :
  (∀ q, q ≠ [] → q `prefix_of` p → is_dir_node (s !! q) = true) →
  mkdir_p nd p s = (s, inr tt).
Proof.
  intros Hdirs.
  destruct (ScaffoldFacts.mkdir_p_spec nd p s)
    as (s' & r & Hrun & Hsub & Hnew & _ & Hok & _).
  rewrite Hrun. f_equal.
  - apply map_eq. intros q. destruct (s !! q) as [n |] eqn:E.
    + by apply (lookup_weaken _ _ _ _ E Hsub).
    + destruct (s' !! q) as [n |] eqn:E'; [| done].
      destruct (Hnew q n E' E) as (_ & Hne & Hpre).
      specialize (Hdirs q Hne Hpre). by rewrite E in Hdirs.
  - apply Hok. intros q Hne Hpre. specialize (Hdirs q Hne Hpre).
    by destruct (s !! q) as [[] |].
Qed.

Lemma is_file_weaken (s s' : fs) q :
  s ⊆ s' → is_file (s !! q) = true → is_file (s' !! q) = true.
Proof.
  intros Hsub. destruct (s !! q) as [[m | m d] |] eqn:E; try done.
  by rewrite (lookup_weaken _ _ _ _ E Hsub).
Qed.

Lemma file_not_dir (o : option node) :
  is_dir_node o = true → is_file o = false.
Proof. by destruct o as [[] |]. Qed.

Lemma lifespan_spec (nd : N) env s :
  wf s →
  ∃ s' r,
    lifespan nd (get_settings env) s = (s', r)
    ∧ wf s'
    ∧ s ⊆ s'
    ∧ (∀ q n, s' !! q = Some n → s !! q = None →
              n = Dir nd ∧ q ∈ lifespan_dirs)
    ∧ (r = inr tt ↔ ∀ q, q ∈ lifespan_dirs → is_file (s !! q) = false)
    ∧ (r = inr tt →
       ∀ q, q ∈ lifespan_dirs → is_dir_node (s' !! q) = true)
    ∧ (∀ e, r = inl e →
            ∃ p, (p = ["app"; "web"; "static"]
                  ∨ p = ["app"; "web"; "templates"])
                 ∧ (e = FileExistsError p ∨ e = NotADirectoryError p)).
Proof.
  intros Hwf. rewrite lifespan_eq.
  pose proof (ScaffoldFacts.mkdir_p_wf nd ["app"; "web"; "static"] s Hwf)
    as Hwf1.
  destruct (ScaffoldFacts.mkdir_p_spec nd ["app"; "web"; "static"] s)
    as (s1 & r1 & Hrun1 & Hsub1 & Hnew1 & Hdir1 & Hok1 & Herr1).
  rewrite Hrun1 in *. simpl in Hwf1.
  destruct r1 as [e1 | []].
  - exists s1, (inl e1). split; [done |]. split; [done |].
    split; [done |]. split; [| split; [| split]].
    + intros q n Hq Hs. destruct (Hnew1 q n Hq Hs) as (-> & Hne & Hpre).
      split; [done |]. by apply static_prefix.
    + split; [done |]. intros Hno. exfalso.
      assert (@inl oserror unit e1 = inr tt) as Habs; [| done].
      apply Hok1. intros q Hne Hpre. by apply Hno, static_prefix.
    + done.
    + intros e [= <-]. exists ["app"; "web"; "static"].
      split; [by left |]. by apply Herr1.
  - pose proof (ScaffoldFacts.mkdir_p_wf nd ["app"; "web"; "templates"]
                  s1 Hwf1) as Hwf2.
    destruct (ScaffoldFacts.mkdir_p_spec nd ["app"; "web"; "templates"] s1)
      as (s2 & r2 & Hrun2 & Hsub2 & Hnew2 & Hdir2 & Hok2 & Herr2).
    rewrite Hrun2 in *. simpl in Hwf2.
    exists s2, r2. split; [done |]. split; [done |].
    split; [by etrans |]. split; [| split; [| split]].
    + intros q n Hq Hs. destruct (s1 !! q) as [n1 |] eqn:E1.
      * rewrite (lookup_weaken _ _ _ _ E1 Hsub2) in Hq.
        injection Hq as <-.
        destruct (Hnew1 q n1 E1 Hs) as (-> & Hne & Hpre).
        split; [done |]. by apply static_prefix.
      * destruct (Hnew2 q n Hq E1) as (-> & Hne & Hpre).
        split; [done |]. by apply templates_prefix.
    + split.
      * intros -> q Hq.
        destruct (is_file (s !! q)) eqn:Hf; [| done]. exfalso.
        apply lifespan_dirs_cases in Hq as [Hne [Hpre | Hpre]].
        -- pose proof (Hdir1 eq_refl q Hne Hpre) as Hd.
           apply file_not_dir in Hd.
           apply (is_file_weaken _ _ _ Hsub1) in Hf. congruence.
        -- pose proof (Hdir2 eq_refl q Hne Hpre) as Hd.
           apply file_not_dir in Hd.
           apply (is_file_weaken _ s2) in Hf; [congruence | by etrans].
      * intros Hno. apply Hok2. intros q Hne Hpre.
        destruct (s1 !! q) as [n1 |] eqn:E1; [| done].
        destruct (s !! q) as [n |] eqn:E.
        -- rewrite (lookup_weaken _ _ _ _ E Hsub1) in E1.
           injection E1 as <-. rewrite <- E.
           by apply Hno, templates_prefix.
        -- by destruct (Hnew1 q n1 E1 E) as (-> & _).
    + intros -> q Hq.
      apply lifespan_dirs_cases in Hq as [Hne [Hpre | Hpre]].
      * pose proof (Hdir1 eq_refl q Hne Hpre) as Hd.
        destruct (s1 !! q) as [[m | m d] |] eqn:E1; try done.
        by rewrite (lookup_weaken _ _ _ _ E1 Hsub2).
      * by apply Hdir2.
    + intros e ->. exists ["app"; "web"; "templates"].
      split; [by right |]. by apply Herr2.
Qed.

Lemma index_not_dir :
  ["app"; "web"; "templates"; "index.html"] ∉ lifespan_dirs.
Proof.
  unfold lifespan_dirs. rewrite !elem_of_cons, elem_of_nil.
  intros [H | [H | [H | [H | []]]]]; discriminate H.
Qed.

Lemma empty_tree_start (nd : N) env :
  lifespan nd (get_settings env) ∅
  = ((lifespan nd (get_settings env) ∅).1,
     (lifespan nd (get_settings env) ∅).2).
Proof. apply surjective_pairing. Qed.

(** X23. [lifespan] succeeds exactly when none of [app], [app/web],
    [app/web/static] and [app/web/templates] exists as a file, in every
    profile; then all four are directories. Whatever the outcome it keeps
    every node of the tree, adds nothing but those directories, and so
    never changes the page [root] serves: without a scaffolded
    [index.html] that is the fallback page, before and after start-up. *)
Theorem lifespan_makes_dirs (nd : N) env s s' r :
  wf s → lifespan nd (get_settings env) s = (s', r) →
  wf s'
  ∧ s ⊆ s'
  ∧ (∀ q n, s' !! q = Some n → s !! q = None →
            n = Dir nd ∧ q ∈ lifespan_dirs)
  ∧ (r = inr tt ↔ ∀ q, q ∈ lifespan_dirs → is_file (s !! q) = false)
  ∧ (r = inr tt → ∀ q, q ∈ lifespan_dirs → is_dir_node (s' !! q) = true)
  ∧ (∀ e, r = inl e →
          ∃ p, (p = ["app"; "web"; "static"]
                ∨ p = ["app"; "web"; "templates"])
               ∧ (e = FileExistsError p ∨ e = NotADirectoryError p))
  ∧ root (get_settings env) s' = root (get_settings env) s.
Proof.
  intros Hwf Hrun.
  destruct (lifespan_spec nd env s Hwf)
    as (s1 & r1 & Hrun1 & Hwf' & Hsub & Hnew & Hiff & Hdirs & Herr).
  rewrite Hrun in Hrun1. injection Hrun1 as <- <-.
  split; [exact Hwf' |]. split; [exact Hsub |]. split; [exact Hnew |].
  split; [exact Hiff |]. split; [exact Hdirs |]. split; [exact Herr |].
  rewrite !root_eq.
  destruct (s !! ["app"; "web"; "templates"; "index.html"]) as [n |] eqn:E.
  - by rewrite (lookup_weaken _ _ _ _ E Hsub).
  - destruct (s' !! ["app"; "web"; "templates"; "index.html"])
      as [n |] eqn:E'; [| done].
    destruct (Hnew _ n E' E) as [_ Hin]. by apply index_not_dir in Hin.
Qed.

Lemma lifespan_makes_dirs_witness :
  wf (∅ : fs)
  ∧ lifespan 493 (get_settings ∅) ∅
    = ((lifespan 493 (get_settings ∅) ∅).1,
       (lifespan 493 (get_settings ∅) ∅).2)
  ∧ (wf (lifespan 493 (get_settings ∅) ∅).1
     ∧ (∅ : fs) ⊆ (lifespan 493 (get_settings ∅) ∅).1
     ∧ (∀ q n, (lifespan 493 (get_settings ∅) ∅).1 !! q = Some n →
               (∅ : fs) !! q = None →
               n = Dir 493 ∧ q ∈ lifespan_dirs)
     ∧ ((lifespan 493 (get_settings ∅) ∅).2 = inr tt
        ↔ ∀ q, q ∈ lifespan_dirs → is_file ((∅ : fs) !! q) = false)
     ∧ ((lifespan 493 (get_settings ∅) ∅).2 = inr tt →
        ∀ q, q ∈ lifespan_dirs →
             is_dir_node ((lifespan 493 (get_settings ∅) ∅).1 !! q) = true)
     ∧ (∀ e, (lifespan 493 (get_settings ∅) ∅).2 = inl e →
             ∃ p, (p = ["app"; "web"; "static"]
                   ∨ p = ["app"; "web"; "templates"])
                  ∧ (e = FileExistsError p ∨ e = NotADirectoryError p))
     ∧ root (get_settings ∅) (lifespan 493 (get_settings ∅) ∅).1
       = root (get_settings ∅) ∅).
Proof.
  split; [exact ScaffoldFacts.wf_empty |].
  split; [exact (empty_tree_start 493 ∅) |].
  exact (lifespan_makes_dirs 493 ∅ ∅ _ _ ScaffoldFacts.wf_empty
           (empty_tree_start 493 ∅)).
Defined.

(** X24. After a successful run of the scaffold script the server starts
    in every profile without touching the tree: [lifespan] finds its two
    directories and changes nothing, and [root] serves the [index.html]
    template, not the fallback page. *)
Theorem lifespan_after_main (nd nf : N) content s s' (nd' : N) env :
  wf s → main nd nf content s = (s', inr tt) →
  lifespan nd' (get_settings env) s' = (s', inr tt)
  ∧ root (get_settings env) s' = TemplateResponse "index.html".
Proof.
  intros Hwf Hrun.
  destruct (ScaffoldFacts.main_spec nd nf content s Hwf)
    as (s1 & r & Hmain & _ & _ & _ & _ & Hiff & Hres & _).
  rewrite Hrun in Hmain. injection Hmain as <- <-.
  destruct (Hres eq_refl) as [Hfiles Hdirs].
  destruct (proj1 Hiff eq_refl) as [Hnofile Hnodir].
  assert (∀ q, q ∈ lifespan_dirs → is_dir_node (s' !! q) = true) as Hd.
  { intros q Hq.
    assert (q ∈ FILES_dirs) as Hin.
    { revert Hq. unfold lifespan_dirs, FILES_dirs.
      rewrite !elem_of_cons, elem_of_nil.
      intros [-> | [-> | [-> | [-> | []]]]]; eauto 15. }
    apply ScaffoldFacts.needed_dir_FILES in Hin.
    rewrite (Hdirs q Hin). specialize (Hnofile q Hin).
    by destruct (s !! q) as [[] |]. }
  split.
  - rewrite lifespan_eq.
    rewrite mkdir_p_noop
      by (intros q Hne Hpre; by apply Hd, static_prefix).
    apply mkdir_p_noop. intros q Hne Hpre. by apply Hd, templates_prefix.
  - rewrite root_eq.
    assert ("app/web/templates/index.html" ∈ FILES_keys) as Hk
      by (unfold FILES_keys; do 31 right; left).
    pose proof (Hfiles _ Hk) as Hf.
    replace (to_path "app/web/templates/index.html")
      with ["app"; "web"; "templates"; "index.html"] in *
      by (vm_compute; reflexivity).
    rewrite bool_decide_eq_true_2; [done |].
    rewrite Hf. apply ScaffoldFacts.finished_placed_is_Some.
    by apply (Hnodir _ Hk).
Qed.

Lemma lifespan_after_main_witness :
  wf ScaffoldSamples.user_tree
  ∧ main 493 420 ScaffoldSamples.sample_content ScaffoldSamples.user_tree
    = ((main 493 420 ScaffoldSamples.sample_content
          ScaffoldSamples.user_tree).1, inr tt)
  ∧ lifespan 493 (get_settings ∅)
      (main 493 420 ScaffoldSamples.sample_content
         ScaffoldSamples.user_tree).1
    = ((main 493 420 ScaffoldSamples.sample_content
          ScaffoldSamples.user_tree).1, inr tt)
  ∧ root (get_settings ∅)
      (main 493 420 ScaffoldSamples.sample_content
         ScaffoldSamples.user_tree).1
    = TemplateResponse "index.html".
Proof.
  assert ((main 493 420 ScaffoldSamples.sample_content
             ScaffoldSamples.user_tree).2 = inr tt) as Hr
    by (vm_compute; reflexivity).
  assert (main 493 420 ScaffoldSamples.sample_content
            ScaffoldSamples.user_tree
          = ((main 493 420 ScaffoldSamples.sample_content
                ScaffoldSamples.user_tree).1, inr tt)) as Hm
    by (rewrite <- Hr; apply surjective_pairing).
  split; [exact ScaffoldFacts.user_tree_wf |]. split; [exact Hm |].
  exact (lifespan_after_main 493 420 ScaffoldSamples.sample_content
           ScaffoldSamples.user_tree _ 493 ∅
           ScaffoldFacts.user_tree_wf Hm).
Defined.

End StartupFacts.

(* ===================================================================== *)
(** ** Facts about the scaffolded routers                                 *)
(* ===================================================================== *)

Module RoutersFacts.
Import Schema Engine Routers.



End RoutersFacts.
